(** * nextpress: the [Wpdb] database-access class, embedded and checked

    Shallow embedding of [src/wp-includes/class-wpdb.js] (class [Wpdb]) and of
    the accessor fragment [src/unnamed/part_000] of the same class.

    Conventions of the embedding:
    - a JavaScript string is the list of its UTF-16 code units ([jstring]);
    - a JavaScript number that the modelled code handles is an integer ([Z]);
      [NaN], where [parseInt] can produce it, is [None] of an [option Z];
    - a method that can throw returns a [completion]; methods that read or
      write the instance or the process thread a state explicitly;
    - an [async] method that its caller awaits is modelled by what its promise
      settles with ([Normal v]: fulfilled with [v]; [Throw e]: rejected with
      [e]); where the caller does not await it, the call yields a promise
      ([VPromise], [Pending]) and only the part of its body that runs before
      the first [await] has taken effect;
    - regular expressions are values of an abstract syntax [RegExp.re] run by a
      backtracking matcher that follows the ECMAScript matcher (continuation
      passing, greedy quantifiers, the empty-iteration check, captures reset
      on every iteration, negative lookahead). *)

From Stdlib Require Import ZArith NArith List String Ascii Lia Bool.
From stdpp Require Import gmap strings list.

#[local] Set Warnings "-register-all".

Local Open Scope N_scope.

(** ** JavaScript strings *)

Module JS.

(** A string value: its UTF-16 code units. *)
Definition jstring := list N.

(** An ASCII literal as a JavaScript string. *)
Fixpoint lit (s : string) : jstring :=
  match s with
  | EmptyString => []
  | String a r => N_of_ascii a :: lit r
  end.

#[global] Arguments lit : simpl never.

Definition jstring_eqb (a b : jstring) : bool := bool_decide (a = b).

(** [cu "x"] is the code unit of a one-character ASCII literal. *)
Definition cu (s : string) : N :=
  match s with
  | String a _ => N_of_ascii a
  | EmptyString => 0
  end.

(** Values.  [VNum] is an integer-valued number, [VNaN] the number [NaN];
    [VObj] is a plain object (its own properties in insertion order), [VArr]
    an array, [VError] an [Error] object with its message and [VPromise] a
    promise, of which the synchronous code only sees that it is an object. *)
Inductive jsval : Type :=
| VUndef
| VNull
| VBool (b : bool)
| VNum (n : Z)
| VNaN
| VStr (s : jstring)
| VArr (l : list jsval)
| VObj (l : list (jstring * jsval))
| VError (msg : jstring)
| VPromise.

(** How a call can end other than by returning: the exceptions of the
    language, an [Error] thrown with a message, a rejection that comes from
    the database driver, and [process.exit]. *)
Inductive jserror : Type :=
| TypeError
| ReferenceError
| ErrorOf (msg : jstring)
| DriverError
| ProcessExit (code : Z).

(** Result of evaluating a call: a value, or an exception. *)
Inductive completion (A : Type) : Type :=
| Normal (a : A)
| Throw (e : jserror).
Arguments Normal {A} a.
Arguments Throw {A} e.

(** ToBoolean. *)
Definition truthy (v : jsval) : bool :=
  match v with
  | VUndef | VNull | VNaN => false
  | VBool b => b
  | VNum n => negb (Z.eqb n 0)
  | VStr s => match s with [] => false | _ => true end
  | VArr _ | VObj _ | VError _ | VPromise => true
  end.

(** Decimal digits of a natural number, most significant first. *)
Fixpoint digits_of (fuel : nat) (n : N) (acc : jstring) : jstring :=
  match fuel with
  | O => acc
  | S fuel' =>
      let acc' := (48 + n mod 10) :: acc in
      if n <? 10 then acc' else digits_of fuel' (n / 10) acc'
  end.

(** Number::toString of an integer-valued number. *)
Definition num_to_string (z : Z) : jstring :=
  let n := Z.abs_N z in
  let ds := digits_of (S (N.to_nat (N.log2 n))) n [] in
  if (z <? 0)%Z then 45 :: ds else ds.

(** ToString.  An array is the join of its elements with commas, [null] and
    [undefined] elements as the empty string. *)
Fixpoint to_string (v : jsval) : jstring :=
  match v with
  | VUndef => lit "undefined"
  | VNull => lit "null"
  | VBool true => lit "true"
  | VBool false => lit "false"
  | VNum n => num_to_string n
  | VNaN => lit "NaN"
  | VStr s => s
  | VArr l =>
      let elt x :=
        match x with
        | VUndef | VNull => []
        | _ => to_string x
        end in
      (fix join (l : list jsval) : jstring :=
         match l with
         | [] => []
         | [x] => elt x
         | x :: t => elt x ++ 44 :: join t
         end) l
  | VObj _ => lit "[object Object]"
  | VPromise => lit "[object Promise]"
  | VError [] => lit "Error"
  | VError msg => lit "Error: " ++ msg
  end.

(** WhiteSpace and LineTerminator code units, which [parseInt] skips. *)
Definition is_space (c : N) : bool :=
  existsb (N.eqb c)
    [9; 10; 11; 12; 13; 32; 160; 5760; 8232; 8233; 8239; 8287; 12288; 65279]
  || ((8192 <=? c) && (c <=? 8202)).

Fixpoint skip_space (s : jstring) : jstring :=
  match s with
  | c :: t => if is_space c then skip_space t else s
  | [] => []
  end.

Fixpoint leading_digits (s : jstring) (acc : option Z) : option Z :=
  match s with
  | c :: t =>
      if (48 <=? c) && (c <=? 57) then
        leading_digits t
          (Some (10 * match acc with Some a => a | None => 0 end
                 + Z.of_N (c - 48))%Z)
      else acc
  | [] => acc
  end.

(** [parseInt(s, 10)]: leading white space, an optional sign, then the
    longest run of decimal digits; [None] is [NaN]. *)
Definition parseInt (s : jstring) : option Z :=
  match skip_space s with
  | 45 :: t => option_map Z.opp (leading_digits t None)
  | 43 :: t => leading_digits t None
  | t => leading_digits t None
  end.

(** [s.slice(-1)]: the last code unit, or the empty string. *)
Definition last_unit (s : jstring) : jstring := drop (length s - 1) s.

(** [s.slice(1, -1)]: without the first and the last code unit. *)
Definition inner_units (s : jstring) : jstring := take (length s - 2) (drop 1 s).

(** [s.indexOf(c)] for a code unit [c]; [None] is [-1]. *)
Fixpoint index_of (c : N) (s : jstring) : option nat :=
  match s with
  | [] => None
  | x :: t => if N.eqb x c then Some O else option_map S (index_of c t)
  end.

(** [s.includes(c)] for a code unit. *)
Definition includes_unit (c : N) (s : jstring) : bool := existsb (N.eqb c) s.

End JS.

(** ** Regular expressions

    The subset of ECMAScript patterns that the modelled methods use, with the
    matcher of the language specification: a pattern is compiled to a function
    from a match state and a continuation to a match result, alternatives and
    quantifiers backtrack through the continuation. *)

Module RegExp.
Import JS.

(** Pattern syntax.  A non-capturing group [(?:a)] is [a] itself; a literal, a
    class, a negated class and the dot are all [Char] with the matching
    predicate on code units. *)
Inductive re : Type :=
| Empty
| Char (p : N -> bool)
| Bol
| Seq (a b : re)
| Alt (a b : re)
| Rep (lo : nat) (hi : option nat) (a : re)
| Group (n : nat) (a : re)
| NotAhead (a : re).

(** Match state: the index reached, the input that remains from there, and
    the captures ([None] is [undefined]); group [n] is stored at index
    [n - 1]. *)
Record mstate : Type := MState {
  pos : nat;
  rest : jstring;
  caps : list (option jstring)
}.

Definition cont : Type := mstate -> option mstate.

Definition set_cap (n : nat) (v : option jstring) (x : mstate) : mstate :=
  MState (pos x) (rest x) (<[Nat.pred n := v]> (caps x)).

Definition clear_caps (gs : list nat) (x : mstate) : mstate :=
  fold_right (fun g y => set_cap g None y) x gs.

(** The capturing groups inside a pattern (those a quantifier resets). *)
Fixpoint groups (r : re) : list nat :=
  match r with
  | Empty | Char _ | Bol => []
  | Seq a b | Alt a b => groups a ++ groups b
  | Rep _ _ a | NotAhead a => groups a
  | Group n a => n :: groups a
  end.

Definition hi_zero (hi : option nat) : bool :=
  match hi with Some O => true | _ => false end.

Definition hi_pred (hi : option nat) : option nat :=
  match hi with Some h => Some (Nat.pred h) | None => None end.

(** RepeatMatcher for a greedy quantifier [{lo,hi}] over the matcher [m] of
    its atom.  An iteration that is not required ([lo = 0]) and consumes
    nothing is rejected, so at most [lo] iterations can leave the index
    where it is: [S (lo + length (rest x))] unfoldings always suffice, which
    is the [fuel] that [run] passes. *)
Fixpoint rep (m : mstate -> cont -> option mstate) (gs : list nat)
    (fuel lo : nat) (hi : option nat) (x : mstate) (k : cont) : option mstate :=
  match fuel with
  | O => None
  | S fuel' =>
      if hi_zero hi then k x
      else
        let d : cont := fun y =>
          if Nat.eqb lo 0 && Nat.eqb (pos y) (pos x) then None
          else rep m gs fuel' (Nat.pred lo) (hi_pred hi) y k in
        let xr := clear_caps gs x in
        if Nat.eqb lo 0 then
          match m xr d with
          | Some z => Some z
          | None => k x
          end
        else m xr d
  end.

(** The matcher of a pattern. *)
Fixpoint run (r : re) (x : mstate) (k : cont) : option mstate :=
  match r with
  | Empty => k x
  | Char p =>
      match rest x with
      | c :: t => if p c then k (MState (S (pos x)) t (caps x)) else None
      | [] => None
      end
  | Bol => if Nat.eqb (pos x) 0 then k x else None
  | Seq a b => run a x (fun y => run b y k)
  | Alt a b =>
      match run a x k with
      | Some z => Some z
      | None => run b x k
      end
  | Rep lo hi a =>
      rep (run a) (groups a) (S (lo + length (rest x))) lo hi x k
  | Group n a =>
      run a x (fun y =>
        k (set_cap n (Some (take (pos y - pos x) (rest x))) y))
  | NotAhead a =>
      match run a x Some with
      | Some _ => None
      | None => k x
      end
  end.

(** A compiled regular expression: the pattern and its number of groups. *)
Record regexp : Type := RegExpOf { pattern : re; ngroups : nat }.

Definition start (r : regexp) (i : nat) (s : jstring) : mstate :=
  MState i s (replicate (ngroups r) None).

(** A match at exactly index [i], where [s] is the input from [i] on. *)
Definition match_at (r : regexp) (i : nat) (s : jstring) : option mstate :=
  run (pattern r) (start r i s) Some.

(** RegExpBuiltinExec without the sticky flag: the first index from [i] on
    at which the pattern matches, the end of the input included. *)
Fixpoint search (r : regexp) (i : nat) (s : jstring) : option (nat * mstate) :=
  match match_at r i s with
  | Some y => Some (i, y)
  | None =>
      match s with
      | [] => None
      | _ :: t => search r (S i) t
      end
  end.

(** [RegExp.prototype.test] on a regular expression without the global flag. *)
Definition test (r : regexp) (s : jstring) : bool :=
  match search r 0 s with Some _ => true | None => false end.

(** What a replacement sees of one match. *)
Record minfo : Type := MInfo {
  m_index : nat;
  m_text : jstring;
  m_caps : list (option jstring);
  m_input : jstring
}.

Definition digit_val (c : N) : option nat :=
  if (48 <=? c) && (c <=? 57) then Some (N.to_nat (c - 48)) else None.

Definition cap_text (m : minfo) (n : nat) : jstring :=
  match m_caps m !! Nat.pred n with
  | Some (Some t) => t
  | _ => []
  end.

(** GetSubstitution: the expansion of a replacement string.  [$$], [$&],
    [$`], [$'], [$n] and [$nn] are replaced; a group number that is 0 or
    larger than the number of groups leaves the text as it is. *)
Fixpoint substitution (m : minfo) (t : jstring) : jstring :=
  match t with
  | [] => []
  | 36 :: t1 =>
      match t1 with
      | 36 :: t2 => 36 :: substitution m t2
      | 38 :: t2 => m_text m ++ substitution m t2
      | 96 :: t2 => take (m_index m) (m_input m) ++ substitution m t2
      | 39 :: t2 =>
          drop (m_index m + length (m_text m)) (m_input m) ++ substitution m t2
      | d1 :: t2 =>
          match digit_val d1 with
          | None => 36 :: substitution m t1
          | Some v1 =>
              let one :=
                if Nat.leb 1 v1 && Nat.leb v1 (length (m_caps m))
                then cap_text m v1 ++ substitution m t2
                else 36 :: d1 :: substitution m t2 in
              match t2 with
              | d2 :: t3 =>
                  match digit_val d2 with
                  | Some v2 =>
                      let v := (10 * v1 + v2)%nat in
                      if Nat.leb 1 v && Nat.leb v (length (m_caps m))
                      then cap_text m v ++ substitution m t3
                      else one
                  | None => one
                  end
              | [] => one
              end
          end
      | [] => [36]
      end
  | c :: t1 => c :: substitution m t1
  end.

Definition info_of (input : jstring) (i : nat) (from : jstring) (y : mstate) : minfo :=
  MInfo i (take (pos y - i) from) (caps y) input.

(** The matches of a global regular expression, as [replace] collects them
    before it builds its result: each match with the text skipped since the
    previous one, and the text left after the last.  [i] is the index at
    which the next search starts and [s] the input from there.  After an
    empty match the search resumes one code unit further on.  Every round
    moves on by at least one code unit, so [fuel] above the length of the
    input is never used up. *)
Definition skip_unit (c : N) (r : list (jstring * minfo) * jstring)
    : list (jstring * minfo) * jstring :=
  match r with
  | ([], tl) => ([], c :: tl)
  | ((pre, m) :: ms, tl) => ((c :: pre, m) :: ms, tl)
  end.

Fixpoint match_all_from (fuel : nat) (r : regexp) (input : jstring)
    (i : nat) (s : jstring) : list (jstring * minfo) * jstring :=
  match fuel with
  | O => ([], s)
  | S fuel' =>
      match search r i s with
      | None => ([], s)
      | Some (p, y) =>
          let from := drop (p - i) s in
          let here := (take (p - i) s, info_of input p from y) in
          let '(ms, tl) :=
            if Nat.eqb (pos y) p then
              match from with
              | [] => ([], [])
              | c :: t => skip_unit c (match_all_from fuel' r input (S p) t)
              end
            else match_all_from fuel' r input (pos y) (rest y) in
          (here :: ms, tl)
      end
  end.

Definition match_all (r : regexp) (s : jstring) : list (jstring * minfo) * jstring :=
  match_all_from (S (length s)) r s 0 s.

(** [String.prototype.replace] with a global regular expression and a
    replacer function without effects. *)
Definition replace_fn (r : regexp) (f : minfo -> jstring) (s : jstring) : jstring :=
  let '(ms, tl) := match_all r s in
  concat (map (fun pm => fst pm ++ f (snd pm)) ms) ++ tl.

(** The same with a replacement string. *)
Definition replace (r : regexp) (t : jstring) (s : jstring) : jstring :=
  replace_fn r (fun m => substitution m t) s.

(** [String.prototype.split] with a regular expression and no limit: the
    pieces between the matches, with the captures of every match (the
    [undefined] ones too) spliced in after the piece that precedes it. *)
Fixpoint split_from (fuel : nat) (r : regexp) (s : jstring) (p q : nat)
    : list (option jstring) :=
  match fuel with
  | O => []
  | S fuel' =>
      if Nat.leb (length s) q then [Some (drop p s)]
      else
        match match_at r q (drop q s) with
        | None => split_from fuel' r s p (S q)
        | Some y =>
            let e := Nat.min (pos y) (length s) in
            if Nat.eqb e p then split_from fuel' r s p (S q)
            else Some (take (q - p) (drop p s)) :: caps y
                   ++ split_from fuel' r s e e
        end
  end.

Definition split (r : regexp) (s : jstring) : list (option jstring) :=
  match s with
  | [] => match match_at r 0 [] with Some _ => [] | None => [Some []] end
  | _ => split_from (2 * length s + 2) r s 0 0
  end.

(** *** Character predicates *)

Definition chr (c : N) : N -> bool := fun x => N.eqb x c.
Definition between (lo hi : N) : N -> bool := fun x => (lo <=? x) && (x <=? hi).
Definition either (p q : N -> bool) : N -> bool := fun x => p x || q x.
Definition none_of (p : N -> bool) : N -> bool := fun x => negb (p x).
Definition one_of (cs : list N) : N -> bool := fun x => existsb (N.eqb x) cs.

(** Line terminators: what the dot does not match without the [s] flag. *)
Definition line_terminator : N -> bool := one_of [10; 13; 8232; 8233].
Definition dot : N -> bool := none_of line_terminator.
Definition digit : N -> bool := between 48 57.

(** A class [p] of ASCII members under the [i] flag (without [u]).
    Canonicalize maps a lower-case ASCII letter to its upper-case letter,
    leaves every other ASCII code unit alone and never maps a code unit
    above 127 to an ASCII one: [x] meets the class when [x] itself, or the
    letter of the other case, is a member. *)
Definition ignore_case (p : N -> bool) : N -> bool :=
  fun x =>
    (x <? 128)
    && (p x
        || (if between 97 122 x then p (x - 32) else false)
        || (if between 65 90 x then p (x + 32) else false)).

Definition opt (a : re) : re := Rep 0 (Some 1%nat) a.
Definition star (a : re) : re := Rep 0 None a.
Definition plus (a : re) : re := Rep 1 None a.

Fixpoint seqs (l : list re) : re :=
  match l with
  | [] => Empty
  | [a] => a
  | a :: t => Seq a (seqs t)
  end.

Fixpoint alts (l : list re) : re :=
  match l with
  | [] => Empty
  | [a] => a
  | a :: t => Alt a (alts t)
  end.

End RegExp.

(** ** The class [Wpdb] *)

Module Wpdb.
Import JS RegExp.

(** *** Instance, process and host *)

(** What [console.warn] and [console.error] are called with, by call site,
    with the data the message interpolates. *)
Inductive diagnostic : Type :=
| NoPlaceholder
| DualUse
| Conflicts (found : list jstring)
| ArrayForOnePlaceholder
| WrongPlaceholderCount (splitQueryCount argsCount : nat)
| UnsupportedValueType
| Fatal (message : jstring)
| DatabaseNotAvailable.

(** The database handle [dbh]: [null], or a connection. *)
Inductive handle : Type :=
| NoHandle
| Connection.

(** A row of [SHOW FULL COLUMNS]: the properties the class reads. *)
Record column : Type := Column {
  Field : jstring;
  Collation : option jstring;
  Type_ : jstring
}.

(** The fields of an instance that the modelled methods read or write, with
    the types their declarations document.  [tables] is the field of line
    207 (an array of names): an own property of every instance, it hides the
    method [tables] of line 773, which lives on the prototype. *)
Record instance : Type := Instance {
  allowUnsafeUnquotedParameters : bool;
  _placeholder : option jstring;
  basePrefix : jstring;
  prefix : jstring;
  blogId : Z;
  tables : list jstring;
  reconnectRetries : Z;
  dbh : handle;
  dbHost : jstring;
  showErrors : bool;
  isMySQL : bool;
  insertId : Z;
  lastError : jstring;
  error : option jstring;
  fieldTypes : gmap jstring jstring;
  tableCharset : gmap jstring jsval;
  colMeta : gmap jstring (list (jstring * column));
  ready : bool
}.

(** The instance that the field initialisers of the class produce. *)
Definition fresh : instance := {|
  allowUnsafeUnquotedParameters := true;
  _placeholder := None;
  basePrefix := [];
  prefix := [];
  blogId := 0;
  tables := map lit ["posts"; "comments"; "links"; "options"; "postmeta";
                     "terms"; "term_taxonomy"; "term_relationships";
                     "termmeta"; "commentmeta"]%string;
  reconnectRetries := 5;
  dbh := NoHandle;
  dbHost := [];
  showErrors := false;
  isMySQL := false;
  insertId := 0;
  lastError := [];
  error := None;
  fieldTypes := ∅;
  tableCharset := ∅;
  colMeta := ∅;
  ready := false
|}.

Definition set_placeholder (v : option jstring) (i : instance) : instance :=
  let 'Instance a _ c d e f g h j k l m n o p q r t := i in
  Instance a v c d e f g h j k l m n o p q r t.
Definition set_basePrefix (v : jstring) (i : instance) : instance :=
  let 'Instance a b _ d e f g h j k l m n o p q r t := i in
  Instance a b v d e f g h j k l m n o p q r t.
Definition set_dbh (v : handle) (i : instance) : instance :=
  let 'Instance a b c d e f g _ j k l m n o p q r t := i in
  Instance a b c d e f g v j k l m n o p q r t.
Definition set_isMySQL (v : bool) (i : instance) : instance :=
  let 'Instance a b c d e f g h j k _ m n o p q r t := i in
  Instance a b c d e f g h j k v m n o p q r t.
Definition set_insertId (v : Z) (i : instance) : instance :=
  let 'Instance a b c d e f g h j k l _ n o p q r t := i in
  Instance a b c d e f g h j k l v n o p q r t.
Definition set_lastError (v : jstring) (i : instance) : instance :=
  let 'Instance a b c d e f g h j k l m _ o p q r t := i in
  Instance a b c d e f g h j k l m v o p q r t.
Definition set_error (v : option jstring) (i : instance) : instance :=
  let 'Instance a b c d e f g h j k l m n _ p q r t := i in
  Instance a b c d e f g h j k l m n v p q r t.

Definition set_tableCharset (v : gmap jstring jsval) (i : instance) : instance :=
  let 'Instance a b c d e f g h j k l m n o p _ r t := i in
  Instance a b c d e f g h j k l m n o p v r t.
Definition set_colMeta (v : gmap jstring (list (jstring * column)))
    (i : instance) : instance :=
  let 'Instance a b c d e f g h j k l m n o p q _ t := i in
  Instance a b c d e f g h j k l m n o p q v t.

(** How one call of [dbConnect] ends on the side of the driver:
    [createConnection] rejects, or it resolves and [dbh.connect] rejects, or
    both resolve. *)
Inductive attempt : Type :=
| CreateRejected
| ConnectRejected
| Connected.

(** What the server answers to the probe [DO 1]: rows, no row, or the query
    is rejected. *)
Inductive probe : Type :=
| ProbeRows
| ProbeEmpty
| ProbeRejected.

(** The process around the instance: the environment variables, what was
    written to the console, the timers awaited (milliseconds), the SQL
    handed to the driver, the answer to a probe, the number of connection
    attempts made so far and the outcome of the [n]-th attempt. *)
Record process : Type := Process {
  env : gmap string jstring;
  console : list diagnostic;
  delays : list Z;
  sent : list jstring;
  probe_answer : probe;
  connects : nat;
  outcome : nat -> attempt
}.

Record state : Type := State { this : instance; proc : process }.

Definition set_env (v : gmap string jstring) (p : process) : process :=
  Process v (console p) (delays p) (sent p) (probe_answer p) (connects p) (outcome p).
Definition set_console (v : list diagnostic) (p : process) : process :=
  Process (env p) v (delays p) (sent p) (probe_answer p) (connects p) (outcome p).
Definition set_delays (v : list Z) (p : process) : process :=
  Process (env p) (console p) v (sent p) (probe_answer p) (connects p) (outcome p).
Definition set_sent (v : list jstring) (p : process) : process :=
  Process (env p) (console p) (delays p) v (probe_answer p) (connects p) (outcome p).
Definition set_connects (v : nat) (p : process) : process :=
  Process (env p) (console p) (delays p) (sent p) (probe_answer p) v (outcome p).

(** A [process.env] entry in a condition: set and not the empty string. *)
Definition env_set (p : process) (name : string) : bool :=
  match env p !! name with
  | Some (_ :: _) => true
  | _ => false
  end.

(** What the methods take from outside the repository: [realEscape], whose
    body is cut off in the source after [data.replace(], the digest that
    [placeholderEscape] computes from the clock and a salt, and built-ins
    of the language whose tables are not modelled: [parseFloat], the
    conversion of an environment entry to a 32-bit integer (as the
    operator [&] performs it), and the Unicode case mappings. *)
Record host : Type := Host {
  realEscape : jstring -> jstring;
  digest : jstring;
  parseFloat : jsval -> jsval;
  toInt32 : option jstring -> Z;
  toLowerCase : jstring -> jstring;
  toUpperCase : jstring -> jstring
}.

(** State and exception monad of the methods. *)
Definition M (A : Type) : Type := state -> completion A * state.

#[export] Instance M_ret : MRet M := fun A a st => (Normal a, st).
#[export] Instance M_bind : MBind M := fun A B k c st =>
  match c st with
  | (Normal a, st') => k a st'
  | (Throw e, st') => (Throw e, st')
  end.

Definition throw {A} (e : jserror) : M A := fun st => (Throw e, st).
Definition lift {A} (c : completion A) : M A := fun st => (c, st).
Definition get_this : M instance := fun st => (Normal (this st), st).
Definition get_proc : M process := fun st => (Normal (proc st), st).
Definition put_this (i : instance) : M unit :=
  fun st => (Normal tt, State i (proc st)).
Definition put_proc (p : process) : M unit :=
  fun st => (Normal tt, State (this st) p).

(** [console.warn] / [console.error]. *)
Definition warn (d : diagnostic) : M unit :=
  fun st =>
    (Normal tt, State (this st) (set_console (console (proc st) ++ [d]) (proc st))).

(** *** Escaping helpers (fragment [part_000]) *)

Definition c (s : string) : re := Char (chr (cu s)).

(** [escapeIdentifierValue]: [identifier.replace(/`/g, '``')].  A value that
    is not a string has no [replace] method. *)
Definition escapeIdentifierValue (identifier : jsval) : completion jstring :=
  match identifier with
  | VStr s => Normal (replace (RegExpOf (c "`") 0) (lit "``") s)
  | _ => Throw TypeError
  end.

(** [quoteIdentifier]. *)
Definition quoteIdentifier (identifier : jsval) : completion jstring :=
  match escapeIdentifierValue identifier with
  | Normal s => Normal (lit "`" ++ s ++ lit "`")
  | Throw e => Throw e
  end.

(** [realEscape(data)] starts with [data.replace(]: on [null] it throws, on
    a string it is the host's function. *)
Definition realEscape_call (h : host) (data : jsval) : completion jstring :=
  match data with
  | VStr s => Normal (realEscape h s)
  | _ => Throw TypeError
  end.

(** *** [placeholderEscape], [addPlaceholderEscape] (lines 1607-1626) *)

Definition placeholderEscape (h : host) : M jstring :=
  i ← get_this;
  match _placeholder i with
  | Some (u :: t) => mret (u :: t)
  | _ =>
      let token := lit "{" ++ digest h ++ lit "}" in
      put_this (set_placeholder (Some token) i);; mret token
  end.

Definition addPlaceholderEscape (h : host) (query : jstring) : M jstring :=
  token ← placeholderEscape h;
  mret (replace (RegExpOf (c "%") 0) token query).

(** *** [prepare], the first definition (lines 876-892)

    The class body defines [prepare] twice; a later method definition
    replaces an earlier one of the same name, so a call of [prepare] never
    runs this one. *)

Fixpoint prepare_shadowed_fill (h : host) (ms : list (jstring * minfo))
    (args : list jsval) : completion jstring :=
  match ms with
  | [] => Normal []
  | (pre, m) :: ms' =>
      let arg := match args with a :: _ => a | [] => VUndef end in
      let piece : completion jstring :=
        if jstring_eqb (m_text m) (lit "%d") then
          Normal (to_string (match parseInt (to_string arg) with
                             | Some n => VNum n
                             | None => VNaN
                             end))
        else if jstring_eqb (m_text m) (lit "%f") then
          Normal (to_string (parseFloat h arg))
        else if jstring_eqb (m_text m) (lit "%s") then
          Normal (lit "'"
                  ++ replace (RegExpOf (c "'") 0) (lit "''") (to_string arg)
                  ++ lit "'")
        else if jstring_eqb (m_text m) (lit "%i") then quoteIdentifier arg
        else Normal (m_text m) in
      match piece, prepare_shadowed_fill h ms' (tl args) with
      | Normal x, Normal y => Normal (pre ++ x ++ y)
      | Throw e, _ => Throw e
      | _, Throw e => Throw e
      end
  end.

Definition prepare_shadowed (h : host) (query : jstring) (args : list jsval)
    : completion jstring :=
  let '(ms, rest) :=
    match_all (RegExpOf (Seq (c "%") (Char (one_of (lit "dfsi")))) 0) query in
  match prepare_shadowed_fill h ms args with
  | Normal x => Normal (x ++ rest)
  | Throw e => Throw e
  end.

(** *** [prepare], the definition in force (lines 903-1106) *)

(** Line 926.  The string literal's [\'] and [\.] are the characters ['] and
    [.], so the pattern text handed to [RegExp] is
    [(?:[1-9][0-9]*[$])?[-+0-9]*(?: |0|'.)?[-+0-9]*(?:.[0-9]+)?]. *)
Definition sign_or_digit : N -> bool := either (one_of (lit "-+")) digit.

Definition allowedFormat : re :=
  seqs [ opt (seqs [Char (between 49 57); star (Char digit); c "$"]);
         star (Char sign_or_digit);
         opt (alts [c " "; c "0"; Seq (c "'") (Char dot)]);
         star (Char sign_or_digit);
         opt (Seq (Char dot) (plus (Char digit))) ].

Definition conversion : re := Char (one_of (lit "sdfFi")).

(** Lines 929-930: [/'%([^']+)%'/g] and [/"%([^']+)%"/g], by the code unit
    of the quote (39 and 34). *)
Definition quoted_percent (quote : N) : regexp :=
  RegExpOf (seqs [Char (chr quote); c "%";
                  Group 1 (plus (Char (none_of (chr (cu "'")))));
                  c "%"; Char (chr quote)]) 1.

(** Line 933: [%(?!(allowedFormat)?[sdfFi])], global. *)
Definition stray_percent : regexp :=
  RegExpOf (Seq (c "%")
              (NotAhead (Seq (opt (Group 1 allowedFormat)) conversion))) 1.

(** Line 936: [(^|[^%]|(?:%%)+)(%(allowedFormat)?[sdfFi])], three groups. *)
Definition placeholder_split : regexp :=
  RegExpOf (Seq (Group 1 (alts [Bol; Char (none_of (chr (cu "%")));
                                plus (Seq (c "%") (c "%"))]))
              (Group 2 (seqs [c "%"; opt (Group 3 allowedFormat); conversion])))
    3.

(** Line 1104: [/%(?!^\d+\$)/g]. *)
Definition percent_sign : regexp :=
  RegExpOf (Seq (c "%") (NotAhead (seqs [Bol; plus (Char digit); c "$"]))) 0.

(** [a[i]] of an array of strings and [undefined]s. *)
Definition elt (a : list (option jstring)) (i : nat) : option jstring :=
  match a !! i with
  | Some v => v
  | None => None
  end.

(** [a + b] for two such elements: concatenation once one is a string. *)
Definition elt_plus (a b : option jstring) : jsval :=
  match a, b with
  | Some x, Some y => VStr (x ++ y)
  | Some x, None => VStr (x ++ lit "undefined")
  | None, Some y => VStr (lit "undefined" ++ y)
  | None, None => VNaN
  end.

(** The argument position of a placeholder (lines 986-993, 996-1002): the
    number before [$] less one, or the running [argID]. *)
Definition arg_position (format : jstring) (argID : nat) : option Z :=
  match index_of (cu "$") format with
  | Some at_ => option_map (fun n => (n - 1)%Z) (parseInt (take at_ format))
  | None => Some (Z.of_nat argID)
  end.

Record rewritten : Type := Rewritten {
  newQuery : jstring;
  argIdentifiers : list (option Z);
  argStrings : list (option Z)
}.

(** One round of the loop of lines 955-1015. *)
Definition rewrite_step (unsafe : bool) (splitQuery : list (option jstring))
    (key argID : nat) (acc : rewritten) : completion rewritten :=
  match elt splitQuery key with
  | None => Throw TypeError (* line 958: [placeholder.slice] of [undefined] *)
  | Some placeholder =>
      let format := inner_units placeholder in
      let type := last_unit placeholder in
      let glue :=
        to_string (elt_plus (elt splitQuery (key - 2)) (elt splitQuery (key - 1))) in
      let emit (placeholder' : jstring) (ids strs : list (option Z)) :=
        Normal (Rewritten (newQuery acc ++ glue ++ placeholder') ids strs) in
      let otherwise : completion rewritten :=
        if jstring_eqb type (lit "f") then
          Throw TypeError (* line 980: assignment to the constant [type] *)
        else if jstring_eqb type (lit "i") then
          emit (lit "`%${format}s`")
            (argIdentifiers acc ++ [arg_position format argID])
            (argStrings acc)
        else if negb (jstring_eqb type (lit "d"))
                && negb (jstring_eqb type (lit "F")) then
          let strs := argStrings acc ++ [arg_position format argID] in
          let quoted := lit "'%" ++ format ++ lit "s'" in
          if negb unsafe then emit quoted (argIdentifiers acc) strs
          else if jstring_eqb format [] then
            match elt splitQuery (key - 1) with
            | None => Throw TypeError (* line 1005: [.slice] of [undefined] *)
            | Some before =>
                if negb (jstring_eqb (last_unit before) (lit "%"))
                then emit quoted (argIdentifiers acc) strs
                else emit placeholder (argIdentifiers acc) strs
            end
          else emit placeholder (argIdentifiers acc) strs
        else emit placeholder (argIdentifiers acc) (argStrings acc) in
      if jstring_eqb type (lit "f") && unsafe then
        match elt splitQuery (key - 1) with
        | None => Throw TypeError (* line 963: [.slice] of [undefined] *)
        | Some before =>
            if jstring_eqb (last_unit before) (lit "%")
            then Throw TypeError
                 (* line 976: [--placeholderCount] on a constant *)
            else otherwise
        end
      else otherwise
  end.

(** The loop of lines 955-1015: [key] runs over 2, 5, 8, ... below
    [splitQueryCount]; the result carries the [key] at which it stops. *)
Fixpoint rewrite_loop (fuel : nat) (unsafe : bool)
    (splitQuery : list (option jstring)) (key argID : nat) (acc : rewritten)
    : completion (rewritten * nat) :=
  match fuel with
  | O => Normal (acc, key)
  | S fuel' =>
      if Nat.ltb key (length splitQuery) then
        match rewrite_step unsafe splitQuery key argID acc with
        | Normal acc' =>
            rewrite_loop fuel' unsafe splitQuery (key + 3) (S argID) acc'
        | Throw e => Throw e
        end
      else Normal (acc, key)
  end.

(** Lines 1073-1080: the largest number that [parseInt] reads at the start
    of the entries 2, 5, 8, ... after their first code unit. *)
Fixpoint max_numbered (fuel : nat) (splitQuery : list (option jstring))
    (i : nat) (best : Z) : completion Z :=
  match fuel with
  | O => Normal best
  | S fuel' =>
      if Nat.ltb i (length splitQuery) then
        match elt splitQuery i with
        | None => Throw TypeError (* line 1076: [.slice] of [undefined] *)
        | Some e =>
            let best' :=
              match parseInt (drop 1 e) with
              | Some argnum => if (best <? argnum)%Z then argnum else best
              | None => best
              end in
            max_numbered fuel' splitQuery (i + 3) best'
        end
      else Normal best
  end.

(** Lines 1090-1102: the escaped form of every argument. *)
Fixpoint escape_args (h : host) (ids : list (option Z)) (args : list jsval)
    (i : nat) : M (list jsval) :=
  match args with
  | [] => mret []
  | value :: more =>
      escaped ←
        (if bool_decide (Some (Z.of_nat i) ∈ ids) then
           s ← lift (escapeIdentifierValue value); mret (VStr s)
         else
           match value with
           | VNum _ | VNaN => mret value
           | VStr _ | VNull =>
               s ← lift (realEscape_call h value); mret (VStr s)
           | _ =>
               warn UnsupportedValueType;;
               s ← lift (realEscape_call h (VStr [])); mret (VStr s)
           end);
      others ← escape_args h ids more (S i);
      mret (escaped :: others)
  end.

(** Line 1104: every match takes the next escaped argument, or the empty
    string when that is missing or falsy. *)
Fixpoint fill (ms : list (jstring * minfo)) (argsEscaped : list jsval) : jstring :=
  match ms with
  | [] => []
  | (pre, _) :: ms' =>
      let text :=
        match argsEscaped with
        | v :: _ => if truthy v then to_string v else []
        | [] => []
        end in
      pre ++ text ++ fill ms' (tl argsEscaped)
  end.

(** [prepare(query, ...args)] for a string [query].  The result is a string,
    [null], or (for a query without [%]) the query itself. *)
Definition prepare (h : host) (query : jstring) (args : list jsval) : M jsval :=
  if negb (includes_unit (cu "%") query) then
    warn NoPlaceholder;; mret (VStr query)
  else
    let query := replace (quoted_percent 39) (lit "%$1%") query in
    let query := replace (quoted_percent 34) (lit "%$1%") query in
    let query := replace stray_percent (lit "%%$1") query in
    let splitQuery := split placeholder_split query in
    let splitQueryCount := length splitQuery in
    (* placeholderCount is (splitQueryCount - 1) / 3, compared below by
       cross-multiplication *)
    let passedAsArray :=
      match args with [VArr _] => true | _ => false end in
    let args := match args with [VArr l] => l | _ => args end in
    i ← get_this;
    '(r, key) ← lift (rewrite_loop splitQueryCount
                        (allowUnsafeUnquotedParameters i) splitQuery 2 0
                        (Rewritten [] [] []));
    let query := newQuery r ++ to_string
                   (match elt splitQuery (key - 2) with
                    | Some t => VStr t
                    | None => VUndef
                    end) in
    let dualUse :=
      filter (fun item => item ∈ argStrings r) (argIdentifiers r) in
    match dualUse with
    | _ :: _ =>
        warn DualUse;;
        if Nat.ltb 2 splitQueryCount then
          throw ReferenceError (* line 1031: [placeholder] is not declared *)
        else
          throw TypeError (* line 1053: [usedPlaceholders] has no entry *)
    | [] =>
        let argsCount := length args in
        early ←
          (if negb (Nat.eqb (3 * argsCount) (splitQueryCount - 1)) then
             if Nat.eqb splitQueryCount 4 && passedAsArray then
               warn ArrayForOnePlaceholder;; mret (Some VNull)
             else
               warn (WrongPlaceholderCount splitQueryCount argsCount);;
               if Nat.ltb (3 * argsCount) (splitQueryCount - 1) then
                 maxNumberedPlaceholder ←
                   lift (max_numbered splitQueryCount splitQuery 2 0);
                 if Z.eqb maxNumberedPlaceholder 0
                    || (Z.of_nat argsCount <? maxNumberedPlaceholder)%Z
                 then mret (Some (VStr []))
                 else mret None
               else mret None
           else mret None);
        match early with
        | Some v => mret v
        | None =>
            argsEscaped ← escape_args h (argIdentifiers r) args 0;
            let '(ms, tail) := match_all percent_sign query in
            q ← addPlaceholderEscape h (fill ms argsEscaped ++ tail);
            mret (VStr q)
        end
    end.

(** [prepare] on a state: the completion and the console afterwards. *)
Definition run_prepare (h : host) (st : state) (query : jstring)
    (args : list jsval) : completion jsval * list diagnostic :=
  let '(r, st') := prepare h query args st in (r, console (proc st')).

(** A process with nothing set and nothing logged, in which the server is
    gone: every connection attempt ends as [o]. *)
Definition quiet (o : attempt) : process :=
  Process ∅ [] [] [] ProbeRejected 0 (fun _ => o).

(** *** Table prefixes (lines 668-753) *)

(** [getBlogPrefix(blogId = null)]: reads the instance and the environment
    and changes neither.  [None] is the omitted (or [null]) argument. *)
Definition getBlogPrefix (st : state) (blogId : option Z) : jstring :=
  if env_set (proc st) "IS_MULTISITE" then
    let blogId :=
      match blogId with
      | None => Wpdb.blogId (this st)
      | Some b => b
      end in
    if env_set (proc st) "MULTISITE" && (Z.eqb blogId 0 || Z.eqb blogId 1)
    then basePrefix (this st)
    else basePrefix (this st) ++ num_to_string blogId ++ lit "_"
  else basePrefix (this st).

(** Line 669: [/[^a-z0-9_]/i]. *)
Definition invalid_prefix_unit : regexp :=
  RegExpOf
    (Char (none_of (ignore_case
       (either (between 97 122) (either (between 48 57) (chr 95)))))) 0.

Definition invalid_prefix : jsval := VError (lit "Invalid database prefix").

(** [setPrefix(prefix, setTableNames = true)].  With [setTableNames] the
    next step after storing the prefix is the call [this.tables('global')]
    of line 682; [this.tables] is the array of line 207, so the call throws
    and lines 683-699 do not run. *)
Definition setPrefix (prefix : jstring) (setTableNames : bool) : M jsval :=
  if test invalid_prefix_unit prefix then mret invalid_prefix
  else
    i ← get_this;
    p ← get_proc;
    let oldPrefix := if env_set p "IS_MULTISITE" then [] else prefix in
    let oldPrefix :=
      match basePrefix i with
      | _ :: _ => basePrefix i
      | [] => oldPrefix
      end in
    put_this (set_basePrefix prefix i);;
    if setTableNames then throw TypeError
    else mret (VStr oldPrefix).

(** *** Connection (lines 1252-1441, 2747-2763) *)

(** [bail(message, errorCode)].  With [showErrors], line 2749 reads
    [this.dbh.connectionError] when [dbh] is [null], which throws; otherwise
    the message goes to the console and the process exits.  Without it the
    message is stored ([global.WPError] is not defined in the repository)
    and [false] returned. *)
Definition bail (message : jstring) : M jsval :=
  i ← get_this;
  if showErrors i then
    match dbh i with
    | NoHandle => throw TypeError
    | Connection => warn (Fatal message);; throw (ProcessExit 1)
    end
  else
    put_this (set_error (Some message) i);; mret (VBool false).

(** [dbConnect(allowBail)], the definition in force (line 1252; it replaces
    the empty one of line 554).  The outcome of the attempt is the next one
    of the process.  With [allowBail = false], which is how
    [checkConnection] calls it, a rejected [createConnection] is thrown on
    (line 1271), a rejected [dbh.connect] gives [false] (line 1333), and
    after a successful connection the function ends without a [return]. *)
Definition dbConnect_false : M jsval :=
  i ← get_this;
  p ← get_proc;
  put_this (set_isMySQL true i);;
  put_proc (set_connects (S (connects p)) p);;
  match outcome p (connects p) with
  | CreateRejected => throw DriverError
  | ConnectRejected =>
      i ← get_this;
      put_this (set_dbh NoHandle i);; mret (VBool false)
  | Connected =>
      i ← get_this;
      put_this (set_dbh Connection i);; mret VUndef
  end.

(** Line 1417: a timer of 1000 milliseconds, awaited. *)
Definition sleep (ms : Z) : M unit :=
  p ← get_proc; put_proc (set_delays (delays p ++ [ms]) p).

(** The loop of lines 1403-1418; [left] rounds remain.  [originalErrorReporting]
    is declared inside the block of line 1398 and is not in scope here:
    reading it (lines 1406, 1410) throws. *)
Fixpoint reconnect_loop (left : nat) (tries : Z) : M (option jsval) :=
  match left with
  | O => mret None
  | S left' =>
      i ← get_this;
      p ← get_proc;
      (if Z.eqb (reconnectRetries i) tries && env_set p "WP_DEBUG"
       then throw ReferenceError else mret tt);;
      r ← dbConnect_false;
      if truthy r then throw ReferenceError
      else sleep 1000;; reconnect_loop left' (tries + 1)%Z
  end.

Definition reconnect_message (dbHost : jstring) : jstring :=
  lit "<h1>Error reconnecting to the database</h1>"
  ++ lit "<p>This means that the contact with the database server at <code>"
  ++ dbHost
  ++ lit "</code> was lost. This could mean your host's database server is down.</p>"
  ++ lit "<ul><li>Are you sure the database server is running?</li>"
  ++ lit "<li>Are you sure the database server is not under particularly heavy load?</li></ul>"
  ++ lit "<p>If you are unsure what these terms mean you should probably contact your host. If you still need help you can always visit the <a href="
  ++ [34] ++ lit "https://wordpress.org/support/forums/" ++ [34]
  ++ lit ">WordPress support forums</a>.</p>".

(** [checkConnection(allowBail = true)]: the value the returned promise is
    fulfilled with, or what it is rejected with. *)
Definition checkConnection (h : host) (allowBail : bool) : M jsval :=
  i ← get_this;
  p ← get_proc;
  alive ←
    match dbh i with
    | NoHandle => mret false
    | Connection =>
        match probe_answer p with
        | ProbeRows => mret true
        | ProbeEmpty => mret false
        | ProbeRejected => throw DriverError
        end
    end;
  if alive : bool then mret (VBool true)
  else
    (if env_set p "WP_DEBUG" then
       put_proc (set_env
         (<["ERROR_REPORTING" :=
              num_to_string (toInt32 h (env p !! "ERROR_REPORTING"))]> (env p)) p)
     else mret tt);;
    r ← reconnect_loop (Z.to_nat (reconnectRetries i)) 1;
    match r with
    | Some v => mret v
    | None =>
        p ← get_proc;
        if env_set p "TEMPLATE_REDIRECT" then mret (VBool false)
        else if negb allowBail then mret (VBool false)
        else
          bail (reconnect_message (dbHost i));;
          warn DatabaseNotAvailable;;
          mret VUndef
    end.

(** *** Writing rows (lines 1653-1973) *)

(** The [data] and [where] arguments: a plain object, given by its own
    properties in the order [Object.entries] lists them, or an array. *)
Inductive colmap : Type :=
| Columns (l : list (jstring * jsval))
| ColumnArray (l : list jsval).

Definition is_array (d : colmap) : bool :=
  match d with
  | ColumnArray _ => true
  | Columns _ => false
  end.

Fixpoint indexed (i : nat) (l : list jsval) : list (jstring * jsval) :=
  match l with
  | [] => []
  | x :: t => (num_to_string (Z.of_nat i), x) :: indexed (S i) t
  end.

(** [Object.entries(data)]. *)
Definition entries (d : colmap) : list (jstring * jsval) :=
  match d with
  | Columns l => l
  | ColumnArray l => indexed 0 l
  end.

(** What [processFieldFormats] and the steps after it make of one entry:
    [{value, format, charset, length}] under its field name. *)
Record field : Type := FieldOf {
  f_name : jstring;
  f_value : jsval;
  f_format : jsval;
  f_charset : jsval;
  f_length : jsval
}.

Definition head_or_undefined (l : list jsval) : jsval :=
  match l with
  | v :: _ => v
  | [] => VUndef
  end.

(** [processFieldFormats(data, format)], lines 1899-1919.  [formats] is the
    array [format] itself (or a new empty array), from which [shift] takes
    the next format; [originalFormats[0]] stands in for a missing or falsy
    one. *)
Fixpoint field_formats (i : instance) (format : jsval)
    (originalFormats formats : list jsval) (es : list (jstring * jsval))
    : list field :=
  match es with
  | [] => []
  | (name, value) :: es' =>
      if truthy format then
        let shifted := head_or_undefined formats in
        let fmt :=
          if truthy shifted then shifted
          else head_or_undefined originalFormats in
        FieldOf name value fmt VUndef VUndef
          :: field_formats i format originalFormats (tl formats) es'
      else
        let fmt :=
          match fieldTypes i !! name with
          | Some (u :: t) => VStr (u :: t)
          | _ => VStr (lit "%s")
          end in
        FieldOf name value fmt VUndef VUndef
          :: field_formats i format originalFormats formats es'
  end.

Definition processFieldFormats (i : instance) (data : colmap) (format : jsval)
    : list field :=
  let formats := match format with VArr l => l | _ => [] end in
  field_formats i format formats formats (entries data).

Definition numeric_format (f : field) : bool :=
  match f_format f with
  | VStr t => jstring_eqb t (lit "%d") || jstring_eqb t (lit "%f")
  | _ => false
  end.

(** [getColCharset(table, column)], line 2249.  Its first statement after
    the two [toLowerCase] calls assigns to [charset], which the function
    declares with [const] further down (line 2286), the value of a call of
    [applyFilters], which the module neither defines nor imports: the
    statement throws a [ReferenceError] and nothing after it runs. *)
Definition getColCharset (table column : jstring) : M jsval :=
  throw ReferenceError.

(** [processFieldCharsets(data, table)], lines 1930-1946. *)
Fixpoint processFieldCharsets (table : jstring) (fs : list field)
    : M (list field) :=
  match fs with
  | [] => mret []
  | f :: fs' =>
      cs ← (if numeric_format f then mret (VBool false)
            else getColCharset table (f_name f));
      rest ← processFieldCharsets table fs';
      mret (FieldOf (f_name f) (f_value f) (f_format f) cs (f_length f) :: rest)
  end.

(** [processFieldLengths(data, table)], lines 1957-1973.  [getColLength] is
    an [async] method: the call yields a promise, which is not an [Error]. *)
Definition processFieldLengths (fs : list field) : list field :=
  map (fun f =>
         FieldOf (f_name f) (f_value f) (f_format f) (f_charset f)
           (if numeric_format f then VBool false else VPromise)) fs.

Fixpoint join (sep : jstring) (l : list jstring) : jstring :=
  match l with
  | [] => []
  | [x] => x
  | x :: t => x ++ sep ++ join sep t
  end.

Definition problem_message (problemFields : list jstring) : jstring :=
  match problemFields with
  | [one] =>
      lit "WordPress database error: Processing the value for the following field failed: "
      ++ one
      ++ lit ". The supplied value may be too long or contains invalid data."
  | _ =>
      lit "WordPress database error: Processing the values for the following fields failed: "
      ++ join (lit ", ") problemFields
      ++ lit ". The supplied values may be too long or contain invalid data."
  end.

(** What the callers of [processFields] tell apart in its result. *)
Inductive processed : Type :=
| PFalse
| PUndefined
| PFields (fs : list field).

(** [processFields(table, data, format)], lines 1857-1890.  The three steps
    never give [false].  [stripInvalidText] is an [async] method, so
    [convertedData] is a promise: it differs from [data], none of its
    properties is a field, every field is reported as a problem in
    [lastError], and the function ends without a [return]. *)
Definition processFields (table : jstring) (data : colmap) (format : jsval)
    : M processed :=
  i ← get_this;
  let fs := processFieldFormats i data format in
  fs ← processFieldCharsets table fs;
  let fs := processFieldLengths fs in
  i ← get_this;
  put_this (set_lastError (problem_message (map f_name fs)) i);;
  mret PUndefined.

(** [query(query)], line 1450, as far as it runs before its first [await]
    when [checkCurrentQuery] is [false], as the three writers set it: the
    statement reaches the driver when the instance is ready and has a
    handle.  The call itself yields a promise.  Of what [flush] resets only
    [lastError] is a field of the model; the result object of an earlier
    query, which [flush] would free, is not modelled. *)
Definition query (q : jsval) : M jsval :=
  i ← get_this;
  if negb (ready i) then mret VPromise
  else if negb (truthy q) then put_this (set_insertId 0 i);; mret VPromise
  else
    put_this (set_lastError [] i);;
    match dbh i with
    | NoHandle => mret VPromise
    | Connection =>
        p ← get_proc;
        put_proc (set_sent (sent p ++ [to_string q]) p);; mret VPromise
    end.

Definition is_null (v : jsval) : bool :=
  match v with VNull => true | _ => false end.

Definition not_null (f : field) : bool := negb (is_null (f_value f)).

(** The element of [formats] for one field (lines 1727-1732). *)
Definition values_item (f : field) : jstring :=
  if is_null (f_value f) then lit "NULL"
  else match f_format f with
       | VUndef | VNull => []
       | v => to_string v
       end.

(** The element of [fields] for one field (lines 1778-1783). *)
Definition set_item (f : field) : jstring :=
  if is_null (f_value f) then lit "`" ++ f_name f ++ lit "` = NULL"
  else lit "`" ++ f_name f ++ lit "` = " ++ to_string (f_format f).

(** The element of [conditions] for one field (lines 1787-1792, 1829-1834). *)
Definition where_item (f : field) : jstring :=
  if is_null (f_value f) then lit "`" ++ f_name f ++ lit "` IS NULL"
  else lit "`" ++ f_name f ++ lit "` = " ++ to_string (f_format f).

Inductive write_type : Type :=
| INSERT
| REPLACE.

Definition type_text (t : write_type) : jstring :=
  match t with
  | INSERT => lit "INSERT"
  | REPLACE => lit "REPLACE"
  end.

(** Line 1739. *)
Definition insert_sql (t : write_type) (table : jstring) (fs : list field)
    : jstring :=
  type_text t ++ lit " INTO " ++ table
  ++ lit " (`" ++ join (lit "`, `") (map f_name fs) ++ lit "`) VALUES ("
  ++ join (lit ", ") (map values_item fs) ++ lit ")".

(** Line 1799. *)
Definition update_sql (table : jstring) (fs ws : list field) : jstring :=
  lit "UPDATE `" ++ table ++ lit "` SET "
  ++ join (lit ", ") (map set_item fs)
  ++ lit " WHERE " ++ join (lit " AND ") (map where_item ws).

(** Line 1840. *)
Definition delete_sql (table : jstring) (ws : list field) : jstring :=
  lit "DELETE FROM `" ++ table ++ lit "` WHERE "
  ++ join (lit " AND ") (map where_item ws).

Definition values_of (fs : list field) : list jsval :=
  map f_value (filter (fun f => not_null f = true) fs).

(** [_insertReplaceHelper(table, data, format, type)], the definition in
    force (line 1712), for the two types that [insert] and [replace] pass. *)
Definition _insertReplaceHelper (h : host) (table : jstring) (data : colmap)
    (format : jsval) (t : write_type) : M jsval :=
  i ← get_this;
  put_this (set_insertId 0 i);;
  processedData ← processFields table data format;
  match processedData with
  | PFalse => mret (VBool false)
  | PUndefined => throw TypeError (* line 1726: [for...of] over [undefined] *)
  | PFields fs =>
      sql ← prepare h (insert_sql t table fs) [VArr (values_of fs)];
      query sql
  end.

(** [insert], [replace] (the latter is [replace_] here, as [delete] is
    [delete_], to keep the names of the string and map operations free). *)
Definition insert (h : host) (table : jstring) (data : colmap) (format : jsval)
    : M jsval :=
  _insertReplaceHelper h table data format INSERT.

Definition replace_ (h : host) (table : jstring) (data : colmap)
    (format : jsval) : M jsval :=
  _insertReplaceHelper h table data format REPLACE.

(** [update(table, data, where, format, whereFormat)], line 1760. *)
Definition update (h : host) (table : jstring) (data where_ : colmap)
    (format whereFormat : jsval) : M jsval :=
  if negb (is_array data) || negb (is_array where_) then mret (VBool false)
  else
    processedData ← processFields table data format;
    match processedData with
    | PFalse => mret (VBool false)
    | _ =>
        processedWhere ← processFields table where_ whereFormat;
        match processedWhere, processedData with
        | PFalse, _ => mret (VBool false)
        | PFields ws, PFields fs =>
            sql ← prepare h (update_sql table fs ws)
                    [VArr (values_of fs ++ values_of ws)];
            query sql
        | _, _ => throw TypeError
            (* lines 1777, 1786: [Object.entries] of [undefined] *)
        end
    end.

(** [delete(table, where, whereFormat)], line 1816. *)
Definition delete_ (h : host) (table : jstring) (where_ : colmap)
    (whereFormat : jsval) : M jsval :=
  if negb (is_array where_) then mret (VBool false)
  else
    processedWhere ← processFields table where_ whereFormat;
    match processedWhere with
    | PFalse => mret (VBool false)
    | PUndefined => throw TypeError (* line 1828 *)
    | PFields ws =>
        sql ← prepare h (delete_sql table ws) [VArr (values_of ws)];
        query sql
    end.

(** *** Table character sets (lines 2169-2240) *)

(** [s.split(sep)] for a one-unit separator. *)
Fixpoint split_on (sep : N) (s : jstring) : list jstring :=
  match s with
  | [] => [[]]
  | x :: t =>
      if N.eqb x sep then [] :: split_on sep t
      else match split_on sep t with
           | piece :: more => (x :: piece) :: more
           | [] => [[x]]
           end
  end.

(** The first element of such a split. *)
Definition before (sep : N) (s : jstring) : jstring :=
  match split_on sep s with
  | piece :: _ => piece
  | [] => []
  end.

(** What [getResults] hands back to synchronous code. *)
Inductive results : Type :=
| Pending
| Rows (l : list column)
| NoResult.

(** [getResults(query)], line 2095, as its caller sees it.  It is an [async]
    method: the call runs it up to the first [await] inside [query], which
    hands the statement to the driver, and yields a promise. *)
Definition getResults (q : jstring) : M results :=
  query (VStr q);; mret Pending.

(** A property key that is an array index, with its value. *)
Definition array_index (k : jstring) : option Z :=
  match parseInt k with
  | Some n =>
      if jstring_eqb (num_to_string n) k && (0 <=? n)%Z && (n <? 4294967295)%Z
      then Some n else None
  | None => None
  end.

(** [o[k] = v] on the own properties of an object, in creation order. *)
Fixpoint obj_set {A} (k : jstring) (v : A) (o : list (jstring * A))
    : list (jstring * A) :=
  match o with
  | [] => [(k, v)]
  | (k', v') :: o' =>
      if jstring_eqb k' k then (k, v) :: o' else (k', v') :: obj_set k v o'
  end.

Fixpoint insert_by_index {A} (n : Z) (e : jstring * A)
    (l : list (Z * (jstring * A))) : list (Z * (jstring * A)) :=
  match l with
  | [] => [(n, e)]
  | (m, e') :: l' =>
      if (n <? m)%Z then (n, e) :: l else (m, e') :: insert_by_index n e l'
  end.

(** [Object.values(o)]: the array indices in ascending order first, then
    the other keys in creation order. *)
Definition obj_values {A} (o : list (jstring * A)) : list A :=
  let idx :=
    fold_right (fun e acc =>
                  match array_index (fst e) with
                  | Some n => insert_by_index n e acc
                  | None => acc
                  end) [] o in
  let others :=
    filter (fun e => array_index (fst e) = None) o in
  map (fun ne => snd (snd ne)) idx ++ map snd others.

(** [Set.prototype.add], on the elements in insertion order. *)
Definition set_add (x : jstring) (l : list jstring) : list jstring :=
  if bool_decide (x ∈ l) then l else l ++ [x].

Definition set_delete (x : jstring) (l : list jstring) : list jstring :=
  filter (fun y => y ≠ x) l.

Definition binary_types : list jstring :=
  map lit ["BINARY"; "VARBINARY"; "TINYBLOB"; "MEDIUMBLOB"; "BLOB"; "LONGBLOB"]%string.

(** The loop of lines 2198-2210 over [Object.values(columns)]: the charsets
    collected, or [None] once a binary column is met. *)
Fixpoint scan_columns (h : host) (cols : list column) (charsets : list jstring)
    : option (list jstring) :=
  match cols with
  | [] => Some charsets
  | col :: more =>
      let charsets :=
        match Collation col with
        | Some (u :: t) =>
            set_add (toLowerCase h (before (cu "_") (u :: t))) charsets
        | _ => charsets
        end in
      if bool_decide (toUpperCase h (before (cu "(") (Type_ col)) ∈ binary_types)
      then None
      else scan_columns h more charsets
  end.

(** Lines 2212-2236: the charset of a table from the set of the charsets of
    its columns. *)
Definition resolve_charsets (charsets : list jstring) : jsval :=
  let charsets :=
    if bool_decide (lit "utf8mb3" ∈ charsets)
    then set_delete (lit "utf8mb3") (set_add (lit "utf8") charsets)
    else charsets in
  match charsets with
  | [one] => VStr one
  | [] => VBool false
  | _ =>
      let charsets := set_delete (lit "latin1") charsets in
      match charsets with
      | [one] => VStr one
      | _ =>
          if Nat.eqb (length charsets) 2
             && bool_decide (lit "utf8" ∈ charsets)
             && bool_decide (lit "utf8mb4" ∈ charsets)
          then VStr (lit "utf8")
          else VStr (lit "ascii")
      end
  end.

(** Lines 2191-2239, for rows that can be iterated. *)
Definition charset_from_rows (h : host) (tableKey : jstring)
    (rows : list column) : M jsval :=
  let columns :=
    fold_left (fun o col => obj_set (toLowerCase h (Field col)) col o) rows [] in
  i ← get_this;
  put_this (set_colMeta (<[tableKey := columns]> (colMeta i)) i);;
  i ← get_this;
  let charset :=
    match scan_columns h (obj_values columns) [] with
    | None => VStr (lit "binary")
    | Some charsets => resolve_charsets charsets
    end in
  put_this (set_tableCharset (<[tableKey := charset]> (tableCharset i)) i);;
  mret charset.

(** [getTableCharset(table)], the definition in force (line 2169; it
    replaces the one of line 2154).  The result of [getResults] is a
    promise, which is truthy and cannot be iterated. *)
Definition getTableCharset (h : host) (table : jstring) : M jsval :=
  let tableKey := toLowerCase h table in
  i ← get_this;
  let cached :=
    match tableCharset i !! tableKey with
    | Some v => v
    | None => VUndef
    end in
  if truthy cached then mret cached
  else
    let formattedTable :=
      lit "`" ++ join (lit "`.`") (split_on (cu ".") table) ++ lit "`" in
    r ← getResults (lit "SHOW FULL COLUMNS FROM " ++ formattedTable);
    match r with
    | NoResult => mret (VError (lit "Could not retrieve table charset."))
    | Pending => throw TypeError (* line 2191: [for...of] over a promise *)
    | Rows rows => charset_from_rows h tableKey rows
    end.

(** *** Text validation (lines 2379-2388, 2458-2571) *)

(** [Buffer.byteLength(s, 'utf8')]: a surrogate pair is one code point of
    four bytes, a lone surrogate is replaced by U+FFFD (three bytes). *)
Definition high_surrogate : N -> bool := between 55296 56319.
Definition low_surrogate : N -> bool := between 56320 57343.

Fixpoint utf8_length (s : jstring) : nat :=
  match s with
  | [] => O
  | x :: t =>
      if x <? 128 then S (utf8_length t)
      else if x <? 2048 then S (S (utf8_length t))
      else if high_surrogate x then
        match t with
        | y :: t' =>
            if low_surrogate y then S (S (S (S (utf8_length t'))))
            else S (S (S (utf8_length t)))
        | [] => 3%nat
        end
      else S (S (S (utf8_length t)))
  end.

(** [checkAscii(inputString)].  Encoding with ['ascii'] keeps the low byte
    of every code unit and decoding clears its high bit.  The pattern of
    line 2384 is [/[^\\x00-\\x7F]/]: in a regular expression literal [\\] is a
    backslash, so the class holds the backslash, [x], [0], the range from
    [0] to the backslash, [x], [7] and [F]. *)
Definition checkAscii (s : jstring) : bool :=
  if jstring_eqb (map (fun x => N.land (N.land x 255) 127) s) s then true
  else if negb (test
                  (RegExpOf
                     (Char (none_of
                        (either (one_of [92; 120; 48])
                           (either (between 48 92) (one_of [120; 55; 70])))))
                     0) s)
  then true
  else false.

(** Lines 2502-2507.  The pattern is built from a string literal whose
    [\x..] escapes are the code units themselves. *)
Definition cont_unit : re := Char (between 128 191).

Definition utf8_sequence (mb4 : bool) : re :=
  alts ([ Char (between 0 127);
          Seq (Char (between 194 223)) cont_unit;
          seqs [Char (chr 224); Char (between 160 191); cont_unit];
          Seq (Char (between 225 236)) (Rep 2 (Some 2%nat) cont_unit);
          seqs [Char (chr 237); Char (between 128 159); cont_unit];
          Seq (Char (between 238 239)) (Rep 2 (Some 2%nat) cont_unit) ]
        ++ (if mb4 then
              [ seqs [Char (chr 240); Char (between 144 191);
                      Rep 2 (Some 2%nat) cont_unit];
                Seq (Char (between 241 243)) (Rep 3 (Some 3%nat) cont_unit);
                seqs [Char (chr 244); Char (between 128 143);
                      Rep 2 (Some 2%nat) cont_unit] ]
            else [])).

Definition utf8_filter (mb4 : bool) : regexp :=
  RegExpOf (Alt (Rep 1 (Some 40%nat) (Group 1 (utf8_sequence mb4))) (Char dot)) 1.

(** The [length] of a column as [stripInvalidText] destructures it. *)
Inductive ceiling : Type :=
| CeilFalse
| CeilUndefined
| CeilNaN
| CeilNum (n : Z).

(** [value.length]: [false], an object [{type, length}], or the promise that
    the [async] method [getColLength] yields. *)
Inductive col_length : Type :=
| LengthFalse
| LengthInfo (type : jstring) (length : ceiling)
| LengthPending.

(** One element of [data]. *)
Record text_value : Type := TextValue {
  value : jsval;
  charset : jsval;
  ascii : option bool;
  length_ : col_length;
  db : bool
}.

(** [length !== false && bytes > length]. *)
Definition exceeds (bytes : nat) (length : ceiling) : bool :=
  match length with
  | CeilNum n => (n <? Z.of_nat bytes)%Z
  | _ => false
  end.

Definition ceiling_num (length : ceiling) : Z :=
  match length with
  | CeilNum n => n
  | _ => 0%Z
  end.

(** [s.substring(0, n)] and [s.slice(0, n)] for an integer [n]. *)
Definition substring_0 (n : Z) (s : jstring) : jstring := take (Z.to_nat n) s.

Definition slice_0 (n : Z) (s : jstring) : jstring :=
  if (n <? 0)%Z then take (length s - Z.to_nat (- n)) s
  else take (Z.to_nat n) s.

Definition utf8_family (cs : jsval) : option bool :=
  match cs with
  | VStr t =>
      if jstring_eqb t (lit "utf8mb4") then Some true
      else if jstring_eqb t (lit "utf8") || jstring_eqb t (lit "utf8mb3")
      then Some false
      else None
  | _ => None
  end.

Definition with_value (s : jstring) (flag : bool) (v : text_value) : text_value :=
  TextValue (VStr s) (charset v) (ascii v) (length_ v) flag.

(** One round of the loop of lines 2461-2520: the element afterwards, and
    whether the round reached line 2518 (the mark for the server). *)
Definition strip_round (v : text_value) : text_value * bool :=
  let '(length, truncateByByteLength) :=
    match length_ v with
    | LengthFalse => (CeilFalse, false)
    | LengthInfo type length => (length, jstring_eqb type (lit "byte"))
    | LengthPending => (CeilUndefined, false)
    end in
  match charset v with
  | VBool false => (v, false)
  | cs =>
      match value v with
      | VStr s =>
          let plain :=
            match cs with
            | VStr t => jstring_eqb t (lit "latin1")
            | _ => false
            end
            || (match ascii v with None => checkAscii s | Some _ => false end) in
          let truncate := truncateByByteLength || plain in
          let s1 :=
            if truncate && exceeds (utf8_length s) length
            then substring_0 (ceiling_num length) s else s in
          if plain then (with_value s1 (db v) v, false)
          else
            match utf8_family cs with
            | Some mb4 =>
                let s2 := replace (utf8_filter mb4) (lit "$1") s1 in
                let s3 :=
                  if exceeds (utf8_length s2) length
                  then slice_0 (ceiling_num length) s2 else s2 in
                (with_value s3 (db v) v, false)
            | None => (with_value s1 true v, true)
            end
      | _ => (v, false)
      end
  end.

(** [stripInvalidText(data)] for an array [data]: the value its promise is
    fulfilled with when every element is dealt with locally.  When an
    element is marked for the server the method goes on to a query (lines
    2523-2569), which this embedding does not follow. *)
Inductive stripped : Type :=
| Local (data : list text_value)
| NeedsServer (data : list text_value).

Definition stripInvalidText (data : list text_value) : stripped :=
  let rounds := map strip_round data in
  if existsb snd rounds then NeedsServer (map fst rounds)
  else Local (map fst rounds).

End Wpdb.

(** ** The compatibility accessors (fragment [part_000], lines 12-50)

    [set] and [unset] address a field by its name: here the instance is
    the finite map from the names of its own properties to their values.
    The instance inherits from the class and from [Object.prototype], which
    define no setter but the one of [__proto__]. *)

Module Compat.
Import JS.

Definition protectedMembers : list string :=
  ["colMeta"; "tableCharset"; "checkCurrentQuery";
   "allowUnsafeUnquotedParameters"]%string.

(** [set(name, value)].  The assignment [this[name] = value] creates or
    overwrites the own property [name], except for [__proto__]: that name
    reaches the setter inherited from [Object.prototype], which replaces
    the prototype (or does nothing) and leaves the own properties alone. *)
Definition set (name : string) (value : jsval) (this : gmap string jsval)
    : gmap string jsval :=
  if bool_decide (name ∈ protectedMembers) then this
  else if bool_decide (name = "__proto__"%string) then this
  else <[name := value]> this.

(** [unset(name)]: [delete this[name]]. *)
Definition unset (name : string) (this : gmap string jsval)
    : gmap string jsval :=
  delete name this.

End Compat.

(** ** Further methods of the class [Wpdb]

    Methods of [src/wp-includes/class-wpdb.js] that the methods above call
    or that use them, embedded on the same instance and process. *)

Module Methods.
Import JS RegExp Wpdb.

(** *** String helpers *)

(** [s.startsWith(p)]. *)
Fixpoint starts_with (p s : jstring) : bool :=
  match p, s with
  | [], _ => true
  | x :: p', y :: s' => N.eqb x y && starts_with p' s'
  | _ :: _, [] => false
  end.

(** [s.indexOf(t)] for a string [t]; [None] is [-1]. *)
Fixpoint index_of_sub (t s : jstring) : option nat :=
  if starts_with t s then Some O
  else match s with
       | [] => None
       | _ :: s' => option_map S (index_of_sub t s')
       end.

(** The number of occurrences of a code unit: the length of
    [s.match(/x/g) || []]. *)
Fixpoint count (x : N) (s : jstring) : nat :=
  match s with
  | [] => O
  | u :: t => if N.eqb u x then S (count x t) else count x t
  end.

(** [s.replace(t, r)] for a string pattern [t]: the first occurrence is
    replaced by the expansion of [r]. *)
Definition replace_sub (t r s : jstring) : jstring :=
  match index_of_sub t s with
  | Some i =>
      take i s ++ substitution (MInfo i t [] s) r ++ drop (i + length t) s
  | None => s
  end.

(** [s.replace(r, t)] for a regular expression without the global flag: the
    first match is replaced. *)
Definition replace_first (r : regexp) (t s : jstring) : jstring :=
  match search r 0 s with
  | None => s
  | Some (p, y) =>
      take p s ++ substitution (info_of s p (drop p s) y) t ++ rest y
  end.

(** *** [escLike] (line 1116)

    [text.replace(/[\\%_]/g, '\\$&')]: the class holds the backslash, the
    percent sign and the underscore; the replacement is a backslash followed
    by the match. *)

Definition like_special : N -> bool := one_of [92; 37; 95].

Definition escLike (text : jsval) : completion jstring :=
  match text with
  | VStr s => Normal (replace (RegExpOf (Char like_special) 0) [92; 36; 38] s)
  | _ => Throw TypeError
  end.

(** *** [removePlaceholderEscape] (line 1634)

    [query.replace(new RegExp(this.placeholderEscape(), 'g'), '%')].  The
    placeholder is used as the text of a pattern.  For a placeholder of the
    form that [placeholderEscape] generates, an opening brace, hexadecimal
    digits that are not all decimal and a closing brace, every code unit of
    that text stands for itself (a brace that does not delimit a quantifier
    is a literal).  A stored placeholder of another form is outside this
    embedding: the result is [None]. *)

Definition hex_digit : N -> bool := either digit (between 97 102).

Definition literal (text : jstring) : re :=
  seqs (map (fun u => Char (chr u)) text).

Definition generated (token : jstring) : bool :=
  match token with
  | 123 :: body =>
      match last body with
      | Some 125 =>
          forallb hex_digit (removelast body)
          && negb (forallb digit (removelast body))
      | _ => false
      end
  | _ => false
  end.

Definition removePlaceholderEscape (h : host) (query : jstring)
    : M (option jstring) :=
  token ← placeholderEscape h;
  if generated token
  then mret (Some (replace (RegExpOf (literal token) 0) (lit "%") query))
  else mret None.

(** *** [setBlogId] (line 710)

    [setBlogId(blogId)] with [networkId] left at its default: the new blog id
    and its prefix are stored; the next statement calls [this.tables], which
    is the array of line 207, and throws. *)

Definition set_prefix (v : jstring) (i : instance) : instance :=
  let 'Instance a b c _ e f g h j k l m n o p q r t := i in
  Instance a b c v e f g h j k l m n o p q r t.
Definition set_blogId (v : Z) (i : instance) : instance :=
  let 'Instance a b c d _ f g h j k l m n o p q r t := i in
  Instance a b c d v f g h j k l m n o p q r t.

Definition get_state : M state := fun st => (Normal st, st).

Definition setBlogId (blogId : Z) : M jsval :=
  i ← get_this;
  put_this (set_blogId blogId i);;
  st ← get_state;
  put_this (set_prefix (getBlogPrefix st None) (this st));;
  throw TypeError.

(** *** [determineCharset] (line 565), [hasCapability] (line 621) *)

(** [v === t] for a string constant [t]. *)
Definition is_text (t : string) (v : jsval) : bool :=
  match v with
  | VStr s => jstring_eqb s (lit t)
  | _ => false
  end.

(** [hasCapability(capability)]: the body is [return false]. *)
Definition hasCapability (capability : jstring) : bool := false.

(** [determineCharset(charset, collate)].  A truthy collation that is not a
    string has no [replace] method. *)
Definition determineCharset (i : instance) (charset collate : jsval)
    : completion (jsval * jsval) :=
  match dbh i with
  | NoHandle => Normal (charset, collate)
  | Connection =>
      let charset :=
        if is_text "utf8" charset then VStr (lit "utf8mb4") else charset in
      let collated : completion jsval :=
        if is_text "utf8mb4" charset then
          if negb (truthy collate) || is_text "utf8_general_ci" collate
          then Normal (VStr (lit "utf8mb4_unicode_ci"))
          else match collate with
               | VStr s =>
                   Normal (VStr (replace_sub (lit "utf8_") (lit "utf8mb4_") s))
               | _ => Throw TypeError
               end
        else Normal collate in
      match collated with
      | Normal collate =>
          let collate :=
            if hasCapability (lit "utf8mb4_520")
               && is_text "utf8mb4_unicode_ci" collate
            then VStr (lit "utf8mb4_unicode_520_ci") else collate in
          Normal (charset, collate)
      | Throw e => Throw e
      end
  end.

(** *** [parseDbHost] (line 1345)

    The two patterns of the method, with the named groups [host] and
    [port] as groups 1 and 2.  For an IPv6 address: the start of the input,
    an optional opening bracket, one or more hexadecimal digits and colons
    (the host), and optionally a closing bracket, a colon and one or more
    digits (the port).  Otherwise: the start of the input, any number of
    code units other than the colon and the slash (the host), and optionally
    a colon and one or more digits (the port). *)

Definition host_part : N -> bool := none_of (one_of [58; 47]).
Definition ipv6_part : N -> bool :=
  either digit (either (between 97 102) (either (between 65 70) (chr 58))).

Definition port_suffix (close : list re) : re :=
  opt (seqs (close ++ [c ":"; Group 2 (plus (Char digit))])).

Definition ipv6_host : regexp :=
  RegExpOf (seqs [Bol; opt (c "["); Group 1 (plus (Char ipv6_part));
                  port_suffix [c "]"]]) 2.

Definition ipv4_host : regexp :=
  RegExpOf (seqs [Bol; Group 1 (star (Char host_part)); port_suffix []]) 2.

(** [parseDbHost(host)] for a string: [false], or the array
    [[host, port, socket, isIPv6]].  The socket is what follows the first
    colon that a slash follows, from the slash on; the address is taken for
    IPv6 when what is left holds more than one colon. *)
Definition parseDbHost (host : jstring) : jsval :=
  let '(socket, host) :=
    match index_of_sub (lit ":/") host with
    | Some socketPos => (VStr (drop (socketPos + 1) host), take socketPos host)
    | None => (VNull, host)
    end in
  let isIPv6 := Nat.ltb 1 (count 58 host) in
  match search (if isIPv6 then ipv6_host else ipv4_host) 0 host with
  | None => VBool false
  | Some (_, y) =>
      let host := match caps y !! 0%nat with Some (Some t) => t | _ => [] end in
      let port :=
        match caps y !! 1%nat with
        | Some (Some (u :: t)) =>
            match parseInt (u :: t) with Some n => VNum n | None => VNaN end
        | _ => VNull
        end in
      VArr [VStr host; port; socket; VBool isIPv6]
  end.

(** *** [dbVersion], [dbServerInfo] (lines 2879-2890)

    [serverVersion] is what the handle reports as its [serverVersion]
    property.  The pattern of [dbVersion] is [/[^0-9.].*/]. *)

Definition version_unit : N -> bool := either digit (chr 46).

Definition version_tail : regexp :=
  RegExpOf (Seq (Char (none_of version_unit)) (star (Char dot))) 0.

Definition dbServerInfo (i : instance) (serverVersion : jsval) : completion jsval :=
  match dbh i with
  | NoHandle => Throw TypeError
  | Connection => Normal serverVersion
  end.

Definition dbVersion (i : instance) (serverVersion : jsval) : completion jstring :=
  match dbServerInfo i serverVersion with
  | Normal (VStr s) => Normal (replace_first version_tail [] s)
  | Normal _ => Throw TypeError
  | Throw e => Throw e
  end.

(** *** [getVar], [getCol] on the cached result (lines 1988-2007, 2064-2082)

    The calls without a query, [getVar(null, x, y)] and [getCol(null, x)]:
    they read [lastResult], and [getVar] records itself in [funcCall]. *)

Record result_cache : Type := ResultCache {
  lastResult : option (list (list (jstring * jsval)));
  funcCall : jstring
}.

(** [a[n]] for an array and an integer [n]. *)
Definition at_index {A} (a : list A) (n : Z) : option A :=
  if (n <? 0)%Z then None else a !! Z.to_nat n.

Definition getVar_call (x y : Z) : jstring :=
  lit "$db->get_var(" ++ [34] ++ lit "null" ++ [34] ++ lit ", "
  ++ num_to_string x ++ lit ", " ++ num_to_string y ++ lit ")".

Definition getVar (x y : Z) (this : result_cache)
    : completion jsval * result_cache :=
  let this := ResultCache (lastResult this) (getVar_call x y) in
  match lastResult this with
  | None => (Throw TypeError, this)
  | Some rows =>
      let values :=
        match at_index rows y with
        | Some row => Some (obj_values row)
        | None => None
        end in
      (Normal
         match values with
         | Some vs =>
             match at_index vs x with
             | Some VUndef | Some (VStr []) | None => VNull
             | Some v => v
             end
         | None => VNull
         end, this)
  end.

Fixpoint getCol_loop (x : Z) (i : Z) (n : nat) (this : result_cache)
    : completion (list jsval) * result_cache :=
  match n with
  | O => (Normal [], this)
  | S n' =>
      match getVar x i this with
      | (Normal v, this') =>
          match getCol_loop x (i + 1) n' this' with
          | (Normal vs, this'') => (Normal (v :: vs), this'')
          | (Throw e, this'') => (Throw e, this'')
          end
      | (Throw e, this') => (Throw e, this')
      end
  end.

Definition getCol (x : Z) (this : result_cache)
    : completion (list jsval) * result_cache :=
  match lastResult this with
  | Some rows => getCol_loop x 0 (length rows) this
  | None => (Normal [], this)
  end.

End Methods.

(** * Properties *)

Import JS RegExp Wpdb.

(** ** [prepare] *)

Definition obrien_template : jstring :=
  lit "SELECT * FROM t WHERE id = %d AND name = %s".

Definition obrien_args : list jsval := [VNum 5; VStr (lit "O'Brien")].

Definition obrien_sql : jstring :=
  lit "SELECT * FROM t WHERE id = 5 AND name = 'O''Brien'".

(** The template of the example is cut into nine pieces, four for each
    placeholder, the third capture [undefined] for a placeholder without
    format. *)
Lemma obrien_split :
  split placeholder_split obrien_template =
  [Some (lit "SELECT * FROM t WHERE id ="); Some (lit " "); Some (lit "%d");
   None; Some (lit " AND name ="); Some (lit " "); Some (lit "%s"); None;
   Some []].
Proof. vm_compute. reflexivity. Qed.

(** C1 (as the code behaves).  On a new instance, [prepare] with the template
    ["SELECT * FROM t WHERE id = %d AND name = %s"] and the arguments [5] and
    ["O'Brien"] does not return the string of the claim: the loop that
    rewrites the placeholders walks the split template in steps of three,
    reaches the [undefined] capture in front of the final piece and throws a
    [TypeError]; nothing is written to the console. *)
Theorem prepare_obrien_throws (h : host) (o : attempt) :
  run_prepare h (State fresh (quiet o)) obrien_template obrien_args
  = (Throw TypeError, []).
Proof. vm_compute. reflexivity. Qed.

(** Whatever the state of the instance and of the process, the result is not
    the string of the claim. *)
Lemma prepare_obrien_never_quotes (h : host) (st : state) :
  fst (prepare h obrien_template obrien_args st) <> Normal (VStr obrien_sql).
Proof.
  destruct st as [i p]. destruct i as [unsafe ? ? ? ? ? ? ? ? ? ? ? ? ? ? ? ? ?].
  destruct p. destruct unsafe; vm_compute; discriminate.
Qed.

(** The definition of [prepare] that the later one replaces does return it. *)
Lemma prepare_shadowed_obrien (h : host) :
  prepare_shadowed h obrien_template obrien_args = Normal obrien_sql.
Proof. vm_compute. reflexivity. Qed.

Definition dual_role_template : jstring :=
  lit "SELECT * FROM %1$i WHERE name = %1$s".

(** C2 (as the code behaves).  With a template that uses argument 1 both as
    an identifier ([%1$i]) and as a value ([%1$s]), [prepare] on a new
    instance does not reject: the value placeholder is not among the pieces
    the loop looks at, no conflict is recorded, and the call returns a
    string, with the count warning as its only diagnostic. *)
Theorem prepare_dual_role_not_rejected (h : host) (o : attempt) :
  run_prepare h (State fresh (quiet o)) dual_role_template
    [VStr (lit "wp_posts")]
  = (Normal (VStr (lit
       "SELECT * FROM `wp_posts${format}s`1$ WHERE name ='s'1$s1$'s'undefined")),
     [WrongPlaceholderCount 9 1]).
Proof. vm_compute. reflexivity. Qed.

(** When the loop does record a conflict, the second pass over the template
    assigns to a variable that is not declared there and the call throws
    before it can report or return. *)
Lemma prepare_conflict_throws (h : host) (o : attempt) :
  run_prepare h (State fresh (quiet o)) (lit "%i %dx1$y")
    [VStr (lit "t"); VNum 1]
  = (Throw ReferenceError, [DualUse]).
Proof. vm_compute. reflexivity. Qed.

(** C3 (as the code behaves).  A template with two placeholders, none of
    them numbered, and one argument: the claim asks for the empty string;
    [prepare] on a new instance throws a [TypeError]. *)
Theorem prepare_too_few_arguments_throws (h : host) (o : attempt) :
  run_prepare h (State fresh (quiet o))
    (lit "SELECT * FROM t WHERE a = %d AND b = %d") [VNum 1]
  = (Throw TypeError, []).
Proof. vm_compute. reflexivity. Qed.

(** A single placeholder with its argument is taken for too few arguments
    as well: the count of placeholders is computed as a third of four. *)
Lemma prepare_one_placeholder_empty (h : host) (o : attempt) :
  run_prepare h (State fresh (quiet o)) (lit "SELECT %d") [VNum 7]
  = (Normal (VStr []), [WrongPlaceholderCount 5 1]).
Proof. vm_compute. reflexivity. Qed.

(** ** Table prefixes *)

(** The tenant a call of [getBlogPrefix] resolves: its argument, or the
    current [blogId] when there is none. *)
Definition tenant_of (st : state) (blogId : option Z) : Z :=
  match blogId with
  | Some b => b
  | None => Wpdb.blogId (this st)
  end.

Definition with_env (e : list (string * jstring)) (p : process) : process :=
  set_env (list_to_map e) p.

Definition wp_site : instance := set_basePrefix (lit "wp_") fresh.

(** C6, counterexample.  Without [IS_MULTISITE] in the environment, tenant 7
    with base prefix ["wp_"] resolves to ["wp_"], not to ["wp_7_"]. *)
Lemma getBlogPrefix_single_site_tenant :
  getBlogPrefix (State wp_site (quiet CreateRejected)) (Some 7%Z)
  <> lit "wp_" ++ num_to_string 7 ++ lit "_".
Proof. vm_compute. discriminate. Qed.

(** C6, amended.  Without [IS_MULTISITE] every tenant resolves to the bare
    base prefix.  With [IS_MULTISITE], tenants 0 and 1 resolve to the bare
    base prefix when [MULTISITE] is set as well, and every other tenant [N]
    (and tenants 0 and 1 when [MULTISITE] is not set) resolves to
    [basePrefix + N + "_"]. *)
Theorem getBlogPrefix_resolution (st : state) (blogId : option Z) :
  (env_set (proc st) "IS_MULTISITE" = false ->
   getBlogPrefix st blogId = basePrefix (this st))
  /\ (env_set (proc st) "IS_MULTISITE" = true ->
      env_set (proc st) "MULTISITE" = true ->
      tenant_of st blogId = 0%Z \/ tenant_of st blogId = 1%Z ->
      getBlogPrefix st blogId = basePrefix (this st))
  /\ (env_set (proc st) "IS_MULTISITE" = true ->
      tenant_of st blogId <> 0%Z -> tenant_of st blogId <> 1%Z ->
      getBlogPrefix st blogId
      = basePrefix (this st) ++ num_to_string (tenant_of st blogId) ++ lit "_")
  /\ (env_set (proc st) "IS_MULTISITE" = true ->
      env_set (proc st) "MULTISITE" = false ->
      getBlogPrefix st blogId
      = basePrefix (this st) ++ num_to_string (tenant_of st blogId) ++ lit "_").
Proof.
  unfold getBlogPrefix, tenant_of.
  repeat split.
  - intros ->. reflexivity.
  - intros -> -> [Hz | Hz]; destruct blogId; rewrite Hz; reflexivity.
  - intros -> H0 H1.
    assert (E0 : Z.eqb (match blogId with Some b => b | None => Wpdb.blogId (this st) end) 0 = false)
      by (apply Z.eqb_neq; exact H0).
    assert (E1 : Z.eqb (match blogId with Some b => b | None => Wpdb.blogId (this st) end) 1 = false)
      by (apply Z.eqb_neq; exact H1).
    destruct blogId; rewrite E0, E1, andb_false_r; reflexivity.
  - intros -> ->. reflexivity.
Qed.

Definition multisite : state :=
  State wp_site
    (with_env [("IS_MULTISITE", lit "1"); ("MULTISITE", lit "1")]%string
       (quiet CreateRejected)).

(** On a multisite installation tenant 7 resolves to ["wp_7_"] and tenant 1
    to ["wp_"]. *)
Lemma getBlogPrefix_resolution_witness :
  getBlogPrefix multisite (Some 7%Z) = lit "wp_7_"
  /\ getBlogPrefix multisite (Some 1%Z) = lit "wp_".
Proof.
  split.
  - destruct (getBlogPrefix_resolution multisite (Some 7%Z)) as (_ & _ & H & _).
    rewrite H; vm_compute; congruence.
  - destruct (getBlogPrefix_resolution multisite (Some 1%Z)) as (_ & H & _).
    rewrite H; vm_compute; auto.
Defined.

(** ** The compatibility accessors *)

(** An object with the protected field [colMeta]. *)
Definition sample_object : gmap string jsval := {["colMeta" := VArr []]}.

(** C10, counterexample.  [unset], the other writer among the accessors, has
    no guard: it removes the protected field [colMeta]. *)
Lemma unset_removes_protected_field :
  Compat.unset "colMeta" sample_object !! "colMeta"%string
  <> sample_object !! "colMeta"%string.
Proof. vm_compute. discriminate. Qed.

(** C10, amended.  For a protected name [set] returns the object as it is,
    so no sequence of [set] calls changes one of the four fields; for any
    other name of a field (any name but [__proto__]) [set] stores the value
    in that field and changes no other field. *)
Theorem set_frame (this : gmap string jsval) (name : string) (value : jsval) :
  (name ∈ Compat.protectedMembers -> Compat.set name value this = this)
  /\ (name ∉ Compat.protectedMembers -> name <> "__proto__"%string ->
      Compat.set name value this !! name = Some value
      /\ forall other : string,
           other <> name -> Compat.set name value this !! other = this !! other)
  /\ (forall (calls : list (string * jsval)) (p : string),
        p ∈ Compat.protectedMembers ->
        foldl (fun o c => Compat.set (fst c) (snd c) o) this calls !! p
        = this !! p).
Proof.
  unfold Compat.set. repeat split.
  - intros Hin. rewrite bool_decide_eq_true_2; [reflexivity | exact Hin].
  - rewrite !bool_decide_eq_false_2 by assumption. apply lookup_insert_eq.
  - intros other Hne. rewrite !bool_decide_eq_false_2 by assumption.
    apply lookup_insert_ne. congruence.
  - intros calls p Hp. revert this.
    induction calls as [| [n v] calls IH]; intros this; cbn [foldl fst snd].
    + reflexivity.
    + rewrite IH.
      destruct (bool_decide_reflect (n ∈ Compat.protectedMembers)) as [Hn | Hn];
        [reflexivity |].
      destruct (bool_decide_reflect (n = "__proto__"%string)); [reflexivity |].
      apply lookup_insert_ne. intros ->. contradiction.
Qed.

(** [set] on the field [prefix], and on the protected [colMeta]. *)
Lemma set_frame_witness :
  Compat.set "prefix" (VStr (lit "wp_")) sample_object !! "prefix"%string
  = Some (VStr (lit "wp_"))
  /\ Compat.set "colMeta" VNull sample_object = sample_object.
Proof.
  destruct (set_frame sample_object "prefix"%string (VStr (lit "wp_")))
    as (_ & H2 & _).
  destruct (set_frame sample_object "colMeta"%string VNull) as (H1 & _).
  split.
  - apply H2; [| discriminate]. intros H. apply list_elem_of_In in H. cbn in H.
    repeat (destruct H as [H | H]; [discriminate H |]). exact H.
  - apply H1. apply list_elem_of_In. cbn. auto.
Defined.

(** ** [setPrefix] *)

(** Deciding comparisons of code units whose range is known. *)
Ltac decide_cmp :=
  repeat match goal with
    | |- context [N.leb ?a ?b] =>
        first [ replace (N.leb a b) with true by (symmetry; apply N.leb_le; lia)
              | replace (N.leb a b) with false by (symmetry; apply N.leb_gt; lia) ]
    | |- context [N.ltb ?a ?b] =>
        first [ replace (N.ltb a b) with true by (symmetry; apply N.ltb_lt; lia)
              | replace (N.ltb a b) with false by (symmetry; apply N.ltb_ge; lia) ]
    | |- context [N.eqb ?a ?b] =>
        first [ replace (N.eqb a b) with true by (symmetry; apply N.eqb_eq; lia)
              | replace (N.eqb a b) with false by (symmetry; apply N.eqb_neq; lia) ]
    end.

(** A one-unit class is found in a string exactly when one of its code
    units is in the class. *)
Lemma test_char_class (p : N -> bool) (n : nat) (s : jstring) :
  test (RegExpOf (Char p) n) s = existsb p s.
Proof.
  unfold test. generalize 0%nat as i.
  induction s as [| x t IH]; intros i; cbn.
  - reflexivity.
  - destruct (p x); cbn.
    + reflexivity.
    + apply IH.
Qed.

(** The code units of [^[A-Za-z0-9_]+$]. *)
Definition prefix_unit (x : N) : bool :=
  between 65 90 x || between 97 122 x || between 48 57 x || N.eqb x 95.

Lemma invalid_prefix_unit_class (x : N) :
  none_of (ignore_case (either (between 97 122) (either (between 48 57) (chr 95)))) x
  = negb (prefix_unit x).
Proof.
  unfold prefix_unit, none_of, ignore_case, either, between, chr. f_equal.
  assert (x < 48 \/ (48 <= x <= 57) \/ (58 <= x <= 64) \/ (65 <= x <= 90)
          \/ (91 <= x <= 94) \/ x = 95 \/ x = 96 \/ (97 <= x <= 122)
          \/ (123 <= x <= 127) \/ 128 <= x) as Hx by lia.
  repeat (destruct Hx as [Hx | Hx]); decide_cmp; cbn; decide_cmp; reflexivity.
Qed.

Definition has_invalid_unit (prefix : jstring) : bool :=
  existsb (fun x => negb (prefix_unit x)) prefix.

Lemma invalid_prefix_test (prefix : jstring) :
  test invalid_prefix_unit prefix = has_invalid_unit prefix.
Proof.
  unfold invalid_prefix_unit, has_invalid_unit. rewrite test_char_class.
  induction prefix as [| x t IH]; cbn.
  - reflexivity.
  - rewrite invalid_prefix_unit_class, IH. reflexivity.
Qed.

(** C7, counterexample.  The empty string does not match [^[A-Za-z0-9_]+$],
    and [setPrefix] does not answer it with the invalid-prefix error. *)
Lemma setPrefix_empty_not_rejected :
  fst (setPrefix [] true (State fresh (quiet CreateRejected)))
  <> Normal invalid_prefix.
Proof. vm_compute. discriminate. Qed.

(** C7, amended.  [setPrefix] returns the invalid-prefix error exactly when
    the prefix holds a code unit other than an ASCII letter, a digit or the
    underscore (so not for the empty prefix), and when it returns the error
    it leaves the instance and the process as they were. *)
Theorem setPrefix_rejects_invalid_units (prefix : jstring)
    (setTableNames : bool) (st : state) :
  (fst (setPrefix prefix setTableNames st) = Normal invalid_prefix
   <-> has_invalid_unit prefix = true)
  /\ (fst (setPrefix prefix setTableNames st) = Normal invalid_prefix ->
      snd (setPrefix prefix setTableNames st) = st).
Proof.
  unfold setPrefix. rewrite invalid_prefix_test.
  destruct (has_invalid_unit prefix).
  - cbn. split; [split; reflexivity | reflexivity].
  - destruct setTableNames; cbn; (split; [split |]); intros H; discriminate H.
Qed.

(** With a valid prefix and [setTableNames] left at its default the new
    base prefix is stored and the call then throws. *)
Lemma setPrefix_valid_prefix_throws :
  setPrefix (lit "wp_") true (State fresh (quiet CreateRejected))
  = (Throw TypeError, State wp_site (quiet CreateRejected)).
Proof. vm_compute. reflexivity. Qed.

(** ** [checkConnection] *)

Definition summary (r : completion jsval * state)
    : completion jsval * nat * list Z :=
  (fst r, connects (proc (snd r)), delays (proc (snd r))).

(** C8 (as the code behaves).  A new instance has no handle, so the probe
    fails.  When the server cannot be reached, [createConnection] rejects;
    [dbConnect(false)] throws that error on, [checkConnection] does not
    catch it: the call ends with the driver's error after one attempt and
    without any delay, not with a failure value after five of each. *)
Theorem checkConnection_unreachable_server_aborts (h : host) (allowBail : bool) :
  summary (checkConnection h allowBail (State fresh (quiet CreateRejected)))
  = (Throw DriverError, 1%nat, []).
Proof. destruct allowBail; vm_compute; reflexivity. Qed.

(** When every attempt gets as far as [dbh.connect] and is rejected there,
    the loop does what the claim describes: five attempts, five delays of
    1000 milliseconds each, then [false]. *)
Lemma checkConnection_rejected_connects (h : host) :
  summary (checkConnection h false (State fresh (quiet ConnectRejected)))
  = (Normal (VBool false), 5%nat, [1000; 1000; 1000; 1000; 1000]%Z).
Proof. vm_compute. reflexivity. Qed.

(** With [allowBail] left at its default the same run ends in [bail] and
    returns [undefined]. *)
Lemma checkConnection_rejected_connects_bail (h : host) :
  summary (checkConnection h true (State fresh (quiet ConnectRejected)))
  = (Normal VUndef, 5%nat, [1000; 1000; 1000; 1000; 1000]%Z).
Proof. vm_compute. reflexivity. Qed.

(** A successful reconnection is not noticed: [dbConnect] falls off its end
    and returns [undefined], which the loop takes for a failure. *)
Lemma checkConnection_ignores_success (h : host) :
  summary (checkConnection h false (State fresh (quiet Connected)))
  = (Normal (VBool false), 5%nat, [1000; 1000; 1000; 1000; 1000]%Z).
Proof. vm_compute. reflexivity. Qed.

(** With [WP_DEBUG] set the last round reads a variable that is out of
    scope: four attempts, four delays, then a [ReferenceError]. *)
Lemma checkConnection_debug_throws (h : host) :
  summary (checkConnection h false
             (State fresh (with_env [("WP_DEBUG", lit "1")]%string
                             (quiet ConnectRejected))))
  = (Throw ReferenceError, 4%nat, [1000; 1000; 1000; 1000]%Z).
Proof. vm_compute. reflexivity. Qed.

(** ** [insert], [update], [delete] *)

(** [processFieldCharsets] reads and writes nothing. *)
Lemma processFieldCharsets_state (table : jstring) (fs : list field) (st : state) :
  snd (processFieldCharsets table fs st) = st.
Proof.
  induction fs as [| f fs IH]; cbn.
  - reflexivity.
  - unfold mbind, M_bind, getColCharset, throw, mret, M_ret in *.
    destruct (numeric_format f); cbn.
    + destruct (processFieldCharsets table fs st) as [[r | e] st'] eqn:E;
        cbn in *; exact IH.
    + reflexivity.
Qed.

(** [processFields] never hands fields back, and nothing reaches the
    driver through it. *)
Lemma processFields_result (table : jstring) (data : colmap) (format : jsval)
    (st : state) :
  (fst (processFields table data format st) = Normal PUndefined
   \/ exists e, fst (processFields table data format st) = Throw e)
  /\ sent (proc (snd (processFields table data format st))) = sent (proc st).
Proof.
  unfold processFields, mbind, M_bind, get_this, put_this, mret, M_ret. cbn.
  pose proof (processFieldCharsets_state table
                (processFieldFormats (this st) data format) st) as Hst.
  destruct (processFieldCharsets table _ st) as [[fs | e] st'] eqn:E;
    cbn in *; subst st'.
  - split; [left; reflexivity | reflexivity].
  - split; [right; eauto | reflexivity].
Qed.

(** What a call left behind at the driver, with its completion. *)
Definition outcome_of (r : completion jsval * state)
    : completion jsval * list jstring :=
  (fst r, sent (proc (snd r))).

Definition throws (r : completion jsval) : Prop := exists e, r = Throw e.

Lemma insertReplace_throws (h : host) (table : jstring) (data : colmap)
    (format : jsval) (t : write_type) (st : state) :
  throws (fst (_insertReplaceHelper h table data format t st))
  /\ sent (proc (snd (_insertReplaceHelper h table data format t st)))
     = sent (proc st).
Proof.
  unfold _insertReplaceHelper, mbind, M_bind, get_this, put_this, throw. cbn.
  set (st1 := State (set_insertId 0 (this st)) (proc st)).
  destruct (processFields_result table data format st1) as [[H | [e H]] Hs].
  - destruct (processFields table data format st1) as [r st2]. cbn in *.
    subst r. cbn. split; [eexists; reflexivity | exact Hs].
  - destruct (processFields table data format st1) as [r st2]. cbn in *.
    subst r. cbn. split; [eexists; reflexivity | exact Hs].
Qed.

Lemma update_sends_nothing (h : host) (table : jstring) (data where_ : colmap)
    (format whereFormat : jsval) (st : state) :
  (fst (update h table data where_ format whereFormat st) = Normal (VBool false)
   \/ throws (fst (update h table data where_ format whereFormat st)))
  /\ sent (proc (snd (update h table data where_ format whereFormat st)))
     = sent (proc st).
Proof.
  unfold update.
  destruct (negb (is_array data) || negb (is_array where_)).
  - cbn. split; [left; reflexivity | reflexivity].
  - unfold mbind, M_bind, throw.
    destruct (processFields_result table data format st) as [[H | [e H]] Hs];
      destruct (processFields table data format st) as [r st1]; cbn in *;
      subst r; cbn.
    + destruct (processFields_result table where_ whereFormat st1)
        as [[H | [e H]] Hs1];
        destruct (processFields table where_ whereFormat st1) as [r st2];
        cbn in *; subst r; cbn;
        (split; [right; eexists; reflexivity | congruence]).
    + split; [right; eexists; reflexivity | exact Hs].
Qed.

Lemma delete_sends_nothing (h : host) (table : jstring) (where_ : colmap)
    (whereFormat : jsval) (st : state) :
  (fst (delete_ h table where_ whereFormat st) = Normal (VBool false)
   \/ throws (fst (delete_ h table where_ whereFormat st)))
  /\ sent (proc (snd (delete_ h table where_ whereFormat st))) = sent (proc st).
Proof.
  unfold delete_.
  destruct (negb (is_array where_)).
  - cbn. split; [left; reflexivity | reflexivity].
  - unfold mbind, M_bind, throw.
    destruct (processFields_result table where_ whereFormat st)
      as [[H | [e H]] Hs];
      destruct (processFields table where_ whereFormat st) as [r st1];
      cbn in *; subst r; cbn;
      (split; [right; eexists; reflexivity | exact Hs]).
Qed.

(** C9 (as the code behaves).  No call of [insert], [replace], [update] or
    [delete] hands a statement to the driver, whatever the table, the
    columns, the formats and the state: [insert] and [replace] always end in
    an exception, [update] and [delete] return [false] (always so for a
    column map that is a plain object) or end in an exception.  So a column
    whose value is [null] is not emitted as [NULL]: nothing is emitted. *)
Theorem writers_send_nothing (h : host) (table : jstring) (data where_ : colmap)
    (format whereFormat : jsval) (st : state) :
  (throws (fst (insert h table data format st))
   /\ sent (proc (snd (insert h table data format st))) = sent (proc st))
  /\ (throws (fst (replace_ h table data format st))
      /\ sent (proc (snd (replace_ h table data format st))) = sent (proc st))
  /\ ((fst (update h table data where_ format whereFormat st) = Normal (VBool false)
       \/ throws (fst (update h table data where_ format whereFormat st)))
      /\ sent (proc (snd (update h table data where_ format whereFormat st)))
         = sent (proc st))
  /\ ((fst (delete_ h table where_ whereFormat st) = Normal (VBool false)
       \/ throws (fst (delete_ h table where_ whereFormat st)))
      /\ sent (proc (snd (delete_ h table where_ whereFormat st)))
         = sent (proc st))
  /\ (forall l w : list (jstring * jsval),
        update h table (Columns l) (Columns w) format whereFormat st
        = (Normal (VBool false), st)
        /\ delete_ h table (Columns w) whereFormat st
           = (Normal (VBool false), st)).
Proof.
  split; [apply insertReplace_throws |].
  split; [apply insertReplace_throws |].
  split; [apply update_sends_nothing |].
  split; [apply delete_sends_nothing |].
  intros l w. split; reflexivity.
Qed.

(** A ready and connected instance, and a row with a [null] column. *)
Definition connected : instance :=
  let 'Instance a b c d e f g _ j k l m n o p q r _ := fresh in
  Instance a b c d e f g Connection j k l m n o p q r true.

Lemma insert_null_column_throws (h : host) (o : attempt) :
  outcome_of (insert h (lit "t") (Columns [(lit "a", VNull)])
                (VArr [VStr (lit "%d")]) (State connected (quiet o)))
  = (Throw TypeError, []).
Proof. vm_compute. reflexivity. Qed.

Lemma insert_null_string_column_throws (h : host) (o : attempt) :
  outcome_of (insert h (lit "t") (Columns [(lit "a", VNull)]) VNull
                (State connected (quiet o)))
  = (Throw ReferenceError, []).
Proof. vm_compute. reflexivity. Qed.

(** The statement builders, which no call reaches, do write a [null] column
    as [NULL], whatever its format. *)
Lemma null_column_items (name : jstring) (format cs len : jsval) :
  values_item (FieldOf name VNull format cs len) = lit "NULL"
  /\ set_item (FieldOf name VNull format cs len) = lit "`" ++ name ++ lit "` = NULL"
  /\ where_item (FieldOf name VNull format cs len)
     = lit "`" ++ name ++ lit "` IS NULL".
Proof. repeat split. Qed.

(** ** [getTableCharset] *)

(** The cache entry that [getTableCharset] looks at. *)
Definition cached_charset (h : host) (st : state) (table : jstring) : jsval :=
  match tableCharset (this st) !! toLowerCase h table with
  | Some v => v
  | None => VUndef
  end.

(** C4 (as the code behaves).  For a table whose charset is not in the
    cache, [getTableCharset] throws a [TypeError], whatever the columns of
    the table: [getResults] is an [async] method, its result is a promise,
    and the loop over the rows cannot iterate it. *)
Theorem getTableCharset_uncached_throws (h : host) (table : jstring) (st : state) :
  truthy (cached_charset h st table) = false ->
  fst (getTableCharset h table st) = Throw TypeError.
Proof.
  unfold cached_charset, getTableCharset, getResults, query.
  unfold mbind, M_bind, get_this, get_proc, put_this, put_proc, throw, mret, M_ret.
  cbn. intros ->.
  destruct (ready (this st)); cbn; [| reflexivity].
  destruct (dbh (this st)); reflexivity.
Qed.

Lemma getTableCharset_uncached_throws_witness :
  truthy (cached_charset (Host (fun s => s) [] (fun v => v) (fun _ => 0%Z)
                            (fun s => s) (fun s => s))
            (State fresh (quiet CreateRejected)) (lit "wp_posts")) = false
  /\ fst (getTableCharset (Host (fun s => s) [] (fun v => v) (fun _ => 0%Z)
                             (fun s => s) (fun s => s))
            (lit "wp_posts") (State fresh (quiet CreateRejected)))
     = Throw TypeError.
Proof.
  split.
  - reflexivity.
  - apply getTableCharset_uncached_throws. reflexivity.
Defined.

(** ** The matcher: enough fuel *)

(** A state that a matcher started at [x] can hand to its continuation:
    further on in the same input. *)
Definition ahead (x y : mstate) : Prop :=
  (pos y + length (rest y) = pos x + length (rest x))%nat
  /\ (pos x <= pos y)%nat.

(** A matcher that looks at its continuation only on such states. *)
Definition local (m : mstate -> cont -> option mstate) : Prop :=
  forall x k k',
    (forall y, ahead x y -> k y = k' y) -> m x k = m x k'.

Lemma ahead_refl (x : mstate) : ahead x x.
Proof. unfold ahead. lia. Qed.

Lemma ahead_trans (x y z : mstate) : ahead x y -> ahead y z -> ahead x z.
Proof. unfold ahead. lia. Qed.

Lemma ahead_clear (gs : list nat) (x y : mstate) :
  ahead (clear_caps gs x) y <-> ahead x y.
Proof.
  assert (pos (clear_caps gs x) = pos x /\ rest (clear_caps gs x) = rest x)
    as [Hp Hr] by (induction gs; cbn; auto).
  unfold ahead. rewrite Hp, Hr. reflexivity.
Qed.

Lemma rep_local (m : mstate -> cont -> option mstate) (gs : list nat) :
  local m ->
  forall fuel lo hi, local (fun x k => rep m gs fuel lo hi x k).
Proof.
  intros Hm fuel. induction fuel as [| fuel IH]; intros lo hi x k k' Hk.
  - reflexivity.
  - cbn [rep]. rewrite (Hk x (ahead_refl x)).
    assert (m (clear_caps gs x)
              (fun y => if Nat.eqb lo 0 && Nat.eqb (pos y) (pos x) then None
                        else rep m gs fuel (Nat.pred lo) (hi_pred hi) y k)
            = m (clear_caps gs x)
                (fun y => if Nat.eqb lo 0 && Nat.eqb (pos y) (pos x) then None
                          else rep m gs fuel (Nat.pred lo) (hi_pred hi) y k'))
      as ->; [| reflexivity].
    apply Hm. intros y Hy. apply ahead_clear in Hy.
    destruct (Nat.eqb lo 0 && Nat.eqb (pos y) (pos x)); [reflexivity |].
    apply IH. intros y' Hy'. apply Hk. eapply ahead_trans; eassumption.
Qed.

Lemma run_local (r : re) : local (run r).
Proof.
  induction r as [| p | | a IHa b IHb | a IHa b IHb | lo hi a IHa | n a IHa | a IHa];
    intros x k k' Hk; cbn [run].
  - apply Hk, ahead_refl.
  - destruct (rest x) as [| u t] eqn:Hr; [reflexivity |].
    destruct (p u); [| reflexivity].
    apply Hk. unfold ahead. cbn. rewrite Hr. cbn. lia.
  - destruct (Nat.eqb (pos x) 0); [apply Hk, ahead_refl | reflexivity].
  - apply IHa. intros y Hy. apply IHb. intros y' Hy'.
    apply Hk. eapply ahead_trans; eassumption.
  - rewrite (IHa x k k' Hk), (IHb x k k' Hk). reflexivity.
  - apply (rep_local (run a) (groups a) IHa). exact Hk.
  - apply IHa. intros y Hy. apply Hk. exact Hy.
  - rewrite (Hk x (ahead_refl x)). reflexivity.
Qed.

(** The fuel that [run] gives to a quantifier is enough: more of it does not
    change the result. *)
Lemma rep_fuel (m : mstate -> cont -> option mstate) (gs : list nat) :
  local m ->
  forall fuel fuel' lo hi x k,
    (lo + length (rest x) < fuel)%nat ->
    (lo + length (rest x) < fuel')%nat ->
    rep m gs fuel lo hi x k = rep m gs fuel' lo hi x k.
Proof.
  intros Hm fuel.
  induction fuel as [| fuel IH]; intros fuel' lo hi x k Hf Hf'; [lia |].
  destruct fuel' as [| fuel']; [lia |].
  cbn [rep].
  assert (m (clear_caps gs x)
            (fun y => if Nat.eqb lo 0 && Nat.eqb (pos y) (pos x) then None
                      else rep m gs fuel (Nat.pred lo) (hi_pred hi) y k)
          = m (clear_caps gs x)
              (fun y => if Nat.eqb lo 0 && Nat.eqb (pos y) (pos x) then None
                        else rep m gs fuel' (Nat.pred lo) (hi_pred hi) y k))
    as ->; [| reflexivity].
  apply Hm. intros y Hy. apply ahead_clear in Hy. destruct Hy as [Hsum Hpos].
  destruct (Nat.eqb lo 0) eqn:Hlo; cbn [andb].
  - apply Nat.eqb_eq in Hlo. subst lo.
    destruct (Nat.eqb (pos y) (pos x)) eqn:Hp; [reflexivity |].
    apply Nat.eqb_neq in Hp. apply IH; cbn; lia.
  - apply Nat.eqb_neq in Hlo. apply IH; lia.
Qed.

Lemma run_Rep_fuel (lo : nat) (hi : option nat) (a : re) (x : mstate)
    (k : cont) (extra : nat) :
  run (Rep lo hi a) x k
  = rep (run a) (groups a) (S (lo + length (rest x)) + extra) lo hi x k.
Proof.
  cbn [run]. apply rep_fuel; [apply run_local | lia | lia].
Qed.

(** ** The matcher and the words of a pattern *)

(** The words of a pattern, read as a regular expression over code units
    (assertions and lookaheads contribute the empty word). *)
Fixpoint lang (r : re) (q : jstring) : Prop :=
  match r with
  | Empty | Bol | NotAhead _ => q = []
  | Char p => exists x, q = [x] /\ p x = true
  | Seq a b => exists q1 q2, q = q1 ++ q2 /\ lang a q1 /\ lang b q2
  | Alt a b => lang a q \/ lang b q
  | Rep lo hi a =>
      exists qs, q = concat qs /\ Forall (lang a) qs /\ (lo <= length qs)%nat
                 /\ match hi with
                    | Some h => (length qs <= h)%nat
                    | None => True
                    end
  | Group _ a => lang a q
  end.

(** Patterns without groups and lookaheads whose quantifiers have their
    bounds in order. *)
Fixpoint plain (r : re) : bool :=
  match r with
  | Empty | Char _ | Bol => true
  | Seq a b | Alt a b => plain a && plain b
  | Rep lo hi a =>
      plain a && match hi with Some h => Nat.leb lo h | None => true end
  | Group _ _ | NotAhead _ => false
  end.

Lemma plain_groups (r : re) : plain r = true -> groups r = [].
Proof.
  induction r; cbn; intros H; try reflexivity; try discriminate.
  - apply andb_true_iff in H as [Ha Hb]. rewrite IHr1, IHr2; auto.
  - apply andb_true_iff in H as [Ha Hb]. rewrite IHr1, IHr2; auto.
  - apply andb_true_iff in H as [Ha _]. auto.
Qed.

(** What a successful run of a matcher from [x] tells about the state [y]
    its continuation was called with: the word [q] lies between them. *)
Definition advanced (x y : mstate) (q : jstring) : Prop :=
  rest x = q ++ rest y /\ pos y = (pos x + length q)%nat /\ caps y = caps x.

Definition sound (m : mstate -> cont -> option mstate) (L : jstring -> Prop) : Prop :=
  forall x k z, m x k = Some z ->
    exists q y, k y = Some z /\ L q /\ advanced x y q.

Lemma rep_sound (m : mstate -> cont -> option mstate) (L : jstring -> Prop) :
  sound m L ->
  forall fuel lo hi x k z,
    match hi with Some h => (lo <= h)%nat | None => True end ->
    rep m [] fuel lo hi x k = Some z ->
    exists qs y, k y = Some z /\ Forall L qs /\ advanced x y (concat qs)
                 /\ (lo <= length qs)%nat
                 /\ match hi with
                    | Some h => (length qs <= h)%nat
                    | None => True
                    end.
Proof.
  intros Hm fuel. induction fuel as [| fuel IH]; intros lo hi x k z Hb H.
  - discriminate H.
  - cbn [rep] in H.
    assert (Hstep : forall z', m x (fun y =>
                if Nat.eqb lo 0 && Nat.eqb (pos y) (pos x) then None
                else rep m [] fuel (Nat.pred lo) (hi_pred hi) y k) = Some z' ->
              hi_zero hi = false ->
              exists qs y, k y = Some z' /\ Forall L qs /\ advanced x y (concat qs)
                 /\ (lo <= length qs)%nat
                 /\ match hi with
                    | Some h => (length qs <= h)%nat
                    | None => True
                    end).
    { intros z' Hz Hhi.
      apply Hm in Hz as (q & y1 & Hd & Hq & Hx1 & Hp1 & Hc1).
      destruct (Nat.eqb lo 0 && Nat.eqb (pos y1) (pos x)); [discriminate Hd |].
      apply IH in Hd as (qs & y & Hk & Hqs & (Hx & Hp & Hc) & Hlo & Hhi').
      - exists (q :: qs), y. cbn [concat length].
        repeat split; auto.
        + rewrite Hx1, Hx, app_assoc. reflexivity.
        + rewrite Hp, Hp1, length_app. lia.
        + congruence.
        + lia.
        + destruct hi as [[| h'] |]; cbn in *; try discriminate; lia.
      - destruct hi as [[| h'] |]; cbn in *; try discriminate; lia. }
    destruct (hi_zero hi) eqn:Hhi.
    + exists [], x. destruct hi as [[| h'] |]; try discriminate.
      unfold advanced. cbn. repeat split; auto; lia.
    + cbn [clear_caps fold_right] in H.
      destruct (Nat.eqb lo 0) eqn:Hlo.
      * apply Nat.eqb_eq in Hlo. subst lo.
        match type of H with
        | match ?e with _ => _ end = _ => destruct e as [z' |] eqn:E
        end.
        -- exact (Hstep z H eq_refl).
        -- clear Hstep. exists [], x. unfold advanced. cbn.
           repeat split; auto; lia.
      * exact (Hstep z H eq_refl).
Qed.

(** The matcher of a plain pattern consumes a word of the pattern and
    leaves the captures alone. *)
Lemma run_sound (r : re) : plain r = true -> sound (run r) (lang r).
Proof.
  induction r as [| p | | a IHa b IHb | a IHa b IHb | lo hi a IHa | n a IHa | a IHa];
    cbn [plain]; intros Hp x k z H; cbn [run lang] in *; try discriminate.
  - exists [], x. unfold advanced. cbn. repeat split; auto; lia.
  - destruct (rest x) as [| u t] eqn:Hr; [discriminate |].
    destruct (p u) eqn:Hu; [| discriminate].
    eexists [u], _. split; [exact H |]. split; [eauto |].
    repeat split; cbn; auto. lia.
  - destruct (Nat.eqb (pos x) 0); [| discriminate].
    exists [], x. unfold advanced. cbn. repeat split; auto; lia.
  - apply andb_true_iff in Hp as [Ha Hb].
    apply (IHa Ha) in H as (q1 & y1 & H & Hq1 & Hx1 & Hp1 & Hc1).
    apply (IHb Hb) in H as (q2 & y & H & Hq2 & Hx2 & Hp2 & Hc2).
    exists (q1 ++ q2), y. split; [exact H |]. split; [eauto |].
    repeat split.
    + rewrite Hx1, Hx2, app_assoc. reflexivity.
    + rewrite Hp2, Hp1, length_app. lia.
    + congruence.
  - apply andb_true_iff in Hp as [Ha Hb].
    destruct (run a x k) as [z' |] eqn:E.
    + injection H as ->.
      apply (IHa Ha) in E as (q & y & E & Hq & Hadv). eauto 6.
    + apply (IHb Hb) in H as (q & y & E' & Hq & Hadv). eauto 6.
  - apply andb_true_iff in Hp as [Ha Hb].
    rewrite (plain_groups a Ha) in H.
    apply (rep_sound (run a) (lang a) (IHa Ha)) in H
      as (qs & y & Hk & Hqs & Hadv & Hlo & Hhi).
    + exists (concat qs), y. split; [exact Hk |]. split; [| exact Hadv]. eauto.
    + destruct hi; [apply Nat.leb_le; exact Hb | exact I].
Qed.

(** ** [stripInvalidText] *)

(** Well-formed UTF-8 sequences (the Unicode standard's table of byte
    sequences), with the four-byte ones only under [mb4]. *)
Definition continuation (x : N) : bool := between 128 191 x.

Definition wellformed_sequence (mb4 : bool) (t : jstring) : bool :=
  match t with
  | [a] => a <=? 127
  | [a; b] => between 194 223 a && continuation b
  | [a; b; c] =>
      (N.eqb a 224 && between 160 191 b && continuation c)
      || (between 225 236 a && continuation b && continuation c)
      || (N.eqb a 237 && between 128 159 b && continuation c)
      || (between 238 239 a && continuation b && continuation c)
  | [a; b; c; d] =>
      mb4
      && ((N.eqb a 240 && between 144 191 b && continuation c && continuation d)
          || (between 241 243 a && continuation b && continuation c
              && continuation d)
          || (N.eqb a 244 && between 128 143 b && continuation c
              && continuation d))
  | _ => false
  end.

(** The line separators U+2028 and U+2029, each a character of its own. *)
Definition line_separator (t : jstring) : Prop := t = [8232] \/ t = [8233].

(** Text that is a sequence of well-formed sequences and line separators:
    no sequence in it is cut, and none is of four bytes unless [mb4]. *)
Definition wellformed_text (mb4 : bool) (s : jstring) : Prop :=
  exists pieces,
    s = concat pieces
    /\ Forall (fun t => wellformed_sequence mb4 t = true \/ line_separator t)
         pieces.

Definition surrogate (x : N) : bool := between 55296 57343 x.

Ltac break_lang :=
  repeat match goal with
    | H : exists _, _ |- _ => destruct H
    | H : _ /\ _ |- _ => destruct H
    | H : Forall _ (_ :: _) |- _ => apply Forall_cons_iff in H
    | H : Forall _ [] |- _ => clear H
    | H : (_ <= length ?qs)%nat |- _ =>
        is_var qs; destruct qs as [| ? [| ? [| ? [| ? ?]]]]; cbn [length] in *;
        try lia
    | H : True |- _ => clear H
    end.

Lemma utf8_sequence_wellformed (mb4 : bool) (q : jstring) :
  lang (utf8_sequence mb4) q -> wellformed_sequence mb4 q = true.
Proof.
  unfold utf8_sequence, cont_unit.
  destruct mb4; cbn [alts seqs app lang]; intros H;
    repeat (destruct H as [H | H]); break_lang; subst; cbn [concat app];
    unfold wellformed_sequence, continuation, chr in *;
    try (match goal with
         | H : between 0 127 _ = true |- _ =>
             unfold between in H; apply andb_true_iff in H as [_ H]; exact H
         end);
    repeat match goal with H : _ = true |- _ => rewrite H; clear H end;
    cbn; rewrite ?andb_true_r, ?orb_true_r; reflexivity.
Qed.

Lemma utf8_sequence_plain (mb4 : bool) : plain (utf8_sequence mb4) = true.
Proof. destruct mb4; reflexivity. Qed.

(** One iteration of the quantified group: it consumes one well-formed
    sequence and captures it. *)
Lemma utf8_group_step (mb4 : bool) (x : mstate) (k : cont) (z : mstate) :
  run (Group 1 (utf8_sequence mb4)) x k = Some z ->
  exists q y, k (set_cap 1 (Some q) y) = Some z
              /\ wellformed_sequence mb4 q = true /\ advanced x y q.
Proof.
  cbn [run]. intros H.
  apply (run_sound _ (utf8_sequence_plain mb4)) in H
    as (q & y & Hk & Hq & Hx & Hp & Hc).
  exists q, y. split; [| split].
  - rewrite Hx, Hp in Hk.
    replace (pos x + length q - pos x)%nat with (length q) in Hk by lia.
    rewrite take_app_length in Hk. exact Hk.
  - apply utf8_sequence_wellformed. exact Hq.
  - repeat split; assumption.
Qed.

(** What the capture holds after the quantified group has run. *)
Definition captured (mb4 : bool) (c : option jstring) (t : jstring) : Prop :=
  exists q, c = Some q /\ wellformed_sequence mb4 q = true
            /\ (length q <= length t)%nat.

Lemma utf8_group_rep (mb4 : bool) (fuel : nat) :
  forall lo hi x k z c,
    caps x = [c] ->
    rep (run (Group 1 (utf8_sequence mb4))) [1%nat] fuel lo hi x k = Some z ->
    exists t y c',
      k y = Some z /\ caps y = [c'] /\ rest x = t ++ rest y
      /\ pos y = (pos x + length t)%nat
      /\ ((c' = c /\ t = []) \/ captured mb4 c' t).
Proof.
  induction fuel as [| fuel IH]; intros lo hi x k z c Hc H.
  - discriminate H.
  - cbn [rep] in H.
    assert (Hstep : forall z',
              run (Group 1 (utf8_sequence mb4)) (clear_caps [1%nat] x)
                (fun y =>
                   if Nat.eqb lo 0 && Nat.eqb (pos y) (pos x) then None
                   else rep (run (Group 1 (utf8_sequence mb4))) [1%nat] fuel
                          (Nat.pred lo) (hi_pred hi) y k) = Some z' ->
              exists t y c',
                k y = Some z' /\ caps y = [c'] /\ rest x = t ++ rest y
                /\ pos y = (pos x + length t)%nat /\ captured mb4 c' t).
    { intros z' Hz.
      apply utf8_group_step in Hz as (q & y1 & Hd & Hq & Hx1 & Hp1 & Hc1).
      cbn [clear_caps fold_right set_cap pos rest caps] in *.
      destruct (Nat.eqb lo 0 && Nat.eqb (pos y1) (pos x)); [discriminate Hd |].
      apply (IH _ _ _ _ _ (Some q)) in Hd
        as (t & y & c' & Hk & Hcy & Hx & Hp & Hcap).
      - exists (q ++ t), y, c'. unfold set_cap in Hx, Hp. cbn [pos rest] in Hx, Hp.
        split; [exact Hk |]. split; [exact Hcy |].
        split; [rewrite Hx1, Hx, app_assoc; reflexivity |].
        split; [rewrite Hp, Hp1, length_app; lia |].
        destruct Hcap as [[-> ->] | (q' & -> & Hq' & Hl)].
        + exists q. rewrite app_nil_r. auto.
        + exists q'. rewrite length_app. repeat split; auto. lia.
      - unfold set_cap. cbn [caps]. rewrite Hc1, Hc. reflexivity. }
    assert (Hnone : k x = Some z ->
              exists t y c',
                k y = Some z /\ caps y = [c'] /\ rest x = t ++ rest y
                /\ pos y = (pos x + length t)%nat
                /\ ((c' = c /\ t = []) \/ captured mb4 c' t)).
    { intros Hk. exists [], x, c. cbn.
      split; [exact Hk |]. split; [exact Hc |]. split; [reflexivity |].
      split; [lia |]. left. auto. }
    destruct (hi_zero hi).
    + exact (Hnone H).
    + destruct (Nat.eqb lo 0).
      * match type of H with
        | match ?e with _ => _ end = _ => destruct e as [z' |] eqn:E
        end.
        -- injection H as <-.
           destruct (Hstep z' eq_refl) as (t & y & c' & ?). exists t, y, c'.
           intuition.
        -- exact (Hnone H).
      * destruct (Hstep z H) as (t & y & c' & ?). exists t, y, c'. intuition.
Qed.

Lemma wellformed_sequence_nonempty (mb4 : bool) (q : jstring) :
  wellformed_sequence mb4 q = true -> (1 <= length q)%nat.
Proof. destruct q; cbn; [discriminate | lia]. Qed.

Lemma run_Alt (a b : re) (x : mstate) (k : cont) :
  run (Alt a b) x k
  = match run a x k with
    | Some z => Some z
    | None => run b x k
    end.
Proof. reflexivity. Qed.

Lemma run_Rep (lo : nat) (hi : option nat) (a : re) (x : mstate) (k : cont) :
  run (Rep lo hi a) x k
  = rep (run a) (groups a) (S (lo + length (rest x))) lo hi x k.
Proof. reflexivity. Qed.

Lemma run_Char (p : N -> bool) (x : mstate) (k : cont) :
  run (Char p) x k
  = match rest x with
    | u :: t => if p u then k (MState (S (pos x)) t (caps x)) else None
    | [] => None
    end.
Proof. reflexivity. Qed.

Lemma utf8_group_groups (mb4 : bool) :
  groups (Group 1 (utf8_sequence mb4)) = [1%nat].
Proof.
  cbn [groups]. rewrite (plain_groups _ (utf8_sequence_plain mb4)). reflexivity.
Qed.

(** A match of the filter: it consumes at least one code unit, and its
    capture is [undefined] or a well-formed sequence that is part of what
    it consumed. *)
Lemma utf8_filter_match (mb4 : bool) (i : nat) (s : jstring) (y : mstate) :
  match_at (utf8_filter mb4) i s = Some y ->
  exists t c,
    s = t ++ rest y /\ pos y = (i + length t)%nat /\ (1 <= length t)%nat
    /\ caps y = [c] /\ (c = None \/ captured mb4 c t).
Proof.
  unfold match_at, utf8_filter, start. cbn [pattern ngroups replicate].
  rewrite run_Alt, run_Rep, utf8_group_groups, run_Char. cbn [pos rest caps].
  match goal with
  | |- match ?e with _ => _ end = _ -> _ => destruct e as [z |] eqn:E
  end.
  - intros [= <-]. cbn [rep hi_zero Nat.eqb] in E.
    apply utf8_group_step in E as (q & y1 & Hd & Hq & Hx1 & Hp1 & Hc1).
    cbn [clear_caps fold_right set_cap pos rest caps andb] in *.
    apply (utf8_group_rep mb4 _ _ _ _ _ _ (Some q)) in Hd
      as (t & y & c & [= <-] & Hc & Hx & Hp & Hcap);
      [| unfold set_cap; cbn [caps]; rewrite Hc1; reflexivity].
    unfold set_cap in Hx, Hp. cbn [pos rest] in *. exists (q ++ t), c.
    pose proof (wellformed_sequence_nonempty _ _ Hq) as Hlen.
    split; [rewrite Hx1, Hx, app_assoc; reflexivity |].
    split; [rewrite Hp, Hp1, length_app; lia |].
    split; [rewrite length_app; lia |].
    split; [exact Hc |]. right.
    destruct Hcap as [[-> ->] | (q' & -> & Hq' & Hl)].
    + exists q. rewrite app_nil_r. auto.
    + exists q'. rewrite length_app. repeat split; auto. lia.
  - destruct s as [| u t]; [discriminate |].
    destruct (dot u); [| discriminate].
    intros [= <-]. exists [u], None. cbn. repeat split; auto. lia.
Qed.

(** Where the filter does not match, the code unit is one the dot does not
    match. *)
Lemma utf8_filter_no_match (mb4 : bool) (i : nat) (u : N) (t : jstring) :
  match_at (utf8_filter mb4) i (u :: t) = None -> dot u = false.
Proof.
  unfold match_at, utf8_filter, start. cbn [pattern ngroups replicate].
  rewrite run_Alt, run_Char. cbn [pos rest caps].
  match goal with
  | |- match ?e with _ => _ end = _ -> _ => destruct e; [discriminate |]
  end.
  destruct (dot u); [discriminate | reflexivity].
Qed.

Lemma utf8_filter_search (mb4 : bool) (s : jstring) :
  forall i,
    match search (utf8_filter mb4) i s with
    | Some (p, y) =>
        exists skipped s',
          s = skipped ++ s' /\ p = (i + length skipped)%nat
          /\ Forall (fun u => dot u = false) skipped
          /\ match_at (utf8_filter mb4) p s' = Some y
    | None => Forall (fun u => dot u = false) s
    end.
Proof.
  induction s as [| u t IH]; intros i; cbn [search].
  - destruct (match_at (utf8_filter mb4) i []) as [y |] eqn:E.
    + exists [], []. cbn [app length]. repeat split; auto; lia.
    + constructor.
  - destruct (match_at (utf8_filter mb4) i (u :: t)) as [y |] eqn:E.
    + exists [], (u :: t). cbn [app length]. repeat split; auto; lia.
    + apply utf8_filter_no_match in E. specialize (IH (S i)).
      destruct (search (utf8_filter mb4) (S i) t) as [[p y] |].
      * destruct IH as (skipped & s' & -> & -> & Hs & Hm).
        exists (u :: skipped), s'. cbn [app length]. repeat split; auto; lia.
      * constructor; assumption.
Qed.

Lemma wellformed_text_nil (mb4 : bool) : wellformed_text mb4 [].
Proof. exists []. split; [reflexivity | constructor]. Qed.

Lemma wellformed_text_app (mb4 : bool) (a b : jstring) :
  wellformed_text mb4 a -> wellformed_text mb4 b -> wellformed_text mb4 (a ++ b).
Proof.
  intros (pa & -> & Ha) (pb & -> & Hb). exists (pa ++ pb). split.
  - rewrite concat_app. reflexivity.
  - apply Forall_app. split; assumption.
Qed.

Lemma wellformed_text_sequence (mb4 : bool) (q : jstring) :
  wellformed_sequence mb4 q = true -> wellformed_text mb4 q.
Proof.
  intros H. exists [q]. split.
  - cbn. rewrite app_nil_r. reflexivity.
  - constructor; [left; exact H | constructor].
Qed.

Lemma wellformed_text_units (mb4 : bool) (P : N -> Prop) (l : jstring) :
  (forall u, P u -> wellformed_sequence mb4 [u] = true \/ line_separator [u]) ->
  Forall P l -> wellformed_text mb4 l.
Proof.
  intros HP Hl. exists (map (fun u => [u]) l). split.
  - induction l as [| u t IH]; cbn; [reflexivity |].
    apply Forall_cons_iff in Hl as [_ Ht]. rewrite <- IH; auto.
  - induction Hl as [| u t Hu Ht IH]; cbn; constructor; auto.
Qed.

Lemma wellformed_text_terminators (mb4 : bool) (l : jstring) :
  Forall (fun u => dot u = false) l -> wellformed_text mb4 l.
Proof.
  apply wellformed_text_units. intros u Hu.
  unfold dot, none_of, line_terminator, one_of in Hu. cbn in Hu.
  apply negb_false_iff in Hu.
  repeat (apply orb_true_iff in Hu as [Hu | Hu]);
    try (apply N.eqb_eq in Hu; subst u);
    try discriminate; unfold line_separator; cbn; auto.
Qed.

Lemma wellformed_text_ascii (mb4 : bool) (l : jstring) :
  Forall (fun u => u < 128) l -> wellformed_text mb4 l.
Proof.
  apply wellformed_text_units. intros u Hu. left. cbn.
  apply N.leb_le. lia.
Qed.

(** The result of [replace(regex, '$1')] from the collected matches. *)
Definition filtered (r : list (jstring * minfo) * jstring) : jstring :=
  concat (map (fun pm => fst pm ++ substitution (snd pm) (lit "$1")) (fst r))
  ++ snd r.

Lemma replace_filtered (mb4 : bool) (s : jstring) :
  replace (utf8_filter mb4) (lit "$1") s
  = filtered (match_all (utf8_filter mb4) s).
Proof.
  unfold replace, replace_fn, filtered.
  destruct (match_all (utf8_filter mb4) s) as [ms tl]. reflexivity.
Qed.

Lemma substitution_first_capture (i : nat) (t : jstring) (c : option jstring)
    (input : jstring) :
  substitution (MInfo i t [c] input) (lit "$1")
  = match c with Some q => q | None => [] end.
Proof.
  change (lit "$1") with [36; 49].
  destruct c as [q |]; [| reflexivity].
  transitivity (q ++ []); [reflexivity | apply app_nil_r].
Qed.

(** The filter leaves well-formed text, and nothing longer than its input. *)
Lemma utf8_filter_all (mb4 : bool) (input : jstring) (fuel : nat) :
  forall i s,
    (length s < fuel)%nat ->
    wellformed_text mb4 (filtered (match_all_from fuel (utf8_filter mb4) input i s))
    /\ (length (filtered (match_all_from fuel (utf8_filter mb4) input i s))
        <= length s)%nat.
Proof.
  induction fuel as [| fuel IH]; intros i s Hf; [lia |].
  cbn [match_all_from].
  pose proof (utf8_filter_search mb4 s i) as Hs.
  destruct (search (utf8_filter mb4) i s) as [[p y] |].
  - destruct Hs as (skipped & s' & -> & -> & Hsk & Hm).
    apply utf8_filter_match in Hm as (t & c & -> & Hp & Ht & Hc & Hcap).
    replace (i + length skipped - i)%nat with (length skipped) by lia.
    rewrite drop_app_length, take_app_length.
    replace (Nat.eqb (pos y) (i + length skipped)) with false
      by (symmetry; apply Nat.eqb_neq; lia).
    rewrite !length_app in Hf.
    destruct (IH (pos y) (rest y) ltac:(lia)) as [Hw Hl].
    destruct (match_all_from fuel (utf8_filter mb4) input (pos y) (rest y))
      as [ms tl].
    unfold filtered in *. cbn [fst snd map concat] in *.
    unfold info_of. rewrite Hc, substitution_first_capture.
    rewrite <- !app_assoc. split.
    + apply wellformed_text_app; [apply wellformed_text_terminators; exact Hsk |].
      apply wellformed_text_app; [| exact Hw].
      destruct Hcap as [-> | (q & -> & Hq & _)].
      * apply wellformed_text_nil.
      * apply wellformed_text_sequence. exact Hq.
    + rewrite !length_app. rewrite length_app in Hl.
      assert (length (match c with Some q => q | None => [] end) <= length t)%nat
        as Hq by (destruct Hcap as [-> | (q & -> & _ & Hq)]; cbn; lia).
      apply Nat.add_le_mono_l. apply Nat.add_le_mono; [exact Hq | exact Hl].
  - unfold filtered. cbn. split; [| lia].
    apply wellformed_text_terminators. exact Hs.
Qed.

Lemma utf8_length_two (s : jstring) :
  (length s <= utf8_length s)%nat
  /\ forall u, (length (u :: s) <= utf8_length (u :: s))%nat.
Proof.
  induction s as [| x t [IH1 IH2]].
  - split; [cbn; lia |]. intros u. cbn.
    repeat match goal with |- context [if ?b then _ else _] => destruct b end;
      lia.
  - split; [apply IH2 |]. intros u. specialize (IH2 x).
    cbn [utf8_length length] in *.
    repeat match goal with |- context [if ?b then _ else _] => destruct b end;
      lia.
Qed.

Lemma utf8_length_ge (s : jstring) : (length s <= utf8_length s)%nat.
Proof. apply utf8_length_two. Qed.

Lemma jstring_eqb_eq (a b : jstring) : jstring_eqb a b = true <-> a = b.
Proof. unfold jstring_eqb. apply bool_decide_eq_true. Qed.

Lemma land_127_lt (x : N) : N.land x 127 < 128.
Proof.
  change 127 with (N.ones 7). rewrite N.land_ones.
  apply N.mod_lt. discriminate.
Qed.

Lemma ascii_class_units (s : jstring) :
  existsb (none_of (either (one_of [92; 120; 48])
                      (either (between 48 92) (one_of [120; 55; 70])))) s
  = false ->
  Forall (fun u => u < 128) s.
Proof.
  induction s as [| u t IH]; [constructor |].
  cbn [existsb]. intros Ex. apply orb_false_iff in Ex as [Hu Ht].
  constructor; [| exact (IH Ht)].
  unfold none_of, either, one_of, between in Hu. cbn [existsb] in Hu.
  apply negb_false_iff in Hu.
  repeat (apply orb_true_iff in Hu as [Hu | Hu]);
    try (apply N.eqb_eq in Hu; subst u; reflexivity);
    try discriminate.
  apply andb_true_iff in Hu as [_ Hu]. apply N.leb_le in Hu. lia.
Qed.

(** A string that [checkAscii] accepts has code units below 128 only. *)
Lemma checkAscii_units (s : jstring) :
  checkAscii s = true -> Forall (fun u => u < 128) s.
Proof.
  unfold checkAscii.
  destruct (jstring_eqb (map (fun x => N.land (N.land x 255) 127) s) s) eqn:E.
  - intros _. apply jstring_eqb_eq in E.
    induction s as [| u t IH]; [constructor |].
    cbn in E. injection E as Hu Ht. constructor; [| auto].
    rewrite <- Hu. apply land_127_lt.
  - rewrite test_char_class.
    destruct (existsb _ s) eqn:Ex; cbn [negb]; [discriminate |]. intros _.
    apply ascii_class_units. exact Ex.
Qed.

Lemma utf8_family_cases (cs : jsval) (mb4 : bool) :
  utf8_family cs = Some mb4 ->
  exists t, cs = VStr t /\ jstring_eqb t (lit "latin1") = false.
Proof.
  destruct cs; cbn [utf8_family]; try discriminate.
  intros H. eexists. split; [reflexivity |].
  destruct (jstring_eqb s (lit "utf8mb4")) eqn:E4.
  - apply jstring_eqb_eq in E4. subst s. reflexivity.
  - destruct (jstring_eqb s (lit "utf8")) eqn:E8.
    + apply jstring_eqb_eq in E8. subst s. reflexivity.
    + destruct (jstring_eqb s (lit "utf8mb3")) eqn:E3; [| discriminate].
      apply jstring_eqb_eq in E3. subst s. reflexivity.
Qed.

(** The first truncation leaves at most [n] code units. *)
Lemma byte_truncation_length (n : Z) (s : jstring) :
  (0 <= n)%Z ->
  (Z.of_nat (length (if exceeds (utf8_length s) (CeilNum n)
                     then substring_0 n s else s)) <= n)%Z.
Proof.
  intros Hn. unfold exceeds, substring_0.
  destruct (Z.ltb_spec n (Z.of_nat (utf8_length s))).
  - rewrite length_take. lia.
  - pose proof (utf8_length_ge s). lia.
Qed.

Lemma byte_truncation_negative (n : Z) (s : jstring) :
  (n < 0)%Z ->
  (if exceeds (utf8_length s) (CeilNum n) then substring_0 n s else s) = [].
Proof.
  intros Hn. unfold exceeds, substring_0.
  destruct (Z.ltb_spec n (Z.of_nat (utf8_length s))); [| lia].
  replace (Z.to_nat n) with 0%nat by lia. reflexivity.
Qed.

(** After the filter the second truncation has nothing left to cut. *)
Lemma second_truncation_idle (n : Z) (s1 s2 : jstring) :
  (length s2 <= length s1)%nat ->
  ((0 <= n)%Z -> (Z.of_nat (length s1) <= n)%Z) ->
  ((n < 0)%Z -> s1 = []) ->
  (if exceeds (utf8_length s2) (CeilNum n) then slice_0 n s2 else s2) = s2.
Proof.
  intros Hl Hpos Hneg.
  destruct (exceeds (utf8_length s2) (CeilNum n)); [| reflexivity].
  unfold slice_0. destruct (Z.ltb_spec n 0).
  - rewrite (Hneg H) in Hl. destruct s2; [reflexivity | cbn in Hl; lia].
  - apply take_ge. specialize (Hpos H). lia.
Qed.

Lemma wellformed_sequence_units (mb4 : bool) (q : jstring) :
  wellformed_sequence mb4 q = true -> Forall (fun u => u <= 244) q.
Proof.
  destruct q as [| a [| b [| c [| d [| e q]]]]]; cbn; try discriminate;
    unfold continuation, between; intros H;
    repeat match goal with
      | H : _ && _ = true |- _ => apply andb_true_iff in H as [? ?]
      | H : _ || _ = true |- _ => apply orb_true_iff in H as [H | H]
      | H : N.leb _ _ = true |- _ => apply N.leb_le in H
      | H : N.eqb _ _ = true |- _ => apply N.eqb_eq in H
      end;
    repeat constructor; lia.
Qed.

Lemma wellformed_text_no_surrogate (mb4 : bool) (s : jstring) :
  wellformed_text mb4 s -> Forall (fun u => surrogate u = false) s.
Proof.
  intros (pieces & -> & H). induction H as [| q qs Hq _ IH]; cbn.
  - constructor.
  - apply Forall_app. split; [| exact IH].
    destruct Hq as [Hq | [-> | ->]].
    + apply wellformed_sequence_units in Hq.
      eapply Forall_impl; [exact Hq |]. intros u Hu. cbn in Hu.
      unfold surrogate, between. decide_cmp. reflexivity.
    + repeat constructor.
    + repeat constructor.
Qed.

(** What one round makes of a string under a utf8 charset and a byte
    ceiling. *)
Lemma strip_round_utf8 (v : text_value) (s : jstring) (mb4 : bool) (n : Z) :
  value v = VStr s ->
  utf8_family (charset v) = Some mb4 ->
  length_ v = LengthInfo (lit "byte") (CeilNum n) ->
  snd (strip_round v) = false
  /\ exists t,
       value (fst (strip_round v)) = VStr t
       /\ wellformed_text mb4 t
       /\ ((0 <= n)%Z -> (Z.of_nat (length t) <= n)%Z).
Proof.
  destruct v as [val cs asc len dbf]. cbn [value charset length_].
  intros -> Hcs ->.
  destruct (utf8_family_cases _ _ Hcs) as (t & -> & Hl).
  unfold strip_round.
  cbn [value charset ascii length_ db jstring_eqb orb andb].
  rewrite Hl, Hcs.
  replace (jstring_eqb (lit "byte") (lit "byte")) with true by reflexivity.
  cbn [orb andb].
  set (s1 := if exceeds (utf8_length s) (CeilNum n) then substring_0 (ceiling_num (CeilNum n)) s else s).
  assert (Hs1 : (0 <= n)%Z -> (Z.of_nat (length s1) <= n)%Z)
    by (intros; apply byte_truncation_length; assumption).
  assert (Hs1n : (n < 0)%Z -> s1 = [])
    by (intros; apply byte_truncation_negative; assumption).
  destruct (match asc with None => checkAscii s | Some _ => false end) eqn:Ea.
  - cbn. split; [reflexivity |]. exists s1. split; [reflexivity |].
    split; [| exact Hs1].
    apply wellformed_text_ascii.
    assert (Forall (fun u => u < 128) s) as Hs
      by (destruct asc; [discriminate | apply checkAscii_units; exact Ea]).
    subst s1. destruct (exceeds _ _); [| exact Hs].
    unfold substring_0. apply Forall_take. exact Hs.
  - cbn. split; [reflexivity |].
    rewrite replace_filtered. unfold match_all.
    destruct (utf8_filter_all mb4 s1 (S (length s1)) 0 s1 ltac:(lia)) as [Hw Hlen].
    pose proof (second_truncation_idle n s1 _ Hlen Hs1 Hs1n) as Hidle.
    unfold exceeds in Hidle. rewrite Hidle.
    eexists. split; [reflexivity |]. split; [exact Hw |].
    intros Hn. specialize (Hs1 Hn). lia.
Qed.

(** C5.  For a string value whose charset is [utf8], [utf8mb3] or [utf8mb4]
    and whose column has a byte ceiling, the value that [stripInvalidText]
    produces is well-formed text: a sequence of complete well-formed
    sequences (and line separators), with four-byte sequences only under
    [utf8mb4]; it holds no surrogate, and the truncation leaves no more
    code units than the ceiling. *)
Theorem stripInvalidText_utf8_wellformed (data out : list text_value) (i : nat)
    (v : text_value) (s : jstring) (mb4 : bool) (n : Z) :
  data !! i = Some v ->
  value v = VStr s ->
  utf8_family (charset v) = Some mb4 ->
  length_ v = LengthInfo (lit "byte") (CeilNum n) ->
  stripInvalidText data = Local out ->
  exists r t,
    out !! i = Some r /\ value r = VStr t
    /\ wellformed_text mb4 t
    /\ Forall (fun u => surrogate u = false) t
    /\ ((0 <= n)%Z -> (Z.of_nat (length t) <= n)%Z).
Proof.
  intros Hi Hv Hcs Hlen Hout.
  unfold stripInvalidText in Hout.
  destruct (existsb snd (map strip_round data)); [discriminate |].
  injection Hout as <-.
  destruct (strip_round_utf8 v s mb4 n Hv Hcs Hlen) as (_ & t & Ht & Hw & Hn).
  exists (fst (strip_round v)), t.
  split.
  - rewrite !list_lookup_fmap, Hi. reflexivity.
  - split; [exact Ht |]. split; [exact Hw |].
    split; [apply (wellformed_text_no_surrogate mb4); exact Hw | exact Hn].
Qed.

(** The bytes of "café" in UTF-8, one code unit each, in a [utf8mb4]
    column of four bytes. *)
Definition cafe : text_value :=
  TextValue (VStr (lit "caf" ++ [195; 169])) (VStr (lit "utf8mb4")) None
    (LengthInfo (lit "byte") (CeilNum 4)) false.

Lemma stripInvalidText_utf8_wellformed_witness :
  exists r t,
    [TextValue (VStr (lit "f")) (VStr (lit "utf8mb4")) None
       (LengthInfo (lit "byte") (CeilNum 4)) false] !! 0%nat = Some r
    /\ value r = VStr t
    /\ wellformed_text true t
    /\ Forall (fun u => surrogate u = false) t
    /\ ((0 <= 4)%Z -> (Z.of_nat (length t) <= 4)%Z).
Proof.
  apply (stripInvalidText_utf8_wellformed [cafe] _ 0 cafe
           (lit "caf" ++ [195; 169]) true 4); reflexivity.
Defined.

(** A call whose elements are all dealt with locally yields the rounds'
    results. *)
Lemma stripInvalidText_local (data : list text_value) :
  Forall (fun v => snd (strip_round v) = false) data ->
  stripInvalidText data = Local (map (fun v => fst (strip_round v)) data).
Proof.
  intros H. unfold stripInvalidText.
  replace (existsb snd (map strip_round data)) with false.
  - rewrite map_map. reflexivity.
  - symmetry. induction H as [| v vs Hv _ IH]; cbn; [reflexivity |].
    rewrite Hv, IH. reflexivity.
Qed.

(** What the filter keeps of a run of sequences is the last one: the group
    is inside the quantifier, and a capture holds its last iteration. *)
Lemma stripInvalidText_keeps_last_sequence :
  stripInvalidText
    [TextValue (VStr (lit "caf" ++ [195; 169] ++ lit " au lait"))
       (VStr (lit "utf8")) (Some false) LengthFalse false]
  = Local [TextValue (VStr (lit "t")) (VStr (lit "utf8")) (Some false)
             LengthFalse false].
Proof. vm_compute. reflexivity. Qed.

(** ** The charset of a table, from rows that can be iterated *)

Definition binary_column (h : host) (col : column) : Prop :=
  toUpperCase h (before (cu "(") (Type_ col)) ∈ binary_types.

Lemma scan_columns_binary (h : host) (cols : list column) :
  forall charsets,
    scan_columns h cols charsets = None <-> Exists (binary_column h) cols.
Proof.
  induction cols as [| col cols IH]; intros charsets; cbn [scan_columns].
  - split; [discriminate | intros H; inversion H].
  - destruct (bool_decide_reflect
                (toUpperCase h (before (cu "(") (Type_ col)) ∈ binary_types))
      as [Hb | Hb].
    + split; [intros _; left; exact Hb | reflexivity].
    + rewrite IH. split.
      * intros H. right. exact H.
      * intros H. inversion H; subst; [contradiction | assumption].
Qed.

(** Had the rows been awaited, a binary column would give ['binary'], and
    the result would be cached under the table key. *)
Lemma charset_from_rows_binary (h : host) (tableKey : jstring)
    (rows : list column) (st : state) :
  Exists (binary_column h)
    (obj_values
       (fold_left (fun o col => obj_set (toLowerCase h (Field col)) col o)
          rows [])) ->
  fst (charset_from_rows h tableKey rows st) = Normal (VStr (lit "binary"))
  /\ tableCharset (this (snd (charset_from_rows h tableKey rows st)))
       !! tableKey = Some (VStr (lit "binary")).
Proof.
  intros H. apply (scan_columns_binary h _ []) in H.
  unfold charset_from_rows, mbind, M_bind, get_this, put_this, mret, M_ret.
  cbn. rewrite H. split; [reflexivity |].
  destruct (this st). cbn. apply lookup_insert_eq.
Qed.

(** The resolution of lines 2212-2236 on the sets of the claim. *)
Lemma resolve_charsets_examples :
  resolve_charsets [] = VBool false
  /\ resolve_charsets [lit "utf8mb4"] = VStr (lit "utf8mb4")
  /\ resolve_charsets [lit "utf8mb3"] = VStr (lit "utf8")
  /\ resolve_charsets [lit "latin1"; lit "utf8mb4"] = VStr (lit "utf8mb4")
  /\ resolve_charsets [lit "utf8mb4"; lit "utf8"] = VStr (lit "utf8")
  /\ resolve_charsets [lit "utf8mb3"; lit "latin1"; lit "utf8mb4"]
     = VStr (lit "utf8")
  /\ resolve_charsets [lit "big5"; lit "utf8"] = VStr (lit "ascii")
  /\ resolve_charsets [lit "utf8"; lit "utf8mb4"; lit "big5"]
     = VStr (lit "ascii").
Proof. vm_compute. repeat split. Qed.

(** * Further properties

    Properties of the methods beyond the claims: what the code does on every
    input of the stated form. *)

Import Methods.

(** ** The matcher: equations and greedy runs *)

Lemma run_Seq (a b : re) (x : mstate) (k : cont) :
  run (Seq a b) x k = run a x (fun y => run b y k).
Proof. reflexivity. Qed.

Lemma run_Bol (x : mstate) (k : cont) :
  run Bol x k = if Nat.eqb (pos x) 0 then k x else None.
Proof. reflexivity. Qed.

Lemma run_Group (n : nat) (a : re) (x : mstate) (k : cont) :
  run (Group n a) x k
  = run a x (fun y => k (set_cap n (Some (take (pos y - pos x) (rest x))) y)).
Proof. reflexivity. Qed.

(** A match at the index where the search starts is the result of the
    search. *)
Lemma search_here (r : regexp) (i : nat) (s : jstring) (y : mstate) :
  match_at r i s = Some y -> search r i s = Some (i, y).
Proof. intros H. destruct s; cbn [search]; rewrite H; reflexivity. Qed.

(** The input does not go on with a member of the class [p]. *)
Definition stops (p : N -> bool) (r : jstring) : Prop :=
  match r with
  | u :: _ => p u = false
  | [] => True
  end.

(** A quantifier without upper bound over a class runs to the end of the
    members of the class when the continuation accepts that point. *)
Lemma rep_class (p : N -> bool) (k : cont) (z : mstate) (cs : list (option jstring))
    (r : jstring) :
  stops p r ->
  forall a lo fuel i,
    forallb p a = true ->
    (lo <= length a)%nat ->
    (lo + length (a ++ r) < fuel)%nat ->
    k (MState (i + length a) r cs) = Some z ->
    rep (run (Char p)) [] fuel lo None (MState i (a ++ r) cs) k = Some z.
Proof.
  intros Hr a. induction a as [| u a IH]; intros lo fuel i Ha Hlo Hf Hk.
  - cbn in Hlo. assert (lo = 0%nat) as -> by lia.
    destruct fuel as [| fuel]; [lia |].
    cbn [rep hi_zero clear_caps fold_right Nat.eqb app]. rewrite run_Char.
    cbn [rest]. cbn in Hk. rewrite Nat.add_0_r in Hk.
    destruct r as [| x r]; [exact Hk |].
    cbn in Hr. rewrite Hr. exact Hk.
  - destruct fuel as [| fuel]; [lia |].
    cbn [forallb] in Ha. apply andb_true_iff in Ha as [Hu Ha].
    cbn [rep hi_zero clear_caps fold_right app]. rewrite run_Char.
    cbn [rest pos caps]. rewrite Hu.
    replace (Nat.eqb (S i) i) with false by (symmetry; apply Nat.eqb_neq; lia).
    rewrite andb_false_r.
    assert (rep (run (Char p)) [] fuel (Nat.pred lo) (hi_pred None)
              (MState (S i) (a ++ r) cs) k = Some z) as Hrec.
    { apply IH; [exact Ha | cbn in Hlo; lia | cbn in Hf; lia |].
      cbn in Hk. rewrite <- Hk. f_equal. f_equal. lia. }
    rewrite Hrec. destruct (Nat.eqb lo 0); reflexivity.
Qed.

Lemma run_class (p : N -> bool) (lo : nat) (k : cont) (z : mstate)
    (cs : list (option jstring)) (a r : jstring) (i : nat) :
  stops p r ->
  forallb p a = true ->
  (lo <= length a)%nat ->
  k (MState (i + length a) r cs) = Some z ->
  run (Rep lo None (Char p)) (MState i (a ++ r) cs) k = Some z.
Proof.
  intros Hr Ha Hlo Hk. rewrite run_Rep. cbn [groups rest].
  apply rep_class; auto; lia.
Qed.

(** An optional part that cannot start is skipped. *)
Lemma run_opt_skip (a : re) (x : mstate) (k : cont) :
  (forall d, run a (clear_caps (groups a) x) d = None) ->
  run (opt a) x k = k x.
Proof.
  intros Ha. unfold opt. rewrite run_Rep.
  cbn [Nat.add rep hi_zero Nat.eqb]. rewrite Ha. reflexivity.
Qed.

(** An optional part that matches, with a continuation that accepts what it
    leaves, is taken. *)
Lemma run_opt_take (a : re) (x : mstate) (k : cont) (y z : mstate) :
  rest x <> [] ->
  pos y <> pos x ->
  (forall d, d y = Some z -> run a (clear_caps (groups a) x) d = Some z) ->
  k y = Some z ->
  run (opt a) x k = Some z.
Proof.
  intros Hx Hy Ha Hk. unfold opt. rewrite run_Rep.
  cbn [Nat.add rep hi_zero Nat.eqb]. rewrite Ha; [reflexivity |].
  replace (Nat.eqb (pos y) (pos x)) with false
    by (symmetry; apply Nat.eqb_neq; exact Hy).
  cbn [andb]. destruct (rest x) as [| u t]; [contradiction |].
  cbn [length Nat.add rep hi_pred Nat.pred hi_zero]. exact Hk.
Qed.

(** A quantifier that may match nothing, before a continuation that always
    accepts, always matches. *)
Lemma rep_total (m : mstate -> cont -> option mstate) (gs : list nat)
    (fuel : nat) (hi : option nat) (x : mstate) (k : cont) :
  (forall y, k y <> None) ->
  rep m gs (S fuel) 0 hi x k <> None.
Proof.
  intros Hk. cbn [rep Nat.eqb]. destruct (hi_zero hi); [apply Hk |].
  destruct (m _ _); [discriminate | apply Hk].
Qed.

(** ** Replacing every member of a class *)

Lemma search_char_class (p : N -> bool) (n : nat) (s : jstring) (i : nat) :
  (exists a x t, s = a ++ x :: t /\ forallb (fun u => negb (p u)) a = true
      /\ p x = true
      /\ search (RegExpOf (Char p) n) i s
         = Some ((i + length a)%nat,
                 MState (S (i + length a)) t (replicate n None)))
  \/ (forallb (fun u => negb (p u)) s = true
      /\ search (RegExpOf (Char p) n) i s = None).
Proof.
  revert i. induction s as [| x t IH]; intros i.
  - right. split; reflexivity.
  - cbn [search]. unfold match_at, start. cbn [run pattern ngroups rest pos caps].
    destruct (p x) eqn:Hx.
    + left. exists [], x, t. cbn. rewrite Nat.add_0_r. auto.
    + destruct (IH (S i)) as [(a & y & t' & -> & Ha & Hy & Hs) | [Ha Hs]].
      * left. exists (x :: a), y, t'. cbn. rewrite Hx. cbn.
        replace (i + S (length a))%nat with (S i + length a)%nat by lia.
        auto.
      * right. cbn. rewrite Hx. cbn. auto.
Qed.

Lemma flat_map_unmatched (p : N -> bool) (g : N -> list N) (a : jstring) :
  forallb (fun u => negb (p u)) a = true ->
  flat_map (fun u => if p u then g u else [u]) a = a.
Proof.
  induction a as [| u a IH]; cbn; [reflexivity |].
  intros H. apply andb_true_iff in H as [Hu Ha].
  destruct (p u); [discriminate |]. cbn. rewrite IH by exact Ha. reflexivity.
Qed.

Lemma match_all_char_class (p : N -> bool) (n : nat) (f : minfo -> jstring)
    (g : N -> jstring) (input : jstring) :
  (forall i u cs inp, f (MInfo i [u] cs inp) = g u) ->
  forall fuel i s,
    (length s < fuel)%nat ->
    (let '(ms, tl) := match_all_from fuel (RegExpOf (Char p) n) input i s in
     concat (map (fun pm => fst pm ++ f (snd pm)) ms) ++ tl)
    = flat_map (fun u => if p u then g u else [u]) s.
Proof.
  intros Hf fuel. induction fuel as [| fuel IH]; intros i s Hlen; [lia |].
  cbn [match_all_from].
  destruct (search_char_class p n s i) as [(a & x & t & -> & Ha & Hx & ->) | [Ha ->]].
  - replace (i + length a - i)%nat with (length a) by lia.
    rewrite drop_app_length, take_app_length.
    cbn [pos rest].
    replace (Nat.eqb (S (i + length a)) (i + length a)) with false
      by (symmetry; apply Nat.eqb_neq; lia).
    rewrite length_app in Hlen. cbn in Hlen.
    specialize (IH (S (i + length a)) t ltac:(lia)).
    destruct (match_all_from fuel (RegExpOf (Char p) n) input (S (i + length a)) t)
      as [ms tl].
    cbn [map concat fst snd]. unfold info_of. cbn [pos caps].
    replace (S (i + length a) - (i + length a))%nat with 1%nat by lia.
    cbn [take]. rewrite Hf.
    rewrite flat_map_app. cbn [flat_map]. rewrite Hx.
    rewrite flat_map_unmatched by exact Ha.
    rewrite <- IH. rewrite <- !app_assoc. reflexivity.
  - cbn. symmetry. apply flat_map_unmatched. exact Ha.
Qed.

(** A global replacement of a one-unit class rewrites the members of the
    class one by one and leaves every other code unit where it is. *)
Lemma replace_fn_char_class (p : N -> bool) (n : nat) (f : minfo -> jstring)
    (g : N -> jstring) (s : jstring) :
  (forall i u cs inp, f (MInfo i [u] cs inp) = g u) ->
  replace_fn (RegExpOf (Char p) n) f s
  = flat_map (fun u => if p u then g u else [u]) s.
Proof.
  intros Hf. unfold replace_fn, match_all.
  pose proof (match_all_char_class p n f g s Hf (S (length s)) 0%nat s ltac:(lia)) as H.
  destruct (match_all_from (S (length s)) (RegExpOf (Char p) n) s 0 s) as [ms tl].
  exact H.
Qed.

Lemma substitution_other (m : minfo) (u : N) (t : jstring) :
  u <> 36 -> substitution m (u :: t) = u :: substitution m t.
Proof.
  intros Hu. destruct u as [| q]; [reflexivity |].
  destruct q as [q | q |]; try reflexivity.
  destruct q as [q | q |]; try reflexivity.
  destruct q as [q | q |]; try reflexivity.
  destruct q as [q | q |]; try reflexivity.
  destruct q as [q | q |]; try reflexivity.
  destruct q as [q | q |]; try reflexivity.
  congruence.
Qed.

(** A replacement string without a dollar sign stands for itself. *)
Lemma substitution_plain (m : minfo) (t : jstring) :
  existsb (N.eqb 36) t = false -> substitution m t = t.
Proof.
  induction t as [| u t IH]; [reflexivity |].
  cbn [existsb]. intros H. apply orb_false_iff in H as [Hu Ht].
  apply N.eqb_neq in Hu.
  rewrite substitution_other by congruence. rewrite IH by exact Ht. reflexivity.
Qed.

(** ** Identifiers and [LIKE] phrases *)

(** How MySQL reads a quoted identifier: between the enclosing backticks a
    doubled backtick is one backtick; [None] when the text is not one quoted
    identifier. *)
Fixpoint identifier_body (s : jstring) : option jstring :=
  match s with
  | [] => None
  | u :: t =>
      if N.eqb u 96 then
        match t with
        | [] => Some []
        | x :: t' =>
            if N.eqb x 96 then option_map (cons 96) (identifier_body t')
            else None
        end
      else option_map (cons u) (identifier_body t)
  end.

Definition read_identifier (s : jstring) : option jstring :=
  match s with
  | u :: t => if N.eqb u 96 then identifier_body t else None
  | [] => None
  end.

Lemma escapeIdentifierValue_units (s : jstring) :
  escapeIdentifierValue (VStr s)
  = Normal (flat_map (fun u => if N.eqb u 96 then [96; 96] else [u]) s).
Proof.
  unfold escapeIdentifierValue, replace, c. f_equal.
  apply (replace_fn_char_class (chr (cu "`")) 0 _ (fun _ => [96; 96])).
  intros. reflexivity.
Qed.

Lemma identifier_body_doubled (s : jstring) :
  identifier_body
    (flat_map (fun u => if N.eqb u 96 then [96; 96] else [u]) s ++ [96])
  = Some s.
Proof.
  induction s as [| u s IH]; [reflexivity |].
  cbn [flat_map]. destruct (N.eqb u 96) eqn:Hu.
  - apply N.eqb_eq in Hu. subst u. cbn. cbn in IH. rewrite IH. reflexivity.
  - cbn [app identifier_body]. rewrite Hu, IH. reflexivity.
Qed.

(** X1.  [quoteIdentifier] of a string is a quoted identifier that MySQL reads
    back as that string, whatever backticks the string holds; a value that
    is not a string makes it throw a [TypeError]. *)
Theorem quoteIdentifier_read_back (identifier : jsval) :
  match identifier with
  | VStr s =>
      exists q, quoteIdentifier identifier = Normal q
                /\ read_identifier q = Some s
  | _ => quoteIdentifier identifier = Throw TypeError
  end.
Proof.
  destruct identifier as [| | b | n | | s | l | l | m |]; try reflexivity.
  unfold quoteIdentifier. rewrite escapeIdentifierValue_units.
  eexists. split; [reflexivity |].
  change (lit "`") with [96]. cbn [app read_identifier N.eqb Pos.eqb].
  apply identifier_body_doubled.
Qed.

(** How a [LIKE] phrase is read, with the backslash as the escape
    character: an escaped code unit stands for itself, a bare percent sign
    and a bare underscore are wildcards. *)
Inductive like_token : Type :=
| Literal (u : N)
| AnyString
| AnyChar.

Fixpoint like_tokens (s : jstring) : list like_token :=
  match s with
  | [] => []
  | u :: t =>
      if N.eqb u 92 then
        match t with
        | x :: t' => Literal x :: like_tokens t'
        | [] => [Literal 92]
        end
      else if N.eqb u 37 then AnyString :: like_tokens t
      else if N.eqb u 95 then AnyChar :: like_tokens t
      else Literal u :: like_tokens t
  end.

Lemma escLike_units (s : jstring) :
  escLike (VStr s)
  = Normal (flat_map (fun u => if like_special u then [92; u] else [u]) s).
Proof.
  unfold escLike, replace. f_equal.
  apply (replace_fn_char_class like_special 0 _ (fun u => [92; u])).
  intros. reflexivity.
Qed.

(** X2.  The phrase that [escLike] makes of a text is read by [LIKE] as that
    text, code unit by code unit: no wildcard is left in it. *)
Theorem escLike_literal (s : jstring) :
  exists q, escLike (VStr s) = Normal q /\ like_tokens q = map Literal s.
Proof.
  rewrite escLike_units. eexists. split; [reflexivity |].
  induction s as [| u s IH]; [reflexivity |].
  cbn [flat_map map]. unfold like_special at 1, one_of. cbn [existsb].
  destruct (N.eqb u 92) eqn:H92.
  - apply N.eqb_eq in H92. subst u. cbn. cbn in IH. rewrite IH. reflexivity.
  - destruct (N.eqb u 37) eqn:H37.
    + apply N.eqb_eq in H37. subst u. cbn. cbn in IH. rewrite IH. reflexivity.
    + destruct (N.eqb u 95) eqn:H95.
      * apply N.eqb_eq in H95. subst u. cbn. cbn in IH. rewrite IH. reflexivity.
      * cbn [orb app like_tokens]. rewrite H92, H37, H95, IH. reflexivity.
Qed.

(** ** The placeholder escape *)

(** The placeholder in force in a state: the stored one, or the one that the
    next call of [placeholderEscape] generates. *)
Definition placeholder_of (h : host) (st : state) : jstring :=
  match _placeholder (this st) with
  | Some (u :: t) => u :: t
  | _ => lit "{" ++ digest h ++ lit "}"
  end.

Lemma placeholderEscape_value (h : host) (st : state) :
  fst (placeholderEscape h st) = Normal (placeholder_of h st)
  /\ placeholder_of h (snd (placeholderEscape h st)) = placeholder_of h st
  /\ proc (snd (placeholderEscape h st)) = proc st.
Proof.
  destruct st as [i p]. unfold placeholderEscape, placeholder_of.
  destruct i as [a pl ? ? ? ? ? ? ? ? ? ? ? ? ? ? ? ?].
  destruct pl as [[| u t] |]; cbn; auto.
Qed.


Lemma addPlaceholderEscape_units (h : host) (query : jstring) (st : state) :
  includes_unit 36 (placeholder_of h st) = false ->
  fst (addPlaceholderEscape h query st)
  = Normal (flat_map (fun u => if N.eqb u 37 then placeholder_of h st else [u])
              query).
Proof.
  intros Hd. unfold addPlaceholderEscape.
  destruct (placeholderEscape_value h st) as (Hv & _ & _).
  unfold mbind, M_bind. destruct (placeholderEscape h st) as [r st1].
  cbn in Hv. subst r. cbn. f_equal. unfold replace, c.
  apply (replace_fn_char_class (chr (cu "%")) 0 _ (fun _ => placeholder_of h st)).
  intros. apply substitution_plain.
  exact Hd.
Qed.

Lemma flat_map_no_percent (token q : jstring) :
  includes_unit 37 token = false ->
  includes_unit 37
    (flat_map (fun u => if N.eqb u 37 then token else [u]) q) = false.
Proof.
  intros Ht. unfold includes_unit in *.
  induction q as [| u q IH]; [reflexivity |].
  cbn [flat_map]. rewrite existsb_app, IH, orb_false_r.
  destruct (N.eqb u 37) eqn:Hu; [exact Ht |].
  cbn [existsb]. rewrite N.eqb_sym, Hu. reflexivity.
Qed.

(** X4.  With a placeholder that holds neither a dollar sign nor a percent
    sign, [addPlaceholderEscape] puts the placeholder in the place of every
    percent sign, leaves every other code unit where it is, and its result
    holds no percent sign. *)
Theorem addPlaceholderEscape_no_percent (h : host) (query : jstring) (st : state) :
  includes_unit 36 (placeholder_of h st) = false ->
  includes_unit 37 (placeholder_of h st) = false ->
  exists q,
    fst (addPlaceholderEscape h query st) = Normal q
    /\ q = flat_map (fun u => if N.eqb u 37 then placeholder_of h st else [u]) query
    /\ includes_unit 37 q = false.
Proof.
  intros Hd Hp. eexists. split; [apply addPlaceholderEscape_units; exact Hd |].
  split; [reflexivity |]. apply flat_map_no_percent. exact Hp.
Qed.

(** A host whose digest is made of hexadecimal digits. *)
Definition hex_host : host :=
  Host (fun s => s) (lit "0f3a") (fun v => v) (fun _ => 0%Z)
    (fun s => s) (fun s => s).

Lemma addPlaceholderEscape_no_percent_witness :
  exists q,
    fst (addPlaceholderEscape hex_host (lit "LIKE 'a%'")
           (State fresh (quiet CreateRejected))) = Normal q
    /\ q = lit "LIKE 'a{0f3a}'".
Proof.
  destruct (addPlaceholderEscape_no_percent hex_host (lit "LIKE 'a%'")
              (State fresh (quiet CreateRejected)) eq_refl eq_refl)
    as (q & Hq & Hv & _).
  exists q. split; [exact Hq |]. rewrite Hv. vm_compute. reflexivity.
Defined.

Lemma bind_normal {A B} (c : M A) (k : A -> M B) (st : state) (b : B)
    (st2 : state) :
  (x ← c; k x) st = (Normal b, st2) ->
  exists a st1, c st = (Normal a, st1) /\ k a st1 = (Normal b, st2).
Proof.
  unfold mbind, M_bind. destruct (c st) as [[a | e] st1]; intros H.
  - eauto.
  - discriminate H.
Qed.

Lemma escape_args_this (h : host) (ids : list (option Z)) (args : list jsval) :
  forall i st, this (snd (escape_args h ids args i st)) = this st.
Proof.
  induction args as [| v more IH]; intros i st; [reflexivity |].
  cbn [escape_args]. unfold mbind at 1, M_bind at 1.
  match goal with
  | |- context [match ?c st with _ => _ end] =>
      assert (this (snd (c st)) = this st) as Hc;
        [| destruct (c st) as [[a | e] st1]; cbn in Hc; [| exact Hc] ]
  end.
  - destruct (bool_decide _).
    + unfold mbind, M_bind, lift. destruct (escapeIdentifierValue v); reflexivity.
    + destruct v; unfold mbind, M_bind, lift, warn, mret, M_ret; cbn;
        try reflexivity.
  - unfold mbind, M_bind. specialize (IH (S i) st1).
    destruct (escape_args h ids more (S i) st1) as [[o | e] st2]; cbn in *;
      congruence.
Qed.

(** X5.  Whenever [prepare] returns a string, that string holds no percent
    sign (the placeholder holding neither a dollar sign nor a percent sign):
    the percent signs of the query and of the arguments have all been
    replaced. *)
Theorem prepare_no_percent (h : host) (query : jstring) (args : list jsval)
    (st : state) (s : jstring) :
  includes_unit 36 (placeholder_of h st) = false ->
  includes_unit 37 (placeholder_of h st) = false ->
  fst (prepare h query args st) = Normal (VStr s) ->
  includes_unit 37 s = false.
Proof.
  intros Hd Hp. unfold prepare.
  destruct (includes_unit (cu "%") query) eqn:Hq; cbn [negb].
  - cbv zeta.
    set (sq := split placeholder_split _).
    intros H.
    match type of H with fst (?c st) = _ =>
      destruct (c st) as [r st2] eqn:Hc end.
    cbn in H. subst r.
    apply bind_normal in Hc as (i & st1 & Hi & Hc).
    unfold get_this in Hi. injection Hi as <- <-.
    apply bind_normal in Hc as ([r key] & st1 & Hl & Hc).
    unfold lift in Hl. injection Hl as Hl <-.
    destruct (filter _ (argIdentifiers r)) as [| d ds].
    + apply bind_normal in Hc as (early & st1 & He & Hc).
      assert (this st1 = this st
              /\ (early = None \/ early = Some VNull \/ early = Some (VStr [])))
        as [Hthis Hearly].
      { revert He. unfold mbind, M_bind, warn, mret, M_ret, lift.
        repeat match goal with
          | |- context [if ?b then _ else _] => destruct b
          | |- context [match max_numbered ?a ?b ?c ?d with _ => _ end] =>
              destruct (max_numbered a b c d)
          end; cbn; intros He; inversion He; subst; cbn; auto. }
      destruct Hearly as [-> | [-> | ->]].
      * apply bind_normal in Hc as (esc & st3 & Hesc & Hc).
        destruct (match_all percent_sign _) as [ms tail].
        apply bind_normal in Hc as (q & st4 & Hadd & Hc).
        unfold mret, M_ret in Hc. injection Hc as <- _.
        assert (this st3 = this st) as Hthis3.
        { pose proof (escape_args_this h (argIdentifiers r)
                        (match args with [VArr l] => l | _ => args end) 0 st1) as E.
          rewrite Hesc in E. cbn in E. congruence. }
        assert (placeholder_of h st3 = placeholder_of h st) as Hpl
          by (unfold placeholder_of; rewrite Hthis3; reflexivity).
        pose proof (addPlaceholderEscape_units h (fill ms esc ++ tail) st3) as Hu.
        rewrite Hpl in Hu. specialize (Hu Hd). rewrite Hadd in Hu. cbn in Hu.
        injection Hu as ->. apply flat_map_no_percent. exact Hp.
      * unfold mret, M_ret in Hc. discriminate Hc.
      * unfold mret, M_ret in Hc. injection Hc as <- _.
        reflexivity.
    + apply bind_normal in Hc as (u & st1 & _ & Hc).
      destruct (Nat.ltb 2 (length sq)); discriminate Hc.
  - unfold mbind, M_bind, warn, mret, M_ret. cbn. intros H. injection H as <-.
    exact Hq.
Qed.

Lemma prepare_no_percent_witness :
  fst (prepare hex_host (lit "LIKE %1$s") [VStr (lit "50%")]
         (State fresh (quiet CreateRejected)))
  = Normal (VStr (lit "LIKE 50{0f3a}1$s1$"))
  /\ includes_unit 37 (lit "LIKE 50{0f3a}1$s1$") = false.
Proof.
  assert (fst (prepare hex_host (lit "LIKE %1$s") [VStr (lit "50%")]
                 (State fresh (quiet CreateRejected)))
          = Normal (VStr (lit "LIKE 50{0f3a}1$s1$"))) as H
    by (vm_compute; reflexivity).
  split; [exact H |].
  exact (prepare_no_percent hex_host (lit "LIKE %1$s") [VStr (lit "50%")]
           (State fresh (quiet CreateRejected)) _ eq_refl eq_refl H).
Defined.

Lemma starts_with_app (t a b : jstring) :
  starts_with t a = true -> starts_with t (a ++ b) = true.
Proof.
  revert a. induction t as [| x t IH]; intros [| y a]; cbn; try discriminate;
    auto.
  intros H. apply andb_true_iff in H as [-> H]. cbn. auto.
Qed.

(** [t] occurs in [s]: [s.includes(t)]. *)
Fixpoint occurs (t s : jstring) : bool :=
  starts_with t s
  || match s with
     | [] => false
     | _ :: s' => occurs t s'
     end.

Lemma literal_match (P : jstring) :
  forall (i : nat) (s : jstring) (cs : list (option jstring)) (k : cont),
    run (literal P) (MState i s cs) k
    = if starts_with P s
      then k (MState (i + length P) (drop (length P) s) cs)
      else None.
Proof.
  unfold literal. induction P as [| x P IH]; intros i s cs k.
  - cbn. rewrite Nat.add_0_r. reflexivity.
  - assert (run (Seq (Char (chr x)) (seqs (map (fun u => Char (chr u)) P)))
              (MState i s cs) k
            = if starts_with (x :: P) s
              then k (MState (i + length (x :: P)) (drop (length (x :: P)) s) cs)
              else None) as Hseq.
    { rewrite run_Seq, run_Char. cbn [rest pos caps].
      destruct s as [| y s]; [reflexivity |].
      cbn [starts_with]. unfold chr at 1. rewrite (N.eqb_sym y x).
      destruct (N.eqb x y); cbn [andb]; [| reflexivity].
      rewrite IH. cbn [length drop].
      replace (S i + length P)%nat with (i + S (length P))%nat by lia.
      reflexivity. }
    destruct P as [| x' P']; [| exact Hseq].
    cbn [map seqs]. rewrite run_Char. cbn [rest pos caps].
    destruct s as [| y s]; [reflexivity |].
    cbn [starts_with length drop]. unfold chr. rewrite (N.eqb_sym y x).
    destruct (N.eqb x y); cbn [andb]; [| reflexivity].
    replace (i + 1)%nat with (S i) by lia. destruct s; reflexivity.
Qed.

Lemma literal_match_at (P : jstring) (i : nat) (s : jstring) :
  match_at (RegExpOf (literal P) 0) i s
  = if starts_with P s
    then Some (MState (i + length P) (drop (length P) s) [])
    else None.
Proof. unfold match_at, start. cbn [pattern ngroups replicate]. apply literal_match. Qed.

Lemma occurs_tail (P : jstring) (a t : jstring) :
  occurs P (a ++ t) = false -> occurs P t = false.
Proof.
  induction a as [| x a IH]; [auto |].
  cbn [app occurs]. intros H. apply orb_false_iff in H as [_ H]. auto.
Qed.

Lemma occurs_here (P s : jstring) :
  occurs P s = false -> starts_with P s = false.
Proof. destruct s; cbn; intros H; apply orb_false_iff in H as [H _]; exact H. Qed.

Lemma search_none (P : jstring) (s : jstring) (i : nat) :
  occurs P s = false -> search (RegExpOf (literal P) 0) i s = None.
Proof.
  revert i. induction s as [| x s IH]; intros i H.
  - cbn [search]. rewrite literal_match_at.
    cbn in H. rewrite orb_false_r in H. rewrite H. reflexivity.
  - cbn [search]. rewrite literal_match_at.
    cbn [occurs] in H. apply orb_false_iff in H as [H1 H2].
    rewrite H1. apply IH. exact H2.
Qed.

Lemma no_overlap (t : jstring) :
  forallb (fun u => negb (N.eqb u 123)) t = true ->
  forall a w, starts_with t (a ++ 123 :: w) = true -> starts_with t a = true.
Proof.
  induction t as [| x t IH]; intros Ht a w; [destruct a; reflexivity |].
  cbn [forallb] in Ht. apply andb_true_iff in Ht as [Hx Ht].
  destruct a as [| y a]; cbn [app starts_with].
  - intros H. apply andb_true_iff in H as [H _]. apply N.eqb_eq in H. subst x.
    discriminate Hx.
  - intros H. apply andb_true_iff in H as [-> H]. cbn [andb]. eauto.
Qed.

Lemma starts_with_self (P w : jstring) : starts_with P (P ++ w) = true.
Proof. induction P; cbn; [reflexivity |]. rewrite N.eqb_refl. exact IHP. Qed.

Lemma search_skip (P body : jstring) (w t : jstring) :
  P = 123 :: body ->
  forallb (fun u => negb (N.eqb u 123)) body = true ->
  forall a i,
    occurs P (a ++ t) = false ->
    search (RegExpOf (literal P) 0) i (a ++ P ++ w)
    = Some ((i + length a)%nat, MState (i + length a + length P) w []).
Proof.
  intros HP Hb a. induction a as [| x a IH]; intros i Ho.
  - rewrite app_nil_l. cbn [length]. rewrite Nat.add_0_r.
    apply search_here. rewrite literal_match_at, starts_with_self.
    rewrite drop_app_length. reflexivity.
  - rewrite <- app_comm_cons. cbn [search]. rewrite literal_match_at.
    replace (starts_with P (x :: a ++ P ++ w)) with false.
    + rewrite <- app_comm_cons in Ho. cbn [occurs] in Ho.
      apply orb_false_iff in Ho as [_ Ho].
      rewrite (IH (S i) Ho). cbn [length]. do 2 f_equal; [lia |].
      f_equal. lia.
    + symmetry. apply occurs_here in Ho. rewrite <- app_comm_cons in Ho.
      rewrite HP in Ho |- *. cbn [starts_with] in Ho |- *.
      destruct (N.eqb 123 x); [| reflexivity]. cbn [andb] in *.
      destruct (starts_with body (a ++ (123 :: body) ++ w)) eqn:E;
        [| reflexivity].
      rewrite <- app_comm_cons in E.
      apply (no_overlap body Hb) in E.
      rewrite (starts_with_app body a t E) in Ho. discriminate Ho.
Qed.

(** The query with the placeholder [P] in the place of every percent sign. *)
Definition escaped_with (P : jstring) (q : jstring) : jstring :=
  flat_map (fun u => if N.eqb u 37 then P else [u]) q.

Lemma percent_split (q : jstring) :
  (exists a q', q = a ++ 37 :: q'
                /\ forallb (fun u => negb (N.eqb u 37)) a = true)
  \/ forallb (fun u => negb (N.eqb u 37)) q = true.
Proof.
  induction q as [| u q IH]; [right; reflexivity |].
  destruct (N.eqb u 37) eqn:Hu.
  - apply N.eqb_eq in Hu. subst u. left. exists [], q. auto.
  - destruct IH as [(a & q' & -> & Ha) | Hq].
    + left. exists (u :: a), q'. cbn. rewrite Hu. auto.
    + right. cbn. rewrite Hu. exact Hq.
Qed.

Lemma unescape_all (P body : jstring) (input : jstring) :
  P = 123 :: body ->
  forallb (fun u => negb (N.eqb u 123)) body = true ->
  forall fuel q i,
    (length (escaped_with P q) < fuel)%nat ->
    occurs P q = false ->
    (let '(ms, tl) :=
       match_all_from fuel (RegExpOf (literal P) 0) input i (escaped_with P q) in
     concat (map (fun pm => fst pm ++ substitution (snd pm) (lit "%")) ms) ++ tl)
    = q.
Proof.
  intros HP Hb fuel. induction fuel as [| fuel IH]; intros q i Hlen Ho; [lia |].
  cbn [match_all_from].
  destruct (percent_split q) as [(a & q' & -> & Ha) | Hq].
  - unfold escaped_with in *. rewrite flat_map_app in *. cbn [flat_map] in *.
    rewrite N.eqb_refl in *.
    rewrite (flat_map_unmatched (fun u => N.eqb u 37) (fun _ => P) a Ha) in *.
    rewrite (search_skip P body _ (37 :: q') HP Hb a i Ho).
    replace (i + length a - i)%nat with (length a) by lia.
    rewrite drop_app_length, take_app_length. cbn [pos rest].
    replace (Nat.eqb (i + length a + length P) (i + length a)) with false
      by (symmetry; apply Nat.eqb_neq; rewrite HP; cbn; lia).
    rewrite !length_app in Hlen.
    assert (0 < length P)%nat as HlP by (rewrite HP; cbn; lia).
    specialize (IH q' (i + length a + length P)%nat ltac:(lia)
                  (occurs_tail P (a ++ [37]) q'
                     ltac:(rewrite <- app_assoc; exact Ho))).
    destruct (match_all_from fuel _ input _ _) as [ms tl].
    cbn [map concat fst snd]. rewrite <- IH.
    replace (substitution _ (lit "%")) with [37] by reflexivity.
    rewrite <- !app_assoc. reflexivity.
  - unfold escaped_with.
    rewrite (flat_map_unmatched (fun u => N.eqb u 37) (fun _ => P) q Hq).
    rewrite (search_none P q i Ho). reflexivity.
Qed.

Lemma generated_shape (token : jstring) :
  generated token = true ->
  exists body,
    token = 123 :: body
    /\ forallb (fun u => negb (N.eqb u 123)) body = true
    /\ includes_unit 36 token = false.
Proof.
  unfold generated. destruct token as [| x body]; [discriminate |].
  destruct (N.eqb x 123) eqn:Hx;
    [apply N.eqb_eq in Hx; subst x |
     intros H; exfalso; revert H;
     destruct x as [| p]; try discriminate;
     do 7 (destruct p as [p | p |]; try discriminate);
     cbn in Hx; discriminate].
  destruct (last body) as [e |] eqn:Hl; [| discriminate].
  destruct (N.eqb e 125) eqn:He;
    [apply N.eqb_eq in He; subst e |
     intros H; exfalso; revert H;
     destruct e as [| p]; try discriminate;
     do 7 (destruct p as [p | p |]; try discriminate);
     cbn in He; discriminate].
  intros H. apply andb_true_iff in H as [Hhex _].
  exists body. split; [reflexivity |].
  assert (body = removelast body ++ [125]) as Hbody.
  { destruct body as [| b0 body]; [discriminate Hl |].
    rewrite (app_removelast_last 0 (l := b0 :: body)) at 1 by discriminate.
    f_equal. f_equal.
    rewrite last_lookup in Hl. cbn [length Nat.pred] in Hl.
    clear -Hl. revert b0 Hl. induction body as [| b1 body IH]; intros b0 Hl.
    - cbn in Hl. injection Hl as ->. reflexivity.
    - cbn [List.last]. apply (IH b1). exact Hl. }
  assert (forall (q : N -> bool),
            (forall u, hex_digit u = true -> q u = true) -> q 125 = true ->
            forallb q body = true) as Hall.
  { intros q Hq H125. rewrite Hbody, forallb_app. cbn. rewrite H125.
    rewrite andb_true_r.
    clear -Hhex Hq. induction (removelast body) as [| u l IH]; [reflexivity |].
    cbn in *. apply andb_true_iff in Hhex as [Hu Hl].
    rewrite (Hq u Hu). auto. }
  assert (forall u x, hex_digit u = true -> x < 48 \/ 102 < x ->
                      negb (N.eqb u x) = true) as Hne.
  { intros u x Hu Hx. apply negb_true_iff, N.eqb_neq. intros ->.
    unfold hex_digit, either, digit, between in Hu.
    apply orb_true_iff in Hu as [Hu | Hu];
      apply andb_true_iff in Hu as [H1 H2];
      apply N.leb_le in H1; apply N.leb_le in H2; lia. }
  split.
  - apply Hall; [| reflexivity]. intros u Hu. apply Hne; [exact Hu | lia].
  - unfold includes_unit. cbn [existsb]. change (N.eqb 36 123) with false.
    cbn [orb].
    assert (forallb (fun u => negb (N.eqb u 36)) body = true) as H36
      by (apply Hall; [| reflexivity]; intros u Hu; apply Hne; [exact Hu | lia]).
    clear -H36. induction body as [| u l IH]; [reflexivity |].
    cbn [existsb forallb] in *. apply andb_true_iff in H36 as [Hu Hl].
    rewrite N.eqb_sym. apply negb_true_iff in Hu. rewrite Hu. auto.
Qed.

(** X6.  [removePlaceholderEscape] undoes [addPlaceholderEscape]: for a
    generated placeholder and a query in which the placeholder does not
    occur, escaping and then unescaping gives the query back. *)
Theorem removePlaceholderEscape_addPlaceholderEscape (h : host)
    (query : jstring) (st : state) :
  generated (placeholder_of h st) = true ->
  occurs (placeholder_of h st) query = false ->
  exists q st1,
    addPlaceholderEscape h query st = (Normal q, st1)
    /\ fst (removePlaceholderEscape h q st1) = Normal (Some query).
Proof.
  intros Hg Ho.
  destruct (generated_shape _ Hg) as (body & HP & Hb & H36).
  pose proof (addPlaceholderEscape_units h query st H36) as Hadd.
  destruct (addPlaceholderEscape h query st) as [r st1] eqn:Hrun.
  cbn [fst] in Hadd. subst r.
  exists (escaped_with (placeholder_of h st) query), st1.
  split; [reflexivity |].
  assert (placeholder_of h st1 = placeholder_of h st) as Hsame.
  { unfold addPlaceholderEscape, mbind, M_bind in Hrun.
    destruct (placeholderEscape_value h st) as (_ & Hp & _).
    destruct (placeholderEscape h st) as [[t | e] st'];
      cbn in Hrun; injection Hrun as _ <-; exact Hp. }
  unfold removePlaceholderEscape, mbind, M_bind.
  destruct (placeholderEscape_value h st1) as (Hv & _ & _).
  destruct (placeholderEscape h st1) as [r st2]. cbn [fst] in Hv. subst r.
  rewrite Hsame, Hg. cbn [mret M_ret fst]. do 2 f_equal.
  unfold replace, replace_fn, match_all.
  pose proof (unescape_all (placeholder_of h st) body
                (escaped_with (placeholder_of h st) query) HP Hb
                (S (length (escaped_with (placeholder_of h st) query)))
                query 0 ltac:(lia) Ho) as H.
  destruct (match_all_from _ _ _ 0 _) as [ms tl]. exact H.
Qed.

Lemma removePlaceholderEscape_addPlaceholderEscape_witness :
  exists q st1,
    addPlaceholderEscape hex_host (lit "LIKE '50%'")
      (State fresh (quiet CreateRejected)) = (Normal q, st1)
    /\ fst (removePlaceholderEscape hex_host q st1)
       = Normal (Some (lit "LIKE '50%'")).
Proof.
  apply removePlaceholderEscape_addPlaceholderEscape; vm_compute; reflexivity.
Defined.

(** ** Prefixes and blog ids *)

(** X7.  [setPrefix(prefix, false)] with a valid prefix returns the old base
    prefix (on an instance without one: the empty string on a multisite, the
    new prefix itself otherwise); afterwards [getBlogPrefix] on a single
    site is the new prefix for every blog id, and a second call returns the
    first prefix as the old one. *)
Theorem setPrefix_without_table_names (prefix next : jstring) (st : state)
    (blogId : option Z) :
  has_invalid_unit prefix = false ->
  has_invalid_unit next = false ->
  let r := setPrefix prefix false st in
  fst r = Normal (VStr (match basePrefix (this st) with
                        | _ :: _ => basePrefix (this st)
                        | [] => if env_set (proc st) "IS_MULTISITE" then []
                                else prefix
                        end))
  /\ (env_set (proc st) "IS_MULTISITE" = false ->
      getBlogPrefix (snd r) blogId = prefix)
  /\ (prefix <> [] ->
      fst (setPrefix next false (snd r)) = Normal (VStr prefix)).
Proof.
  intros Hp Hn. unfold setPrefix. rewrite !invalid_prefix_test, Hp, Hn.
  destruct st as [i p].
  destruct i as [a pl bp ? ? ? ? ? ? ? ? ? ? ? ? ? ? ?].
  unfold mbind, M_bind, get_this, get_proc, put_this, mret, M_ret.
  cbn -[env_set]. split; [| split].
  - destruct bp; reflexivity.
  - intros Hm. unfold getBlogPrefix. cbn -[env_set]. rewrite Hm. reflexivity.
  - intros Hne. destruct prefix; [contradiction | reflexivity].
Qed.

Lemma setPrefix_without_table_names_witness :
  fst (setPrefix (lit "wp_") false (State fresh (quiet CreateRejected)))
  = Normal (VStr (lit "wp_"))
  /\ getBlogPrefix (snd (setPrefix (lit "wp_") false
                           (State fresh (quiet CreateRejected)))) (Some 7%Z)
     = lit "wp_".
Proof.
  destruct (setPrefix_without_table_names (lit "wp_") (lit "x_")
              (State fresh (quiet CreateRejected)) (Some 7%Z) eq_refl eq_refl)
    as (H1 & H2 & _).
  split; [exact H1 | exact (H2 eq_refl)].
Defined.

(** X8.  [setPrefix] with table names requested (the default) and [setBlogId]
    never return normally: they throw a [TypeError], and by then the new
    base prefix, respectively the new blog id and its prefix, are stored. *)
Theorem setPrefix_setBlogId_throw (prefix : jstring) (blogId : Z) (st : state) :
  (has_invalid_unit prefix = false ->
   fst (setPrefix prefix true st) = Throw TypeError
   /\ basePrefix (this (snd (setPrefix prefix true st))) = prefix)
  /\ (fst (setBlogId blogId st) = Throw TypeError
      /\ Wpdb.blogId (this (snd (setBlogId blogId st))) = blogId
      /\ Wpdb.prefix (this (snd (setBlogId blogId st)))
         = getBlogPrefix (snd (setBlogId blogId st)) None).
Proof.
  destruct st as [i p].
  destruct i as [a pl bp ? ? ? ? ? ? ? ? ? ? ? ? ? ? ?].
  split.
  - intros Hp. unfold setPrefix. rewrite invalid_prefix_test, Hp.
    unfold mbind, M_bind, get_this, get_proc, put_this, mret, M_ret, throw.
    cbn. auto.
  - unfold setBlogId, getBlogPrefix.
    unfold mbind, M_bind, get_this, get_state, put_this, mret, M_ret, throw.
    cbn. auto.
Qed.

Lemma setPrefix_setBlogId_throw_witness :
  fst (setPrefix (lit "wp_") true (State fresh (quiet CreateRejected)))
  = Throw TypeError.
Proof.
  destruct (setPrefix_setBlogId_throw (lit "wp_") 2
              (State fresh (quiet CreateRejected))) as [H _].
  exact (proj1 (H eq_refl)).
Defined.

(** ** [checkConnection]: attempts and delays *)

Lemma dbConnect_false_spec (st : state) :
  let r := dbConnect_false st in
  connects (proc (snd r)) = S (connects (proc st))
  /\ delays (proc (snd r)) = delays (proc st)
  /\ env (proc (snd r)) = env (proc st)
  /\ outcome (proc (snd r)) = outcome (proc st)
  /\ reconnectRetries (this (snd r)) = reconnectRetries (this st)
  /\ truthy (match fst r with Normal v => v | Throw _ => VUndef end) = false
  /\ (outcome (proc st) (connects (proc st)) = ConnectRejected ->
      fst r = Normal (VBool false)).
Proof.
  destruct st as [i p].
  destruct i as [a pl bp ? ? ? ? ? ? ? ? ? ? ? ? ? ? ?]. destruct p.
  unfold dbConnect_false.
  unfold mbind, M_bind, get_this, get_proc, put_this, put_proc, mret, M_ret, throw.
  cbn.
  destruct (outcome0 connects0); cbn; repeat split; auto; discriminate.
Qed.

Lemma reconnect_loop_bounded (left : nat) :
  forall tries st,
    let r := reconnect_loop left tries st in
    (fst r = Normal None \/ exists e, fst r = Throw e)
    /\ exists attempts waits,
         (waits <= attempts <= left)%nat
         /\ connects (proc (snd r)) = (connects (proc st) + attempts)%nat
         /\ delays (proc (snd r)) = delays (proc st) ++ replicate waits 1000%Z.
Proof.
  induction left as [| left IH]; intros tries st.
  - cbn. split; [auto |]. exists 0%nat, 0%nat. cbn.
    rewrite app_nil_r, Nat.add_0_r. auto with lia.
  - cbn [reconnect_loop]. unfold sleep, mbind, M_bind, get_this, get_proc.
    cbn [fst snd].
    destruct (Z.eqb (reconnectRetries (this st)) tries
              && env_set (proc st) "WP_DEBUG").
    + cbn. split; [right; eauto |]. exists 0%nat, 0%nat. cbn.
      rewrite app_nil_r, Nat.add_0_r. auto with lia.
    + cbn [mret M_ret].
      pose proof (dbConnect_false_spec st) as (Hc & Hd & _ & _ & _ & Ht & _).
      destruct (dbConnect_false st) as [[v | e] st1]; cbn [fst snd] in *.
      * rewrite Ht. unfold put_proc. cbn [fst snd].
        match goal with
        | |- context [reconnect_loop left ?t ?s] =>
            specialize (IH t s); destruct (reconnect_loop left t s) as [r st2]
        end.
        cbn [fst snd proc] in *.
        destruct IH as (Hr & attempts & waits & Hb & Hc2 & Hd2).
        split; [destruct r; [| right; eauto]; exact Hr |].
        exists (S attempts), (S waits). split; [lia |].
        destruct st1 as [i1 p1]. destruct p1. cbn in *. subst.
        split; [lia |]. rewrite Hd2, <- app_assoc. reflexivity.
      * split; [right; eauto |]. exists 1%nat, 0%nat. cbn.
        rewrite app_nil_r, Hc, Hd. split; [lia |]. split; [lia | reflexivity].
Qed.

Ltac run_m :=
  unfold mbind, M_bind, get_this, get_proc, put_this, put_proc, mret, M_ret,
    throw, lift, warn.

Lemma bail_proc (message : jstring) (st : state) :
  connects (proc (snd (bail message st))) = connects (proc st)
  /\ delays (proc (snd (bail message st))) = delays (proc st)
  /\ fst (bail message st) <> Normal (VBool true).
Proof.
  unfold bail. run_m. cbn.
  destruct (showErrors (this st)); [destruct (dbh (this st)) |]; cbn;
    repeat split; auto; try discriminate.
  all: destruct st as [i p]; destruct p; reflexivity.
Qed.

(** The probe of line 1394 succeeds: there is a handle and [DO 1] answers
    with rows. *)
Definition alive (st : state) : bool :=
  match dbh (this st), probe_answer (proc st) with
  | Connection, ProbeRows => true
  | _, _ => false
  end.

Ltac after_loop :=
  match goal with
  | |- context [reconnect_loop ?n ?t ?s] =>
      let Hr := fresh "Hr" in
      pose proof (reconnect_loop_bounded n t s)
        as (Hr & attempts & waits & Hb & Hc & Hd);
      destruct (reconnect_loop n t s) as [[[v |] | e] st1];
      cbn [fst snd this proc set_env connects delays] in *;
      [ destruct Hr as [Hr | [? Hr]]; discriminate Hr
      | destruct (env_set (proc st1) "TEMPLATE_REDIRECT");
        [ split; [discriminate | eauto]
        | match goal with
          | |- context [negb ?b] => destruct b; cbn [negb]
          end;
          [ match goal with
            | |- context [bail ?m st1] =>
                let Hbc := fresh "Hbc" in
                let Hbd := fresh "Hbd" in
                pose proof (bail_proc m st1) as (Hbc & Hbd & _);
                destruct (bail m st1) as [[? | ?] st2];
                cbn [fst snd this proc set_console connects delays] in *;
                (split; [discriminate |]); exists attempts, waits;
                (split; [exact Hb |]); split; congruence
            end
          | split; [discriminate | eauto] ] ]
      | split; [discriminate | eauto] ]
  end.

Lemma checkConnection_cases (h : host) (allowBail : bool) (st : state) :
  let r := checkConnection h allowBail st in
  (alive st = true /\ r = (Normal (VBool true), st))
  \/ (alive st = false
      /\ fst r <> Normal (VBool true)
      /\ exists attempts waits,
           (waits <= attempts <= Z.to_nat (reconnectRetries (this st)))%nat
           /\ connects (proc (snd r)) = (connects (proc st) + attempts)%nat
           /\ delays (proc (snd r)) = delays (proc st) ++ replicate waits 1000%Z).
Proof.
  unfold checkConnection, alive. run_m. cbn [fst snd].
  destruct (dbh (this st)) eqn:Hdbh.
  - right. split; [reflexivity |].
    destruct (env_set (proc st) "WP_DEBUG"); after_loop.
  - destruct (probe_answer (proc st)) eqn:Hprobe.
    + left. auto.
    + right. split; [reflexivity |].
      destruct (env_set (proc st) "WP_DEBUG"); after_loop.
    + right. split; [reflexivity |]. cbn. split; [discriminate |].
      exists 0%nat, 0%nat. cbn. rewrite app_nil_r, Nat.add_0_r. auto with lia.
Qed.

(** X9.  Whatever the server does, [checkConnection] makes at most
    [reconnectRetries] connection attempts, and every delay it awaits is one
    of 1000 milliseconds, at most one for each attempt. *)
Theorem checkConnection_bounded (h : host) (allowBail : bool) (st : state) :
  let r := checkConnection h allowBail st in
  exists attempts waits,
    (waits <= attempts <= Z.to_nat (reconnectRetries (this st)))%nat
    /\ connects (proc (snd r)) = (connects (proc st) + attempts)%nat
    /\ delays (proc (snd r)) = delays (proc st) ++ replicate waits 1000%Z.
Proof.
  destruct (checkConnection_cases h allowBail st) as [[_ ->] | (_ & _ & H)].
  - exists 0%nat, 0%nat. cbn. rewrite app_nil_r, Nat.add_0_r. auto with lia.
  - exact H.
Qed.

(** X11.  [checkConnection] answers [true] exactly when the probe succeeds,
    and then it leaves the instance and the process as they were: a
    reconnection never makes it answer [true]. *)
Theorem checkConnection_true_iff_alive (h : host) (allowBail : bool) (st : state) :
  (fst (checkConnection h allowBail st) = Normal (VBool true)
   <-> dbh (this st) = Connection /\ probe_answer (proc st) = ProbeRows)
  /\ (fst (checkConnection h allowBail st) = Normal (VBool true) ->
      snd (checkConnection h allowBail st) = st).
Proof.
  assert (alive st = true
          <-> dbh (this st) = Connection /\ probe_answer (proc st) = ProbeRows)
    as Halive.
  { unfold alive. destruct (dbh (this st)), (probe_answer (proc st));
      split; intros H; try discriminate H; auto; destruct H; discriminate. }
  destruct (checkConnection_cases h allowBail st) as [[Ha ->] | (Ha & Hn & _)].
  - split; [| reflexivity]. cbn. rewrite <- Halive. tauto.
  - split; [| intros H; contradiction].
    split; [intros H; contradiction |].
    intros H. apply Halive in H. congruence.
Qed.





(** ** The formats of fields *)

Lemma field_formats_entries (i : instance) (format : jsval)
    (originalFormats formats : list jsval) (es : list (jstring * jsval)) :
  map (fun f => (f_name f, f_value f))
    (field_formats i format originalFormats formats es) = es.
Proof.
  revert formats. induction es as [| [name value] es IH]; intros formats;
    cbn [field_formats]; [reflexivity |].
  destruct (truthy format); cbn [map f_name f_value]; rewrite IH; reflexivity.
Qed.

(** X12.  [processFieldFormats] makes one field of every column of the data,
    in the order of the columns, each with the name and the value of its
    column. *)
Theorem processFieldFormats_entries (i : instance) (data : colmap)
    (format : jsval) :
  map (fun f => (f_name f, f_value f)) (processFieldFormats i data format)
  = entries data.
Proof. apply field_formats_entries. Qed.

(** The format for the column at position [k] of an array of formats: the
    format at that position, or the first one when there is none or it is
    falsy. *)
Definition format_at (formats : list jsval) (k : nat) : jsval :=
  match formats !! k with
  | Some v => if truthy v then v else head_or_undefined formats
  | None => head_or_undefined formats
  end.

Lemma head_or_undefined_drop (l : list jsval) (n : nat) :
  head_or_undefined (drop n l)
  = match l !! n with Some v => v | None => VUndef end.
Proof.
  rewrite <- (Nat.add_0_r n) at 2. rewrite <- lookup_drop.
  destruct (drop n l); reflexivity.
Qed.

Lemma field_formats_array (i : instance) (l : list jsval)
    (es : list (jstring * jsval)) :
  forall (done k : nat) (f : field),
    field_formats i (VArr l) l (drop done l) es !! k = Some f ->
    f_format f = format_at l (done + k).
Proof.
  induction es as [| [name value] es IH]; intros done k f;
    cbn [field_formats truthy]; [discriminate |].
  destruct k as [| k]; cbn [lookup list_lookup].
  - intros H. injection H as <-. cbn [f_format]. unfold format_at.
    rewrite Nat.add_0_r, head_or_undefined_drop.
    destruct (l !! done) as [v |]; reflexivity.
  - replace (tl (drop done l)) with (drop (S done) l)
      by (replace (S done) with (done + 1)%nat by lia;
          rewrite <- drop_drop; reflexivity).
    intros H. apply IH in H. rewrite H. f_equal. lia.
Qed.

(** X14.  With an array of formats, the column at position [k] gets the
    format at position [k], and the first format of the array when the array
    has none there. *)
Theorem processFieldFormats_array (i : instance) (data : colmap)
    (formats : list jsval) (k : nat) (f : field) :
  processFieldFormats i data (VArr formats) !! k = Some f ->
  f_format f = format_at formats k.
Proof.
  unfold processFieldFormats. intros H.
  apply (field_formats_array i formats (entries data) 0 k f). exact H.
Qed.

Lemma processFieldFormats_array_witness :
  f_format (FieldOf (lit "b") (VNum 2) (VStr (lit "%d")) VUndef VUndef)
  = format_at [VStr (lit "%d")] 1.
Proof.
  apply (processFieldFormats_array fresh
           (Columns [(lit "a", VNum 1); (lit "b", VNum 2)]) [VStr (lit "%d")] 1).
  reflexivity.
Defined.

Lemma field_formats_no_array (i : instance) (format : jsval)
    (es : list (jstring * jsval)) :
  truthy format = true ->
  Forall (fun f => f_format f = VUndef) (field_formats i format [] [] es).
Proof.
  intros Ht. induction es as [| [name value] es IH]; cbn [field_formats].
  - constructor.
  - rewrite Ht. constructor; [reflexivity | exact IH].
Qed.

(** X13.  A format given as a string is not applied: every field gets the
    format [undefined]. *)
Theorem processFieldFormats_string_format (i : instance) (data : colmap)
    (format : jstring) :
  format <> [] ->
  Forall (fun f => f_format f = VUndef)
    (processFieldFormats i data (VStr format)).
Proof.
  intros Hf. unfold processFieldFormats. apply field_formats_no_array.
  destruct format; [contradiction | reflexivity].
Qed.

Lemma processFieldFormats_string_format_witness :
  Forall (fun f => f_format f = VUndef)
    (processFieldFormats fresh (Columns [(lit "id", VNum 1)]) (VStr (lit "%d"))).
Proof.
  apply processFieldFormats_string_format. discriminate.
Defined.

Lemma processFieldCharsets_outcome (table : jstring) (fs : list field) (st : state) :
  processFieldCharsets table fs st
  = if forallb numeric_format fs
    then (Normal (map (fun f => FieldOf (f_name f) (f_value f) (f_format f)
                                  (VBool false) (f_length f)) fs), st)
    else (Throw ReferenceError, st).
Proof.
  induction fs as [| f fs IH]; [reflexivity |].
  cbn [processFieldCharsets forallb map].
  unfold mbind, M_bind, getColCharset, throw, mret, M_ret in *.
  destruct (numeric_format f); cbn [andb]; [| reflexivity].
  rewrite IH. destruct (forallb numeric_format fs); reflexivity.
Qed.

(** X15.  [processFields] throws a [ReferenceError], leaving the state as it
    is, as soon as one field has a format other than [%d] and [%f];
    otherwise it returns [undefined] and sets [lastError] to the message
    that names every column of the data as a problem. *)
Theorem processFields_outcome (table : jstring) (data : colmap) (format : jsval)
    (st : state) :
  processFields table data format st
  = if forallb numeric_format (processFieldFormats (this st) data format)
    then (Normal PUndefined,
          State (set_lastError (problem_message (map fst (entries data))) (this st))
            (proc st))
    else (Throw ReferenceError, st).
Proof.
  unfold processFields. unfold mbind at 1, M_bind at 1, get_this.
  unfold mbind at 1, M_bind at 1.
  rewrite processFieldCharsets_outcome.
  destruct (forallb numeric_format _); [| reflexivity].
  unfold mbind, M_bind, get_this, put_this, mret, M_ret. cbn [fst snd this proc].
  do 3 f_equal. unfold processFieldLengths. rewrite !map_map. cbn [f_name].
  f_equal.
  transitivity (map fst (map (fun f => (f_name f, f_value f))
                           (processFieldFormats (this st) data format))).
  - rewrite map_map. reflexivity.
  - unfold processFieldFormats. rewrite field_formats_entries. reflexivity.
Qed.

(** ** ASCII text and plain text in [stripInvalidText] *)

Lemma ascii_roundtrip (s : jstring) :
  Forall (fun u => u < 128) s ->
  map (fun x => N.land (N.land x 255) 127) s = s.
Proof.
  induction 1 as [| u t Hu _ IH]; [reflexivity |].
  cbn [map]. rewrite IH. f_equal.
  change 255 with (N.ones 8). change 127 with (N.ones 7).
  rewrite !N.land_ones. rewrite (N.mod_small u (2 ^ 8)) by (cbn; lia).
  apply N.mod_small. cbn. lia.
Qed.

Lemma checkAscii_of_ascii (s : jstring) :
  Forall (fun u => u < 128) s -> checkAscii s = true.
Proof.
  intros H. unfold checkAscii. rewrite (ascii_roundtrip s H).
  replace (jstring_eqb s s) with true; [reflexivity |].
  symmetry. apply jstring_eqb_eq. reflexivity.
Qed.

(** X16.  [checkAscii] accepts a string exactly when every code unit of it is
    below 128. *)
Theorem checkAscii_iff (s : jstring) :
  checkAscii s = true <-> Forall (fun u => u < 128) s.
Proof. split; [apply checkAscii_units | apply checkAscii_of_ascii]. Qed.

(** The ceiling that [stripInvalidText] reads from an element. *)
Definition ceiling_of (v : text_value) : ceiling :=
  match length_ v with
  | LengthInfo _ c => c
  | LengthFalse => CeilFalse
  | LengthPending => CeilUndefined
  end.

(** The truncation of lines 2491-2493: to the first [n] code units, when the
    UTF-8 form is longer than [n] bytes. *)
Definition cut (c : ceiling) (s : jstring) : jstring :=
  match c with
  | CeilNum n =>
      if (n <? Z.of_nat (utf8_length s))%Z then take (Z.to_nat n) s else s
  | _ => s
  end.

(** X17.  A string value whose charset is [latin1], or that is ASCII (and not
    marked otherwise), is never filtered by [stripInvalidText]: it is cut to
    the ceiling or left as it is, whatever the type of the ceiling. *)
Theorem stripInvalidText_plain_text (data out : list text_value) (i : nat)
    (v : text_value) (s : jstring) :
  data !! i = Some v ->
  value v = VStr s ->
  charset v = VStr (lit "latin1")
  \/ (charset v <> VBool false /\ ascii v = None /\ Forall (fun u => u < 128) s) ->
  stripInvalidText data = Local out ->
  out !! i = Some (TextValue (VStr (cut (ceiling_of v) s)) (charset v) (ascii v)
                     (length_ v) (db v)).
Proof.
  intros Hi Hv Hplain Hout.
  unfold stripInvalidText in Hout.
  destruct (existsb snd (map strip_round data)); [discriminate |].
  injection Hout as <-.
  rewrite !list_lookup_fmap, Hi. cbn [fmap option_fmap option_map]. f_equal.
  destruct v as [val cs asc len dbf].
  cbn [value charset ascii length_ db] in *. subst val.
  unfold strip_round, ceiling_of, cut, with_value.
  cbn [value charset ascii length_ db].
  assert ((match cs with
           | VStr t => jstring_eqb t (lit "latin1")
           | _ => false
           end
           || match asc with None => checkAscii s | Some _ => false end) = true)
    as Hp.
  { destruct Hplain as [-> | (_ & -> & Hs)].
    - reflexivity.
    - rewrite (checkAscii_of_ascii s Hs). apply orb_true_r. }
  assert (cs <> VBool false) as Hcs
    by (destruct Hplain as [-> | (H & _)]; [discriminate | exact H]).
  destruct len as [| type c |]; cbn [fst snd];
    destruct cs as [| | [|] | | | | | | |]; try contradiction;
    rewrite ?Hp, ?orb_true_r; cbn [andb fst];
    try reflexivity;
    destruct c; reflexivity.
Qed.

Definition ascii_unit : N -> bool := between 0 127.

Definition last_capture (c0 : option jstring) (a : jstring) : option jstring :=
  match last a with
  | Some u => Some [u]
  | None => c0
  end.

Lemma last_cons_some (n : N) (a : jstring) : exists v, last (n :: a) = Some v.
Proof.
  revert n. induction a as [| m a IH]; intros n; [eexists; reflexivity |].
  destruct (IH m) as [v Hv]. exists v. exact Hv.
Qed.

Lemma last_capture_cons (c0 : option jstring) (u : N) (a : jstring) :
  last_capture c0 (u :: a) = last_capture (Some [u]) a.
Proof.
  unfold last_capture. destruct a as [| n a]; [reflexivity |].
  change (last (u :: n :: a)) with (last (n :: a)).
  destruct (last_cons_some n a) as [v ->]. reflexivity.
Qed.

Lemma utf8_sequence_end (mb4 : bool) (i : nat) (cs : list (option jstring))
    (k : cont) :
  run (utf8_sequence mb4) (MState i [] cs) k = None.
Proof. destruct mb4; reflexivity. Qed.

Lemma utf8_sequence_ascii (mb4 : bool) (i : nat) (u : N) (t : jstring)
    (cs : list (option jstring)) (k : cont) (z : mstate) :
  ascii_unit u = true ->
  k (MState (S i) t cs) = Some z ->
  run (utf8_sequence mb4) (MState i (u :: t) cs) k = Some z.
Proof.
  intros Hu Hk. unfold utf8_sequence. cbn [app alts]. rewrite run_Alt, run_Char.
  cbn [rest pos caps]. unfold ascii_unit in Hu. rewrite Hu, Hk. reflexivity.
Qed.

Lemma ascii_rep (mb4 : bool) (k : cont) (z : mstate) (r : jstring) :
  forall a lo hi fuel i c0,
    forallb ascii_unit a = true ->
    (lo <= length a <= hi)%nat ->
    length a = hi \/ r = [] ->
    (lo + length (a ++ r) < fuel)%nat ->
    k (MState (i + length a) r [last_capture c0 a]) = Some z ->
    rep (run (Group 1 (utf8_sequence mb4))) [1%nat] fuel lo (Some hi)
      (MState i (a ++ r) [c0]) k = Some z.
Proof.
  intros a. induction a as [| u a IH]; intros lo hi fuel i c0 Ha Hb Hr Hf Hk.
  - cbn in Hb. assert (lo = 0%nat) as -> by lia.
    destruct fuel as [| fuel]; [lia |].
    cbn [app length] in *. rewrite Nat.add_0_r in Hk.
    unfold last_capture in Hk. cbn [last] in Hk.
    cbn [rep Nat.eqb].
    destruct hi as [| hi]; cbn [hi_zero]; [exact Hk |].
    destruct Hr as [Hr | ->]; [discriminate Hr |].
    rewrite run_Group.
    cbn [clear_caps fold_right]. unfold set_cap at 1.
    cbn [pos rest caps Nat.pred].
    rewrite utf8_sequence_end. exact Hk.
  - destruct fuel as [| fuel]; [lia |].
    cbn [forallb] in Ha. apply andb_true_iff in Ha as [Hu Ha].
    destruct hi as [| hi]; [cbn in Hb; lia |].
    cbn [rep hi_zero hi_pred Nat.pred].
    assert (run (Group 1 (utf8_sequence mb4))
              (clear_caps [1%nat] (MState i ((u :: a) ++ r) [c0]))
              (fun y =>
                 if Nat.eqb lo 0 && Nat.eqb (pos y) (pos (MState i ((u :: a) ++ r) [c0]))
                 then None
                 else rep (run (Group 1 (utf8_sequence mb4))) [1%nat] fuel
                        (Nat.pred lo) (Some hi) y k)
            = Some z) as Hstep.
    { rewrite run_Group.
      cbn [clear_caps fold_right app]. unfold set_cap at 2.
      cbn [pos rest caps Nat.pred].
      apply utf8_sequence_ascii; [exact Hu |].
      unfold set_cap. cbn [pos rest caps Nat.pred].
      replace (Nat.eqb (S i) i) with false by (symmetry; apply Nat.eqb_neq; lia).
      rewrite andb_false_r.
      replace (S i - i)%nat with 1%nat by lia.
      change (take 1 (u :: a ++ r)) with [u].
      change (<[0%nat:=Some [u]]> (<[0%nat:=None]> [c0])) with [Some [u]].
      apply IH.
      - exact Ha.
      - cbn in Hb. lia.
      - destruct Hr as [Hr | Hr]; [left; cbn in Hr; lia | right; exact Hr].
      - cbn in Hf. lia.
      - rewrite <- Hk. f_equal. f_equal; [cbn; lia |].
        f_equal. symmetry. apply last_capture_cons. }
    rewrite Hstep. destruct (Nat.eqb lo 0); reflexivity.
Qed.

Fixpoint block_ends (k : nat) (s : jstring) : jstring :=
  match s with
  | [] => []
  | u :: t =>
      match t with
      | [] => [u]
      | _ :: _ =>
          if Nat.eqb k 39 then u :: block_ends 0 t else block_ends (S k) t
      end
  end.

Lemma block_ends_block (a r : jstring) :
  forall k v,
    last a = Some v ->
    (k + length a = 40 \/ (r = [] /\ k + length a <= 40))%nat ->
    block_ends k (a ++ r) = v :: block_ends 0 r.
Proof.
  induction a as [| u a IH]; intros k v Hv Hk; [discriminate Hv |].
  destruct a as [| n a].
  - cbn in Hv. injection Hv as ->. cbn [app block_ends].
    destruct r as [| x r]; [reflexivity |].
    destruct Hk as [Hk | [Hk _]]; [| discriminate Hk].
    cbn in Hk. replace (Nat.eqb k 39) with true
      by (symmetry; apply Nat.eqb_eq; lia).
    reflexivity.
  - change (last (u :: n :: a)) with (last (n :: a)) in Hv.
    change ((u :: n :: a) ++ r) with (u :: (n :: a) ++ r).
    cbn [block_ends]. change ((n :: a) ++ r) with (n :: a ++ r) at 1.
    cbv iota. cbn [length] in Hk.
    replace (Nat.eqb k 39) with false by (symmetry; apply Nat.eqb_neq; lia).
    apply IH; [exact Hv |].
    destruct Hk as [Hk | [Hr Hk]]; [left | right; split; [exact Hr |]];
      cbn [length]; lia.
Qed.

Lemma utf8_filter_ascii_all (mb4 : bool) (input : jstring) (fuel : nat) :
  forall i s,
    forallb ascii_unit s = true ->
    (length s < fuel)%nat ->
    filtered (match_all_from fuel (utf8_filter mb4) input i s) = block_ends 0 s.
Proof.
  induction fuel as [| fuel IH]; intros i s Hs Hf; [lia |].
  cbn [match_all_from].
  destruct s as [| u0 s0].
  - cbn [search]. replace (match_at (utf8_filter mb4) i []) with (@None mstate)
      by (destruct mb4; reflexivity).
    reflexivity.
  - set (s := u0 :: s0) in *.
    set (a := take 40 s). set (r := drop 40 s).
    assert (s = a ++ r) as Hsplit by (symmetry; apply take_drop).
    assert (exists v, last a = Some v) as [v Hv].
    { unfold a, s. cbn [take]. apply last_cons_some. }
    assert (length a = 40 \/ r = [])%nat as Hr.
    { unfold a, r. destruct (Nat.le_gt_cases 40 (length s)) as [H | H].
      - left. rewrite length_take. lia.
      - right. apply drop_ge. lia. }
    assert (0 < length a <= 40)%nat as Hla.
    { unfold a. rewrite length_take. unfold s. cbn [length]. lia. }
    assert (forallb ascii_unit a = true /\ forallb ascii_unit r = true)
      as [Ha Hra] by (rewrite Hsplit, forallb_app in Hs;
                      apply andb_true_iff in Hs; exact Hs).
    assert (match_at (utf8_filter mb4) i s
            = Some (MState (i + length a) r [Some [v]])) as Hm.
    { unfold match_at, utf8_filter, start. cbn [pattern ngroups replicate].
      rewrite run_Alt, run_Rep, utf8_group_groups. cbn [rest].
      rewrite Hsplit at 2.
      rewrite (ascii_rep mb4 Some (MState (i + length a) r [Some [v]]) r a
                 1 40 _ i None Ha); try reflexivity; try lia.
      - exact Hr.
      - rewrite <- Hsplit. lia.
      - unfold last_capture. rewrite Hv. reflexivity. }
    rewrite (search_here _ _ _ _ Hm).
    replace (i - i)%nat with 0%nat by lia. cbn [drop take pos rest].
    replace (Nat.eqb (i + length a) i) with false
      by (symmetry; apply Nat.eqb_neq; lia).
    assert (length r < fuel)%nat as Hfr.
    { rewrite Hsplit, length_app in Hf. lia. }
    specialize (IH (i + length a)%nat r Hra Hfr).
    destruct (match_all_from fuel (utf8_filter mb4) input (i + length a) r)
      as [ms tl].
    unfold filtered in *. cbn [fst snd map concat] in *.
    unfold info_of. cbn [caps]. rewrite substitution_first_capture.
    change (take 0 s) with (@nil N). rewrite <- !app_assoc. cbn [app].
    rewrite IH. rewrite Hsplit.
    symmetry. apply block_ends_block; [exact Hv |].
    destruct Hr as [Hr | Hr]; [left; lia | right; split; [exact Hr | lia]].
Qed.

Lemma utf8_filter_ascii (mb4 : bool) (s : jstring) :
  forallb ascii_unit s = true ->
  replace (utf8_filter mb4) (lit "$1") s = block_ends 0 s.
Proof.
  intros Hs. rewrite replace_filtered. unfold match_all.
  apply utf8_filter_ascii_all; [exact Hs | lia].
Qed.

Lemma ascii_units (s : jstring) :
  Forall (fun u => u < 128) s -> forallb ascii_unit s = true.
Proof.
  induction 1 as [| u t Hu _ IH]; [reflexivity |].
  cbn [forallb]. rewrite IH, andb_true_r. unfold ascii_unit, between.
  apply andb_true_iff. split; apply N.leb_le; lia.
Qed.

Definition notice : text_value :=
  TextValue (VStr (lit "hello world")) (VStr (lit "latin1")) None
    (LengthInfo (lit "char") (CeilNum 5)) false.

Lemma stripInvalidText_plain_text_witness :
  [TextValue (VStr (lit "hello")) (VStr (lit "latin1")) None
     (LengthInfo (lit "char") (CeilNum 5)) false] !! 0%nat
  = Some (TextValue (VStr (cut (ceiling_of notice) (lit "hello world")))
            (charset notice) (ascii notice) (length_ notice) (db notice)).
Proof.
  apply (stripInvalidText_plain_text [notice] _ 0 notice (lit "hello world"));
    try reflexivity.
  left. reflexivity.
Defined.

(** X18.  When the filter of lines 2502-2509 is applied to ASCII text (an
    element with a utf8 charset whose [ascii] property is set, as
    [stripInvalidTextFromQuery] passes it), it keeps of every block of 40
    code units, and of the block left at the end, the last code unit only. *)
Theorem stripInvalidText_ascii_blocks (data out : list text_value) (i : nat)
    (v : text_value) (s : jstring) (flag mb4 : bool) :
  data !! i = Some v ->
  value v = VStr s ->
  Forall (fun u => u < 128) s ->
  ascii v = Some flag ->
  utf8_family (charset v) = Some mb4 ->
  length_ v = LengthFalse ->
  stripInvalidText data = Local out ->
  out !! i = Some (TextValue (VStr (block_ends 0 s)) (charset v) (ascii v)
                     (length_ v) (db v)).
Proof.
  intros Hi Hv Hs Ha Hcs Hlen Hout.
  unfold stripInvalidText in Hout.
  destruct (existsb snd (map strip_round data)); [discriminate |].
  injection Hout as <-.
  rewrite !list_lookup_fmap, Hi. cbn [fmap option_fmap option_map]. f_equal.
  destruct v as [val cs asc len dbf].
  cbn [value charset ascii length_ db] in *. subst val asc len.
  destruct (utf8_family_cases _ _ Hcs) as (t & -> & Hl).
  unfold strip_round, with_value. cbn [value charset ascii length_ db].
  rewrite Hl, Hcs. cbn [orb andb exceeds fst].
  rewrite (utf8_filter_ascii mb4 s (ascii_units s Hs)). reflexivity.
Qed.

(** A short query, as [stripInvalidTextFromQuery] wraps it. *)
Definition query_text : text_value :=
  TextValue (VStr (lit "SELECT 1")) (VStr (lit "utf8")) (Some false)
    LengthFalse false.

Lemma stripInvalidText_ascii_blocks_witness :
  [TextValue (VStr (lit "1")) (VStr (lit "utf8")) (Some false) LengthFalse false]
    !! 0%nat
  = Some (TextValue (VStr (block_ends 0 (lit "SELECT 1"))) (charset query_text)
            (ascii query_text) (length_ query_text) (db query_text)).
Proof.
  apply (stripInvalidText_ascii_blocks [query_text] _ 0 query_text
           (lit "SELECT 1") false false); try reflexivity.
  repeat constructor.
Defined.

(** ** [determineCharset] *)

Lemma index_of_sub_found (t s : jstring) (i : nat) :
  index_of_sub t s = Some i ->
  starts_with t (drop i s) = true /\ (i <= length s)%nat
  /\ (i <> 0%nat -> starts_with t s = false).
Proof.
  revert i. induction s as [| u s IH]; intros i; cbn [index_of_sub].
  - destruct (starts_with t []) eqn:E; [| discriminate].
    intros H. injection H as <-. cbn. auto with lia.
  - destruct (starts_with t (u :: s)) eqn:E.
    + intros H. injection H as <-. cbn [drop]. auto with lia.
    + destruct (index_of_sub t s) as [j |]; [| discriminate].
      intros H. injection H as <-. destruct (IH j eq_refl) as (H1 & H2 & _).
      cbn. auto with lia.
Qed.

Lemma utf8_prefix_replaced (s : jstring) :
  starts_with (lit "utf8_") (replace_sub (lit "utf8_") (lit "utf8mb4_") s)
  = false.
Proof.
  unfold replace_sub.
  change (lit "utf8_") with [117; 116; 102; 56; 95].
  change (lit "utf8mb4_") with [117; 116; 102; 56; 109; 98; 52; 95].
  set (T := [117; 116; 102; 56; 95]).
  destruct (index_of_sub T s) as [i |] eqn:Hi.
  - apply index_of_sub_found in Hi as (Hat & Hlen & Hnot).
    replace (substitution _ _) with [117; 116; 102; 56; 109; 98; 52; 95]
      by reflexivity.
    destruct i as [| i]; [reflexivity |].
    specialize (Hnot ltac:(lia)).
    destruct s as [| x1 s]; [cbn in Hlen; lia |].
    destruct i as [| i];
      [cbn; rewrite ?andb_false_r; reflexivity |].
    destruct s as [| x2 s]; [cbn in Hlen; lia |].
    destruct i as [| i];
      [cbn; rewrite ?andb_false_r; reflexivity |].
    destruct s as [| x3 s]; [cbn in Hlen; lia |].
    destruct i as [| i];
      [cbn; rewrite ?andb_false_r; reflexivity |].
    destruct s as [| x4 s]; [cbn in Hlen; lia |].
    destruct i as [| i];
      [cbn; rewrite ?andb_false_r; reflexivity |].
    destruct s as [| x5 s]; [cbn in Hlen; lia |].
    cbn [take app]. cbn [starts_with T] in Hnot |- *. exact Hnot.
  - destruct s as [| u s]; [reflexivity |].
    cbn [index_of_sub] in Hi.
    destruct (starts_with T (u :: s)); [discriminate | reflexivity].
Qed.

Lemma replace_sub_nonempty (t r s : jstring) :
  s <> [] -> r <> [] -> existsb (N.eqb 36) r = false ->
  replace_sub t r s <> [].
Proof.
  intros Hs Hr Hd. unfold replace_sub.
  destruct (index_of_sub t s); [| exact Hs].
  rewrite substitution_plain by exact Hd.
  destruct (take n s); destruct r; try discriminate. contradiction.
Qed.

(** X19.  On a connected instance [determineCharset] turns the charsets
    [utf8] and [utf8mb4] into [utf8mb4], with a collation that is not empty
    and does not begin with [utf8_], for every collation that is a string
    or falsy. *)
Theorem determineCharset_utf8mb4 (i : instance) (charset collate : jsval) :
  dbh i = Connection ->
  is_text "utf8" charset || is_text "utf8mb4" charset = true ->
  (truthy collate = false \/ exists s, collate = VStr s) ->
  exists c,
    determineCharset i charset collate
    = Normal (VStr (lit "utf8mb4"), VStr c)
    /\ c <> []
    /\ starts_with (lit "utf8_") c = false.
Proof.
  intros Hdbh Hcs Hco. unfold determineCharset. rewrite Hdbh.
  assert ((if is_text "utf8" charset then VStr (lit "utf8mb4") else charset)
          = VStr (lit "utf8mb4")) as ->.
  { destruct (is_text "utf8" charset); [reflexivity |].
    cbn [orb] in Hcs. destruct charset; try discriminate Hcs.
    cbn in Hcs. apply jstring_eqb_eq in Hcs. subst. reflexivity. }
  replace (is_text "utf8mb4" (VStr (lit "utf8mb4"))) with true by reflexivity.
  unfold hasCapability. cbn [andb].
  destruct (negb (truthy collate) || is_text "utf8_general_ci" collate) eqn:E.
  - eexists. split; [reflexivity |]. split; [discriminate | reflexivity].
  - apply orb_false_iff in E as [Et _]. apply negb_false_iff in Et.
    destruct Hco as [Hf | [s ->]]; [congruence |].
    eexists. split; [reflexivity |]. split.
    + apply replace_sub_nonempty; [| discriminate | reflexivity].
      destruct s; [discriminate Et | discriminate].
    + apply utf8_prefix_replaced.
Qed.

Lemma determineCharset_utf8mb4_witness :
  exists c,
    determineCharset connected (VStr (lit "utf8")) (VStr (lit "utf8_bin"))
    = Normal (VStr (lit "utf8mb4"), VStr c)
    /\ c <> []
    /\ starts_with (lit "utf8_") c = false.
Proof.
  apply determineCharset_utf8mb4; [reflexivity | reflexivity |].
  right. eexists. reflexivity.
Defined.

(** ** [parseDbHost] *)

Definition port_text (port : option jstring) : jstring :=
  match port with Some ds => 58 :: ds | None => [] end.

Definition socket_text (socket : option jstring) : jstring :=
  match socket with Some path => 58 :: 47 :: path | None => [] end.

Definition port_value (port : option jstring) : jsval :=
  match port with
  | Some ds => match parseInt ds with Some n => VNum n | None => VNaN end
  | None => VNull
  end.

Definition socket_value (socket : option jstring) : jsval :=
  match socket with Some path => VStr (47 :: path) | None => VNull end.

Definition decimal_port (port : option jstring) : Prop :=
  match port with
  | Some ds => ds <> [] /\ forallb digit ds = true
  | None => True
  end.

(** A port of decimal digits, few enough for its number to be exact. *)
Definition wellformed_port (port : option jstring) : Prop :=
  decimal_port port
  /\ match port with Some ds => (length ds <= 15)%nat | None => True end.

Lemma index_of_sub_skip (p : N -> bool) (a t : jstring) :
  p 58 = false -> forallb p a = true ->
  index_of_sub [58; 47] (a ++ t)
  = option_map (Nat.add (length a)) (index_of_sub [58; 47] t).
Proof.
  intros Hp. induction a as [| u a IH]; intros Ha.
  - cbn. destruct (index_of_sub [58; 47] t); reflexivity.
  - cbn [forallb] in Ha. apply andb_true_iff in Ha as [Hu Ha].
    cbn [app index_of_sub starts_with].
    replace (N.eqb 58 u) with false.
    + cbn [andb]. rewrite (IH Ha).
      destruct (index_of_sub [58; 47] t); reflexivity.
    + symmetry. apply N.eqb_neq. intros <-. congruence.
Qed.

Lemma index_of_sub_socket (socket : option jstring) :
  index_of_sub [58; 47] (socket_text socket)
  = match socket with Some _ => Some 0%nat | None => None end.
Proof. destruct socket; reflexivity. Qed.

Lemma index_of_sub_cons (t : jstring) (u : N) (s : jstring) :
  starts_with t (u :: s) = false ->
  index_of_sub t (u :: s) = option_map S (index_of_sub t s).
Proof. intros H. cbn [index_of_sub]. rewrite H. reflexivity. Qed.

Lemma index_of_sub_port (port : option jstring) (t : jstring) :
  decimal_port port ->
  index_of_sub [58; 47] (port_text port ++ t)
  = option_map (Nat.add (length (port_text port))) (index_of_sub [58; 47] t).
Proof.
  destruct port as [ds |]; cbn [port_text decimal_port].
  - intros [Hne Hds]. destruct ds as [| d ds]; [contradiction |].
    assert (N.eqb 47 d = false) as H47.
    { cbn [forallb] in Hds. apply andb_true_iff in Hds as [Hd _].
      apply N.eqb_neq. intros <-. discriminate Hd. }
    change ((58 :: d :: ds) ++ t) with (58 :: (d :: ds) ++ t).
    rewrite index_of_sub_cons
      by (cbn [app starts_with]; rewrite H47, andb_false_r; reflexivity).
    rewrite (index_of_sub_skip digit (d :: ds) t eq_refl Hds).
    cbn [length]. destruct (index_of_sub [58; 47] t); reflexivity.
  - intros _. cbn. destruct (index_of_sub [58; 47] t); reflexivity.
Qed.

Lemma count_app (x : N) (a b : jstring) :
  count x (a ++ b) = (count x a + count x b)%nat.
Proof.
  induction a as [| u a IH]; [reflexivity |].
  cbn. destruct (N.eqb u x); rewrite IH; reflexivity.
Qed.

Lemma count_none (p : N -> bool) (x : N) (a : jstring) :
  p x = false -> forallb p a = true -> count x a = 0%nat.
Proof.
  intros Hp. induction a as [| u a IH]; [reflexivity |].
  cbn. intros Ha. apply andb_true_iff in Ha as [Hu Ha].
  replace (N.eqb u x) with false; [exact (IH Ha) |].
  symmetry. apply N.eqb_neq. intros ->. congruence.
Qed.

Lemma count_port (port : option jstring) :
  decimal_port port -> (count 58 (port_text port) <= 1)%nat.
Proof.
  destruct port as [ds |]; cbn; [| lia].
  intros [_ Hds]. rewrite (count_none digit 58 ds eq_refl Hds). lia.
Qed.

Lemma stops_port (p : N -> bool) (port : option jstring) :
  p 58 = false -> stops p (port_text port).
Proof. intros Hp. destruct port; [exact Hp | exact I]. Qed.

Definition port_core : re := Seq (c ":") (Group 2 (plus (Char digit))).

Lemma port_core_match (i : nat) (host : option jstring) (ds : jstring)
    (d : cont) (z : mstate) :
  ds <> [] -> forallb digit ds = true ->
  d (MState (S i + length ds) [] [host; Some ds]) = Some z ->
  run port_core (MState i (58 :: ds) [host; None]) d = Some z.
Proof.
  intros Hne Hds Hd. unfold port_core, c. rewrite run_Seq, run_Char.
  cbn [rest pos caps chr]. change (N.eqb 58 (cu ":")) with true. cbv iota.
  rewrite run_Group. unfold plus. cbn [pos rest].
  rewrite <- (app_nil_r ds) at 1.
  apply run_class.
  - exact I.
  - exact Hds.
  - destruct ds; [contradiction | cbn; lia].
  - cbn [pos]. unfold set_cap. cbn [pos rest caps Nat.pred].
    replace (S i + length ds - S i)%nat with (length ds) by lia.
    rewrite take_ge by lia. exact Hd.
Qed.

Lemma ipv4_match (h : jstring) (port : option jstring) :
  forallb host_part h = true ->
  decimal_port port ->
  match_at ipv4_host 0 (h ++ port_text port)
  = Some (MState (length h + length (port_text port)) [] [Some h; port]).
Proof.
  intros Hh Hport. unfold match_at, ipv4_host, start, port_suffix.
  cbn [pattern ngroups replicate seqs app].
  rewrite run_Seq, run_Bol. cbn [pos Nat.eqb].
  rewrite run_Seq, run_Group. unfold star.
  apply run_class.
  - apply stops_port. reflexivity.
  - exact Hh.
  - lia.
  - cbn [pos rest Nat.add]. unfold set_cap at 1. cbn [pos rest caps Nat.pred].
    rewrite Nat.sub_0_r, take_app_length.
    change (<[0%nat:=Some h]> [None; None]) with [Some h; @None jstring].
    destruct port as [ds |]; cbn [port_text length].
    + destruct Hport as [Hne Hds].
      apply (run_opt_take _ _ _ (MState (S (length h) + length ds) [] [Some h; Some ds])).
      * discriminate.
      * cbn. lia.
      * intros d Hd. apply port_core_match; assumption.
      * f_equal. f_equal. lia.
    + rewrite run_opt_skip; [rewrite Nat.add_0_r; reflexivity |].
      intros d. reflexivity.
Qed.

(** X20.  A host name without colon and slash, followed or not by a colon
    and a decimal port (of at most 15 digits), followed or not by a colon and
    the path of a socket, is taken apart into exactly these parts, and is
    not taken for IPv6. *)
Theorem parseDbHost_host_port_socket (h : jstring) (port socket : option jstring) :
  forallb host_part h = true ->
  wellformed_port port ->
  parseDbHost (h ++ port_text port ++ socket_text socket)
  = VArr [VStr h; port_value port; socket_value socket; VBool false].
Proof.
  intros Hh [Hport _]. unfold parseDbHost. change (lit ":/") with [58; 47].
  rewrite (index_of_sub_skip host_part h _ eq_refl Hh).
  rewrite (index_of_sub_port port _ Hport), index_of_sub_socket.
  assert (count 58 (h ++ port_text port) <= 1)%nat as Hcount.
  { rewrite count_app, (count_none host_part 58 h eq_refl Hh).
    apply count_port. exact Hport. }
  assert (forall sock,
            (let isIPv6 := Nat.ltb 1 (count 58 (h ++ port_text port)) in
             match search (if isIPv6 then ipv6_host else ipv4_host) 0
                     (h ++ port_text port) with
             | None => VBool false
             | Some (_, y) =>
                 VArr [VStr match caps y !! 0%nat with
                            | Some (Some t) => t
                            | _ => []
                            end;
                       match caps y !! 1%nat with
                       | Some (Some (u :: t)) =>
                           match parseInt (u :: t) with
                           | Some n => VNum n
                           | None => VNaN
                           end
                       | _ => VNull
                       end; sock; VBool isIPv6]
             end) = VArr [VStr h; port_value port; sock; VBool false]) as Hmain.
  { intros sock. cbv zeta.
    replace (Nat.ltb 1 (count 58 (h ++ port_text port))) with false
      by (symmetry; apply Nat.ltb_ge; exact Hcount).
    rewrite (search_here _ _ _ _ (ipv4_match h port Hh Hport)).
    cbn [caps lookup list_lookup].
    destruct port as [[| d ds] |]; cbn [port_value]; try reflexivity.
    destruct Hport as [Hne _]. contradiction. }
  destruct socket as [path |]; cbn [option_map socket_text socket_value].
  - rewrite Nat.add_0_r.
    replace (length h + length (port_text port))%nat
      with (length (h ++ port_text port)) by apply length_app.
    rewrite app_assoc, take_app_length.
    replace (drop (length (h ++ port_text port) + 1)
               ((h ++ port_text port) ++ 58 :: 47 :: path)) with (47 :: path).
    + apply Hmain.
    + rewrite <- drop_drop, drop_app_length. reflexivity.
  - rewrite !app_nil_r. apply Hmain.
Qed.

Lemma parseDbHost_host_port_socket_witness :
  parseDbHost (lit "db.example.com" ++ port_text (Some (lit "3307"))
               ++ socket_text (Some (lit "var/run/mysqld.sock")))
  = VArr [VStr (lit "db.example.com"); port_value (Some (lit "3307"));
          socket_value (Some (lit "var/run/mysqld.sock")); VBool false].
Proof.
  apply parseDbHost_host_port_socket;
    [reflexivity
    | split; [split; [discriminate | reflexivity] | vm_compute; lia]].
Defined.

Lemma count_take (x : N) (n : nat) (s : jstring) :
  (count x (take n s) <= count x s)%nat.
Proof.
  revert n. induction s as [| u s IH]; intros [| n]; cbn; try lia.
  specialize (IH n). destruct (N.eqb u x); lia.
Qed.

Lemma ipv4_total (s : jstring) : match_at ipv4_host 0 s <> None.
Proof.
  unfold match_at, ipv4_host, start, port_suffix.
  cbn [pattern ngroups replicate seqs app].
  rewrite run_Seq, run_Bol. cbn [pos Nat.eqb].
  rewrite run_Seq, run_Group. unfold star. rewrite run_Rep.
  cbn [Nat.add]. apply rep_total. intros y.
  unfold opt. rewrite run_Rep. cbn [Nat.add]. apply rep_total. discriminate.
Qed.

(** X21.  [parseDbHost] never answers [false] for a setting with at most one
    colon: it returns an array, not marked as IPv6. *)
Theorem parseDbHost_one_colon (host : jstring) :
  (count 58 host <= 1)%nat ->
  exists h port socket,
    parseDbHost host = VArr [VStr h; port; socket; VBool false].
Proof.
  intros Hc. unfold parseDbHost.
  assert (forall host' sock,
            (count 58 host' <= 1)%nat ->
            exists h port socket,
              (let isIPv6 := Nat.ltb 1 (count 58 host') in
               match search (if isIPv6 then ipv6_host else ipv4_host) 0 host' with
               | None => VBool false
               | Some (_, y) =>
                   VArr [VStr match caps y !! 0%nat with
                              | Some (Some t) => t
                              | _ => []
                              end;
                         match caps y !! 1%nat with
                         | Some (Some (u :: t)) =>
                             match parseInt (u :: t) with
                             | Some n => VNum n
                             | None => VNaN
                             end
                         | _ => VNull
                         end; sock; VBool isIPv6]
               end) = VArr [VStr h; port; socket; VBool false]) as Hmain.
  { intros host' sock Hc'. cbv zeta.
    replace (Nat.ltb 1 (count 58 host')) with false
      by (symmetry; apply Nat.ltb_ge; exact Hc').
    pose proof (ipv4_total host') as Ht.
    destruct (match_at ipv4_host 0 host') as [y |] eqn:Hy; [| contradiction].
    rewrite (search_here _ _ _ _ Hy). eauto. }
  destruct (index_of_sub (lit ":/") host) as [socketPos |].
  - apply Hmain. pose proof (count_take 58 socketPos host). lia.
  - apply Hmain. exact Hc.
Qed.

Lemma parseDbHost_one_colon_witness :
  exists h port socket,
    parseDbHost (lit "localhost:") = VArr [VStr h; port; socket; VBool false].
Proof.
  apply parseDbHost_one_colon. vm_compute. lia.
Defined.

Definition no_slash (s : jstring) : bool :=
  forallb (fun u => negb (N.eqb u 47)) s.

Lemma index_of_sub_no_slash (x t : jstring) :
  no_slash x = true ->
  match t with 47 :: _ => False | _ => True end ->
  index_of_sub [58; 47] (x ++ t)
  = option_map (Nat.add (length x)) (index_of_sub [58; 47] t).
Proof.
  intros Hx Ht. induction x as [| u x IH].
  - cbn. destruct (index_of_sub [58; 47] t); reflexivity.
  - cbn [no_slash forallb] in Hx. apply andb_true_iff in Hx as [Hu Hx].
    rewrite <- app_comm_cons, index_of_sub_cons.
    + rewrite (IH Hx). cbn [length].
      destruct (index_of_sub [58; 47] t); reflexivity.
    + cbn [starts_with]. destruct (N.eqb 58 u); [| reflexivity]. cbn [andb].
      destruct x as [| v x].
      * cbn [app]. destruct t as [| w t]; [reflexivity |].
        cbn [starts_with]. destruct (N.eqb 47 w) eqn:E; [| reflexivity].
        apply N.eqb_eq in E. subst w. contradiction.
      * cbn [app starts_with]. cbn [no_slash forallb] in Hx.
        apply andb_true_iff in Hx as [Hv _]. apply negb_true_iff in Hv.
        rewrite N.eqb_sym, Hv. reflexivity.
Qed.

Definition bracketed (bracket : bool) (a : jstring) (port : option jstring)
    : jstring :=
  if bracket then 91 :: a ++ 93 :: port_text port else a.

Lemma class_no_slash (p : N -> bool) (a : jstring) :
  p 47 = false -> forallb p a = true -> no_slash a = true.
Proof.
  intros Hp. unfold no_slash. induction a as [| u a IH]; [reflexivity |].
  cbn [forallb]. intros H. apply andb_true_iff in H as [Hu Ha].
  rewrite (IH Ha), andb_true_r. apply negb_true_iff, N.eqb_neq.
  intros ->. congruence.
Qed.

Lemma bracketed_no_slash (bracket : bool) (a : jstring) (port : option jstring) :
  forallb ipv6_part a = true -> decimal_port port ->
  no_slash (bracketed bracket a port) = true.
Proof.
  intros Ha Hp. pose proof (class_no_slash ipv6_part a eq_refl Ha) as Hs.
  destruct bracket; [| exact Hs]. unfold bracketed, no_slash in *.
  cbn [forallb]. rewrite forallb_app, Hs. cbn [forallb andb].
  destruct port as [ds |]; [| reflexivity]. destruct Hp as [_ Hd].
  cbn [port_text forallb]. apply (class_no_slash digit ds eq_refl Hd).
Qed.

Lemma ipv6_match (bracket : bool) (a : jstring) (port : option jstring) :
  a <> [] ->
  forallb ipv6_part a = true ->
  decimal_port port ->
  exists y,
    match_at ipv6_host 0 (bracketed bracket a port) = Some y
    /\ caps y = [Some a; if bracket then port else None].
Proof.
  intros Hne Ha Hport. unfold match_at, ipv6_host, start, port_suffix.
  cbn [pattern ngroups replicate seqs app].
  rewrite run_Seq, run_Bol. cbn [pos Nat.eqb]. rewrite run_Seq.
  destruct bracket; unfold bracketed.
  - set (z := MState
                (S (length a) + length (93 :: port_text port)
                 - match port with Some _ => 0 | None => 1 end)
                (match port with Some _ => [] | None => [93] end)
                [Some a; port]).
    exists z. split; [| reflexivity].
    apply (run_opt_take _ _ _
             (MState 1 (a ++ 93 :: port_text port) [None; None]));
      [discriminate | cbn; lia | |].
    + intros d Hd. unfold c. rewrite run_Char. cbn [clear_caps groups fold_right rest].
      exact Hd.
    + rewrite run_Seq, run_Group. unfold plus. apply run_class.
      * reflexivity.
      * exact Ha.
      * destruct a; [contradiction | cbn; lia].
      * cbn [pos rest]. unfold set_cap at 1. cbn [pos rest caps Nat.pred].
        replace (1 + length a - 1)%nat with (length a) by lia.
        rewrite take_app_length.
        change (<[0%nat:=Some a]> [None; None]) with [Some a; @None jstring].
        destruct port as [ds |]; cbn [port_text].
        -- destruct Hport as [Hd0 Hds].
           apply (run_opt_take _ _ _ z); [discriminate | unfold z; cbn; lia | | reflexivity].
           intros d Hd.
           match goal with
           | |- context [clear_caps ?g ?x] =>
               change (clear_caps g x) with (set_cap 2 None x)
           end.
           rewrite run_Seq. unfold c at 1. rewrite run_Char.
           cbn [set_cap rest pos caps app].
           change (<[Nat.pred 2:=None]> [Some a; None]) with [Some a; @None jstring].
           cbn [chr N.eqb Pos.eqb]. change (N.eqb 93 (cu "]")) with true.
           cbv iota.
           apply port_core_match; [exact Hd0 | exact Hds |].
           rewrite <- Hd. f_equal. unfold z. f_equal. cbn [length port_text]. lia.
        -- rewrite run_opt_skip; [unfold z; f_equal; f_equal; cbn [length port_text]; lia |].
           intros d. reflexivity.
  - exists (MState (length a) [] [Some a; None]). split; [| reflexivity].
    destruct a as [| u a]; [contradiction |].
    rewrite run_opt_skip.
    + rewrite run_Seq, run_Group. unfold plus.
      rewrite <- (app_nil_r (u :: a)) at 1. apply run_class.
      * exact I.
      * exact Ha.
      * cbn; lia.
      * cbn [pos rest Nat.add]. unfold set_cap at 1.
        cbn [pos rest caps Nat.pred].
        rewrite Nat.sub_0_r, take_ge by lia.
        change (<[0%nat:=Some (u :: a)]> [None; None])
          with [Some (u :: a); @None jstring].
        rewrite run_opt_skip; [reflexivity |]. intros d. reflexivity.
    + intros d. unfold c. rewrite run_Char.
      cbn [clear_caps groups fold_right rest].
      cbn [forallb] in Ha. apply andb_true_iff in Ha as [Hu _].
      replace (chr (cu "[") u) with false; [reflexivity |].
      symmetry. apply N.eqb_neq. intros ->. discriminate Hu.
Qed.

(** X22.  An address of hexadecimal digits and colons holding more than one
    colon, bare or in brackets with or without a colon and a decimal port
    after the closing bracket, followed or not by a colon and the path of a
    socket, is returned as the host, marked as IPv6, with that port and that
    socket. *)
Theorem parseDbHost_ipv6 (bracket : bool) (a : jstring)
    (port socket : option jstring) :
  a <> [] ->
  forallb ipv6_part a = true ->
  wellformed_port port ->
  (1 < count 58 (bracketed bracket a port))%nat ->
  parseDbHost (bracketed bracket a port ++ socket_text socket)
  = VArr [VStr a; port_value (if bracket then port else None);
          socket_value socket; VBool true].
Proof.
  intros Hne Ha [Hport _] Hcount. unfold parseDbHost.
  change (lit ":/") with [58; 47].
  rewrite (index_of_sub_no_slash _ _ (bracketed_no_slash bracket a port Ha Hport))
    by (destruct socket; exact I).
  rewrite index_of_sub_socket.
  destruct (ipv6_match bracket a port Hne Ha Hport) as (y & Hy & Hcaps).
  assert (forall sock,
            (let isIPv6 := Nat.ltb 1 (count 58 (bracketed bracket a port)) in
             match search (if isIPv6 then ipv6_host else ipv4_host) 0
                     (bracketed bracket a port) with
             | None => VBool false
             | Some (_, y) =>
                 VArr [VStr match caps y !! 0%nat with
                            | Some (Some t) => t
                            | _ => []
                            end;
                       match caps y !! 1%nat with
                       | Some (Some (u :: t)) =>
                           match parseInt (u :: t) with
                           | Some n => VNum n
                           | None => VNaN
                           end
                       | _ => VNull
                       end; sock; VBool isIPv6]
             end)
            = VArr [VStr a; port_value (if bracket then port else None); sock;
                    VBool true]) as Hmain.
  { intros sock. cbv zeta.
    replace (Nat.ltb 1 (count 58 (bracketed bracket a port))) with true
      by (symmetry; apply Nat.ltb_lt; exact Hcount).
    rewrite (search_here _ _ _ _ Hy), Hcaps. cbn [lookup list_lookup].
    destruct bracket; [| reflexivity].
    destruct port as [[| d ds] |]; cbn [port_value]; try reflexivity.
    destruct Hport as [H _]. contradiction. }
  destruct socket as [path |]; cbn [option_map socket_text socket_value].
  - rewrite Nat.add_0_r, take_app_length.
    replace (drop (length (bracketed bracket a port) + 1)
               (bracketed bracket a port ++ 58 :: 47 :: path)) with (47 :: path).
    + apply Hmain.
    + rewrite <- drop_drop, drop_app_length. reflexivity.
  - rewrite app_nil_r. apply Hmain.
Qed.

Lemma parseDbHost_ipv6_witness :
  parseDbHost (bracketed true (lit "::1") (Some (lit "3306")) ++ socket_text None)
  = VArr [VStr (lit "::1"); port_value (Some (lit "3306")); socket_value None;
          VBool true].
Proof.
  apply (parseDbHost_ipv6 true (lit "::1") (Some (lit "3306")) None);
    [discriminate | reflexivity
    | split; [split; [discriminate | reflexivity] | vm_compute; lia]
    | vm_compute; lia].
Defined.

(** ** The cached result *)

(** The value that [getVar] makes of column [x] of a row. *)
Definition cell (x : Z) (row : list (jstring * jsval)) : jsval :=
  match at_index (obj_values row) x with
  | Some VUndef | Some (VStr []) | None => VNull
  | Some v => v
  end.

Lemma getCol_loop_rows (x : Z) (rows : list (list (jstring * jsval))) :
  forall (n : nat) (i : nat) (fc : jstring),
    (i + n = length rows)%nat ->
    fst (getCol_loop x (Z.of_nat i) n (ResultCache (Some rows) fc))
    = Normal (map (cell x) (drop i rows)).
Proof.
  induction n as [| n IH]; intros i fc Hlen.
  - rewrite drop_ge by lia. reflexivity.
  - cbn [getCol_loop]. unfold getVar. cbn [lastResult].
    unfold at_index at 1.
    replace (Z.of_nat i <? 0)%Z with false by (symmetry; apply Z.ltb_ge; lia).
    rewrite Nat2Z.id.
    destruct (rows !! i) as [row |] eqn:Hrow;
      [| apply lookup_ge_None in Hrow; lia].
    replace (Z.of_nat i + 1)%Z with (Z.of_nat (S i)) by lia.
    specialize (IH (S i) (getVar_call x (Z.of_nat i)) ltac:(lia)).
    destruct (getCol_loop x (Z.of_nat (S i)) n _) as [[vs | e] c];
      cbn [fst] in IH; [| discriminate IH].
    injection IH as ->. cbn [fst].
    rewrite (drop_S rows row i Hrow). reflexivity.
Qed.

(** X23.  On the cached result, [getCol] returns one entry for every row:
    the value of the column, with [null] for a missing column, an
    [undefined] and an empty string; without a cached result it returns the
    empty array, where [getVar] throws a [TypeError]. *)
Theorem getCol_cached (x : Z) (this : result_cache) :
  (exists column,
     fst (getCol x this) = Normal column
     /\ column = match lastResult this with
                 | Some rows => map (cell x) rows
                 | None => []
                 end
     /\ Forall (fun v => v <> VUndef /\ v <> VStr []) column)
  /\ (forall y,
        fst (getVar x y this)
        = match lastResult this with
          | Some rows =>
              Normal match at_index rows y with
                     | Some row => cell x row
                     | None => VNull
                     end
          | None => Throw TypeError
          end).
Proof.
  split; [| intros y; unfold getVar, cell; cbn [lastResult];
            destruct (lastResult this) as [rows |]; [| reflexivity];
            cbn [fst]; destruct (at_index rows y); reflexivity].
  destruct this as [[rows |] fc]; unfold getCol; cbn [lastResult].
  - exists (map (cell x) rows).
    split; [exact (getCol_loop_rows x rows (length rows) 0 fc eq_refl) |].
    split; [reflexivity |].
    apply Forall_forall. intros v Hv. apply list_elem_of_In in Hv.
    apply in_map_iff in Hv as (row & <- & _). unfold cell.
    destruct (at_index (obj_values row) x) as [[| | | | | [|] | | | |] |];
      split; discriminate.
  - exists []. repeat split. constructor.
Qed.

(** ** [dbVersion] *)

Lemma version_tail_search (v : jstring) (t : jstring) (i : nat) :
  forallb version_unit v = true ->
  search version_tail i (v ++ t)
  = match search version_tail (i + length v) t with
    | Some r => Some r
    | None => None
    end.
Proof.
  revert i. induction v as [| x v IH]; intros i Hv.
  - cbn. rewrite Nat.add_0_r. destruct (search version_tail i t); reflexivity.
  - cbn [forallb] in Hv. apply andb_true_iff in Hv as [Hx Hv].
    cbn [app search]. unfold match_at at 1, version_tail at 1, start.
    cbn [pattern ngroups replicate]. rewrite run_Seq, run_Char.
    cbn [rest]. unfold none_of at 1. rewrite Hx. cbn [negb].
    rewrite (IH (S i) Hv). cbn [length].
    replace (S i + length v)%nat with (i + S (length v))%nat by lia.
    reflexivity.
Qed.

Lemma version_tail_match (u : N) (w tl : jstring) (i : nat) :
  version_unit u = false ->
  forallb dot w = true ->
  stops dot tl ->
  match_at version_tail i (u :: w ++ tl)
  = Some (MState (S i + length w) tl []).
Proof.
  intros Hu Hw Htl. unfold match_at, version_tail, start.
  cbn [pattern ngroups replicate]. rewrite run_Seq, run_Char.
  cbn [rest pos caps]. unfold none_of at 1. rewrite Hu. cbn [negb].
  unfold star. apply run_class; auto. lia.
Qed.

Lemma dbVersion_cases (i : instance) (v : jstring)
    (tail : option (N * jstring * jstring)) :
  dbh i = Connection ->
  forallb version_unit v = true ->
  match tail with
  | Some (u, w, tl) =>
      version_unit u = false /\ forallb dot w = true /\ stops dot tl
  | None => True
  end ->
  dbVersion i (VStr (v ++ match tail with
                          | Some (u, w, tl) => u :: w ++ tl
                          | None => []
                          end))
  = Normal (v ++ match tail with Some (_, _, tl) => tl | None => [] end).
Proof.
  intros Hdbh Hv Htail. unfold dbVersion, dbServerInfo. rewrite Hdbh.
  f_equal. unfold replace_first. rewrite (version_tail_search v _ 0 Hv).
  destruct tail as [[[u w] tl] |].
  - destruct Htail as (Hu & Hw & Htl).
    rewrite (search_here _ _ _ _ (version_tail_match u w tl _ Hu Hw Htl)).
    cbn [Nat.add rest]. rewrite take_app_length. reflexivity.
  - cbn. reflexivity.
Qed.

(** X24.  [dbVersion] on a connected instance returns the leading digits and
    dots of the server version: a version made of digits and dots only is
    returned as it is, and from the first other code unit on everything up
    to the end of the line is dropped. *)
Theorem dbVersion_leading_numbers (i : instance) (v : jstring) (u : N)
    (w tl : jstring) :
  dbh i = Connection ->
  forallb version_unit v = true ->
  version_unit u = false ->
  forallb dot w = true ->
  stops dot tl ->
  dbVersion i (VStr v) = Normal v
  /\ dbVersion i (VStr (v ++ u :: w ++ tl)) = Normal (v ++ tl).
Proof.
  intros Hdbh Hv Hu Hw Htl. split.
  - pose proof (dbVersion_cases i v None Hdbh Hv I) as H.
    cbn in H. rewrite app_nil_r in H. exact H.
  - exact (dbVersion_cases i v (Some (u, w, tl)) Hdbh Hv
             (conj Hu (conj Hw Htl))).
Qed.

Lemma dbVersion_leading_numbers_witness :
  dbVersion connected (VStr (lit "8.0.36"))
  = Normal (lit "8.0.36")
  /\ dbVersion connected
       (VStr (lit "8.0.36" ++ 45 :: lit "0ubuntu0.22.04.1" ++ []))
     = Normal (lit "8.0.36" ++ []).
Proof.
  apply (dbVersion_leading_numbers connected (lit "8.0.36") 45
           (lit "0ubuntu0.22.04.1") []);
    [reflexivity | reflexivity | reflexivity | reflexivity | exact I].
Defined.

(** ** The charset of a table *)

(** The set of charsets after line 2213: [utf8mb3] counted as [utf8]. *)
Definition without_alias (charsets : list jstring) : list jstring :=
  if bool_decide (lit "utf8mb3" ∈ charsets)
  then set_delete (lit "utf8mb3") (set_add (lit "utf8") charsets)
  else charsets.

Lemma set_delete_elem (x y : jstring) (l : list jstring) :
  y ∈ set_delete x l <-> y ∈ l /\ y <> x.
Proof.
  unfold set_delete. rewrite list_elem_of_filter. tauto.
Qed.

Lemma set_add_elem (x y : jstring) (l : list jstring) :
  y ∈ set_add x l <-> y ∈ l \/ y = x.
Proof.
  unfold set_add. destruct (bool_decide_reflect (x ∈ l)) as [H | H].
  - split; [auto | intros [Hy | ->]; auto].
  - rewrite elem_of_app, list_elem_of_singleton. tauto.
Qed.

Lemma without_alias_elem (charsets : list jstring) (x : jstring) :
  x ∈ without_alias charsets
  <-> x <> lit "utf8mb3"
      /\ (x ∈ charsets \/ (x = lit "utf8" /\ lit "utf8mb3" ∈ charsets)).
Proof.
  unfold without_alias.
  destruct (bool_decide_reflect (lit "utf8mb3" ∈ charsets)) as [H | H].
  - rewrite set_delete_elem, set_add_elem. tauto.
  - split.
    + intros Hx. split; [intros -> ; contradiction | left; exact Hx].
    + intros [_ [Hx | [_ Hm]]]; [exact Hx | contradiction].
Qed.

Lemma without_alias_nil (charsets : list jstring) :
  without_alias charsets = [] <-> charsets = [].
Proof.
  split.
  - intros Hn. destruct charsets as [| c cs]; [reflexivity |].
    destruct (decide (c = lit "utf8mb3")) as [-> | Hc].
    + assert (lit "utf8" ∈ without_alias (lit "utf8mb3" :: cs)) as Hu.
      { apply without_alias_elem. split; [discriminate |].
        right. split; [reflexivity | left]. }
      rewrite Hn in Hu. inversion Hu.
    + assert (c ∈ without_alias (c :: cs)) as Hu.
      { apply without_alias_elem. split; [exact Hc | left; left]. }
      rewrite Hn in Hu. inversion Hu.
  - intros ->. reflexivity.
Qed.

Lemma resolve_charsets_alias (charsets : list jstring) :
  resolve_charsets charsets
  = match without_alias charsets with
    | [one] => VStr one
    | [] => VBool false
    | _ =>
        match set_delete (lit "latin1") (without_alias charsets) with
        | [one] => VStr one
        | l =>
            if Nat.eqb (length l) 2
               && bool_decide (lit "utf8" ∈ l)
               && bool_decide (lit "utf8mb4" ∈ l)
            then VStr (lit "utf8")
            else VStr (lit "ascii")
        end
    end.
Proof.
  unfold resolve_charsets, without_alias.
  destruct (bool_decide (lit "utf8mb3" ∈ charsets));
    match goal with
    | |- match ?l with _ => _ end = _ => destruct l as [| a [| b l']]
    end; try reflexivity;
    match goal with
    | |- match ?l with _ => _ end = _ => destruct l as [| a' [| b' l'']]
    end; reflexivity.
Qed.

(** X25.  The charset that lines 2212-2236 make of the charsets of the
    columns: [false] exactly when there is none; otherwise a string that is
    never [utf8mb3], that is one of the charsets of the columns, [utf8] or
    [ascii], and that is [latin1] only when every column has it. *)
Theorem resolve_charsets_outcome (charsets : list jstring) :
  (resolve_charsets charsets = VBool false <-> charsets = [])
  /\ (charsets <> [] ->
      exists c,
        resolve_charsets charsets = VStr c
        /\ c <> lit "utf8mb3"
        /\ (c ∈ charsets \/ c = lit "utf8" \/ c = lit "ascii")
        /\ (c = lit "latin1" -> forall x, x ∈ charsets -> x = lit "latin1")).
Proof.
  assert (forall c, c ∈ without_alias charsets ->
            c <> lit "utf8mb3" /\ (c ∈ charsets \/ c = lit "utf8" \/ c = lit "ascii"))
    as Hmem.
  { intros c Hc. apply without_alias_elem in Hc as [Hc [H | [H _]]]; auto. }
  assert (charsets <> [] ->
          exists c,
            resolve_charsets charsets = VStr c
            /\ c <> lit "utf8mb3"
            /\ (c ∈ charsets \/ c = lit "utf8" \/ c = lit "ascii")
            /\ (c = lit "latin1" -> forall x, x ∈ charsets -> x = lit "latin1"))
    as Hsome.
  { intros Hne. rewrite resolve_charsets_alias.
    pose proof (without_alias_nil charsets) as Hnil.
    destruct (without_alias charsets) as [| a [| b l]] eqn:En.
    - destruct Hne. apply Hnil. reflexivity.
    - exists a. split; [reflexivity |].
      destruct (Hmem a ltac:(left)) as [H1 H2].
      split; [exact H1 |]. split; [exact H2 |].
      intros -> x Hx.
      assert (x ∈ without_alias charsets \/ x = lit "utf8mb3") as [Hin | ->].
      { destruct (decide (x = lit "utf8mb3")) as [-> | Hd]; [right; reflexivity |].
        left. apply without_alias_elem. auto. }
      + rewrite En in Hin. apply list_elem_of_singleton in Hin. exact Hin.
      + assert (lit "utf8" ∈ without_alias charsets) as Hu.
        { apply without_alias_elem. split; [discriminate | right; auto]. }
        rewrite En in Hu. apply list_elem_of_singleton in Hu. discriminate Hu.
    - destruct (set_delete (lit "latin1") (a :: b :: l)) as [| d [| e l']] eqn:Ed.
      + exists (lit "ascii"). cbn.
        split; [reflexivity |]. split; [discriminate |].
        split; [auto | discriminate].
      + exists d. split; [reflexivity |].
        assert (d ∈ set_delete (lit "latin1") (a :: b :: l)) as Hd
          by (rewrite Ed; left).
        apply set_delete_elem in Hd as [Hd Hl].
        destruct (Hmem d Hd) as [H1 H2].
        split; [exact H1 |]. split; [exact H2 |].
        intros ->. contradiction.
      + cbv zeta.
        match goal with
        | |- context [if ?b then _ else _] => destruct b
        end;
          [exists (lit "utf8") | exists (lit "ascii")];
          (split; [reflexivity |]); (split; [discriminate |]);
          (split; [auto | discriminate]). }
  split; [| exact Hsome].
  split.
  - intros Hf. destruct charsets as [| c cs]; [reflexivity |].
    destruct (Hsome ltac:(discriminate)) as (x & Hx & _).
    rewrite Hx in Hf. discriminate Hf.
  - intros ->. reflexivity.
Qed.




